(** * A shader-preview host: the renderer, its hot reload and its clock

    Shallow embedding of [src/main.c].  The C program keeps its state in
    globals and talks to OpenGL, GLFW, stb_image and the file system; here
    the globals are a record threaded through a small state-and-exit monad,
    every call that leaves the process is appended to a trace, and whatever
    such a call answers is read from an environment record. *)

From Stdlib Require Import ZArith QArith Ascii String Floats Lia.
From stdpp Require Import base tactics option list strings relations.

Local Open Scope Z_scope.

(** ** Scalars *)

(** C [double] is IEEE binary64, which is what the primitive floats are. *)
Definition double : Type := PrimFloat.float.

(** C [float] and [GLfloat] are IEEE binary32: a [spec_float] in the format
    of precision 24 and maximal exponent 128. *)
Definition GLfloat : Type := spec_float.
Definition f32_prec : Z := 24.
Definition f32_emax : Z := 128.

(** An integer constant converted to [float], as in [0.0f] and [1.0f]. *)
Definition f32_of_Z (z : Z) : GLfloat := binary_normalize f32_prec f32_emax z 0 false.

(** The cast [(GLfloat) d] of a double: rounding to nearest, ties to even. *)
Definition f32_of_double (d : double) : GLfloat :=
  match Prim2SF d with
  | S754_finite s m e => binary_round f32_prec f32_emax s m e
  | sf => sf
  end.

(** An [int] converted to [double] (exact, since an [int] has 32 bits). *)
Definition double_of_int (z : Z) : double := SF2Prim (binary_normalize prec emax z 0 false).

Definition GLuint : Type := Z.
Definition GLint : Type := Z.
Definition GLenum : Type := Z.
Definition GLsizei : Type := Z.

(** A C string: the characters before the terminating NUL. *)
Definition cstring : Type := list ascii.

Definition cstr (s : string) : cstring := list_ascii_of_string s.

Definition NUL : ascii := "000"%char.

(** ** Vectors of [la.h] *)

Module LA.

(** Modelled from the spec: [la.h] is not part of the sources at hand; its
    [V2f] is the "2D float" and its [V4f] the "4-component float (RGBA)"
    of the spec's Vertex, and [v2f], [v4f] build them from components. *)
Record V2f : Type := v2f { v2_x : GLfloat; v2_y : GLfloat }.

Record V4f : Type := v4f { v4_x : GLfloat; v4_y : GLfloat; v4_z : GLfloat; v4_w : GLfloat }.

End LA.
Export LA.

(** ** Constants of main.c and of the GL and GLFW headers *)

(** [0.1] is no binary64 value; the literal denotes the nearest one. *)
Definition MANUAL_TIME_STEP : double := 0x1.999999999999ap-4%float.

Definition GL_VERTEX_SHADER : GLenum := 35633.
Definition GL_FRAGMENT_SHADER : GLenum := 35632.

Definition GLFW_PRESS : Z := 1.
Definition GLFW_KEY_SPACE : Z := 32.
Definition GLFW_KEY_Q : Z := 81.
Definition GLFW_KEY_RIGHT : Z := 262.
Definition GLFW_KEY_LEFT : Z := 263.
Definition GLFW_KEY_F5 : Z := 294.
Definition GLFW_KEY_F6 : Z := 295.

Inductive Uniform : Type := RESOLUTION_UNIFORM | TIME_UNIFORM | MOUSE_UNIFORM.

Definition COUNT_UNIFORMS : nat := 3.

Definition Uniform_index (u : Uniform) : nat :=
  match u with
  | RESOLUTION_UNIFORM => 0%nat
  | TIME_UNIFORM => 1%nat
  | MOUSE_UNIFORM => 2%nat
  end.

Definition uniform_names (u : Uniform) : string :=
  match u with
  | RESOLUTION_UNIFORM => "resolution"
  | TIME_UNIFORM => "time"
  | MOUSE_UNIFORM => "mouse"
  end.

Inductive Vertex_Attrib : Type := VA_POS | VA_UV | VA_COLOR.

Record Vertex : Type := mkVertex { pos : V2f; uv : V2f; color : V4f }.

Definition set_pos (p : V2f) (v : Vertex) : Vertex := mkVertex p (uv v) (color v).
Definition set_uv (t : V2f) (v : Vertex) : Vertex := mkVertex (pos v) t (color v).
Definition set_color (c : V4f) (v : Vertex) : Vertex := mkVertex (pos v) (uv v) c.

(** [sizeof(Vertex)]: eight floats of four bytes. *)
Definition sizeof_Vertex : Z := 32.

Definition VERTEX_BUF_CAP : nat := 8 * 1024.

Record Renderer : Type := mkRenderer {
  vao : GLuint;
  vbo : GLuint;
  program_failed : bool;
  program : GLuint;
  uniforms : list GLint;
  vertex_buf : list Vertex;
  vertex_buf_sz : nat;
  texture : GLuint
}.

Definition f32_zero : GLfloat := S754_zero false.

Definition Vertex_zero : Vertex :=
  mkVertex (v2f f32_zero f32_zero) (v2f f32_zero f32_zero)
           (v4f f32_zero f32_zero f32_zero f32_zero).

(** [static Renderer global_renderer = {0};] *)
Definition Renderer_zero : Renderer :=
  {| vao := 0; vbo := 0; program_failed := false; program := 0;
     uniforms := replicate COUNT_UNIFORMS 0;
     vertex_buf := replicate VERTEX_BUF_CAP Vertex_zero;
     vertex_buf_sz := 0%nat;
     texture := 0 |}.

Definition set_vertex_buf (b : list Vertex) (r : Renderer) : Renderer :=
  mkRenderer (vao r) (vbo r) (program_failed r) (program r) (uniforms r) b (vertex_buf_sz r) (texture r).
Definition set_vertex_buf_sz (n : nat) (r : Renderer) : Renderer :=
  mkRenderer (vao r) (vbo r) (program_failed r) (program r) (uniforms r) (vertex_buf r) n (texture r).
Definition set_program_failed (b : bool) (r : Renderer) : Renderer :=
  mkRenderer (vao r) (vbo r) b (program r) (uniforms r) (vertex_buf r) (vertex_buf_sz r) (texture r).
Definition set_program (p : GLuint) (r : Renderer) : Renderer :=
  mkRenderer (vao r) (vbo r) (program_failed r) p (uniforms r) (vertex_buf r) (vertex_buf_sz r) (texture r).
Definition set_uniforms (u : list GLint) (r : Renderer) : Renderer :=
  mkRenderer (vao r) (vbo r) (program_failed r) (program r) u (vertex_buf r) (vertex_buf_sz r) (texture r).
Definition set_texture (t : GLuint) (r : Renderer) : Renderer :=
  mkRenderer (vao r) (vbo r) (program_failed r) (program r) (uniforms r) (vertex_buf r) (vertex_buf_sz r) t.
Definition set_vao (a : GLuint) (r : Renderer) : Renderer :=
  mkRenderer a (vbo r) (program_failed r) (program r) (uniforms r) (vertex_buf r) (vertex_buf_sz r) (texture r).
Definition set_vbo (b : GLuint) (r : Renderer) : Renderer :=
  mkRenderer (vao r) b (program_failed r) (program r) (uniforms r) (vertex_buf r) (vertex_buf_sz r) (texture r).

(** ** The geometry batch

    The batch is a pure function of the renderer; a failed [assert] aborts
    the process, which is the [None] here. *)

Definition renderer_push_vertex (r : Renderer) (p t : V2f) (c : V4f) : option Renderer :=
  if decide (vertex_buf_sz r < VERTEX_BUF_CAP)%nat then
    let i := vertex_buf_sz r in
    let r := set_vertex_buf (alter (set_pos p) i (vertex_buf r)) r in
    let r := set_vertex_buf (alter (set_uv t) i (vertex_buf r)) r in
    let r := set_vertex_buf (alter (set_color c) i (vertex_buf r)) r in
    Some (set_vertex_buf_sz (vertex_buf_sz r + 1)%nat r)
  else None.

Definition renderer_push_quad (r : Renderer) (p1 p2 : V2f) (col : V4f) : option Renderer :=
  let a := p1 in
  let b := v2f (v2_x p2) (v2_y p1) in
  let c := v2f (v2_x p1) (v2_y p2) in
  let d := p2 in
  r ← renderer_push_vertex r a (v2f (f32_of_Z 0) (f32_of_Z 0)) col;
  r ← renderer_push_vertex r b (v2f (f32_of_Z 1) (f32_of_Z 0)) col;
  r ← renderer_push_vertex r c (v2f (f32_of_Z 0) (f32_of_Z 1)) col;
  r ← renderer_push_vertex r b (v2f (f32_of_Z 1) (f32_of_Z 0)) col;
  r ← renderer_push_vertex r c (v2f (f32_of_Z 0) (f32_of_Z 1)) col;
  renderer_push_vertex r d (v2f (f32_of_Z 1) (f32_of_Z 1)) col.

(** ** The outside world

    Every call into OpenGL, GLFW, stb_image or stdio is an event of the
    trace, with the arguments the program passed; a value such a call
    returns is part of the event, and comes from the environment. *)

(** A decoded image, as [stbi_load] returns it. *)
Record Image : Type := mkImage { img_width : Z; img_height : Z; img_pixels : list Z }.

Inductive TexPname : Type :=
  GL_TEXTURE_MIN_FILTER | GL_TEXTURE_MAG_FILTER | GL_TEXTURE_WRAP_S | GL_TEXTURE_WRAP_T.

Inductive TexParam : Type := GL_LINEAR | GL_CLAMP_TO_BORDER.

Inductive GLCall : Type :=
  | GlCreateShader (shader_type : GLenum) (ret : GLuint)
  | GlShaderSource (shader : GLuint) (source : cstring)
  | GlCompileShader (shader : GLuint)
  | GlGetShaderiv_COMPILE_STATUS (shader : GLuint) (ret : bool)
  | GlGetShaderInfoLog (shader : GLuint) (ret : cstring)
  | GlCreateProgram (ret : GLuint)
  | GlAttachShader (prog shader : GLuint)
  | GlLinkProgram (prog : GLuint)
  | GlGetProgramiv_LINK_STATUS (prog : GLuint) (ret : bool)
  | GlGetProgramInfoLog (prog : GLuint) (ret : cstring)
  | GlDeleteShader (shader : GLuint)
  | GlDeleteProgram (prog : GLuint)
  | GlUseProgram (prog : GLuint)
  | GlGetUniformLocation (prog : GLuint) (name : string) (ret : GLint)
  | GlClearColor (r g b a : GLfloat)
  | GlClear_COLOR_BUFFER_BIT
  | GlBufferSubData_ARRAY_BUFFER (offset size : Z) (data : list Vertex)
  | GlBufferData_ARRAY_BUFFER_DYNAMIC_DRAW (size : Z) (data : list Vertex)
  | GlGenVertexArrays (ret : GLuint)
  | GlBindVertexArray (array : GLuint)
  | GlGenBuffers (ret : GLuint)
  | GlBindBuffer_ARRAY_BUFFER (buffer : GLuint)
  | GlEnableVertexAttribArray (index : Vertex_Attrib)
  | GlVertexAttribPointer_FLOAT (index : Vertex_Attrib) (size : Z) (stride : Z) (offset : Z)
  | GlDeleteTextures (tex : GLuint)
  | GlGenTextures (ret : GLuint)
  | GlBindTexture_2D (tex : GLuint)
  | GlTexParameteri_2D (pname : TexPname) (param : TexParam)
  | GlTexImage2D_RGBA (width height : Z) (pixels : list Z)
  | GlUniform2f (location : GLint) (v0 v1 : GLfloat)
  | GlUniform1f (location : GLint) (v0 : GLfloat)
  | GlDrawArraysInstanced_TRIANGLES (first : Z) (count : GLsizei) (instancecount : GLsizei)
  | GlViewport (x y width height : Z)
  | GlReadPixels_RGBA (x y width height : Z)
  | GlEnable_DEBUG_OUTPUT
  | GlDebugMessageCallback
  | GlEnable_BLEND
  | GlBlendFunc_SRC_ALPHA_ONE_MINUS_SRC_ALPHA.

(** What the program prints, message by message; [strerror(errno)] is left
    out of the messages that end with it. *)
Inductive Message : Type :=
  | Err_could_not_compile (shader_type : string) (log : cstring)
  | Err_failed_to_read_file (file_path : option cstring)
  | Err_failed_to_compile_file (file_path : option cstring)
  | Err_program_linking (log : cstring)
  | Err_could_not_load_conf (path : string)
  | Out_vertex_path (p : cstring)
  | Out_fragment_path (p : cstring)
  | Out_texture_path (p : cstring)
  | Out_unsupported_key (path : string) (row : Z) (col : Z) (key : cstring)
  | Err_could_not_load_image (path : option cstring)
  | Out_reloaded_shaders
  | Out_saving_screenshot
  | Err_screenshot_no_memory
  | Err_could_not_save_screenshot
  | Err_could_not_initialize_GLFW
  | Err_could_not_create_window
  | Out_OpenGL_version (major minor : Z)
  | Err_draw_instanced_required.

Inductive Event : Type :=
  | GL (c : GLCall)
  | Printf (m : Message)
  | Stbi_load (path : option cstring) (ret : option Image)
  | Stbi_image_free
  | Stbi_write_png (width height : Z) (ret : bool)
  | GlfwTerminate
  | GlfwSwapBuffers
  | GlfwPollEvents.

(** What [glfwPollEvents] hands to the callbacks. *)
Inductive Input : Type :=
  | Key (key action : Z)
  | FramebufferSize (width height : Z).

(** What the outside answers.  A file is what [slurp_file_into_malloced_cstr]
    can read of it at this moment; the GL answers may depend on the calls
    made so far, so they are given the trace. *)
Record Env : Type := mkEnv {
  env_file : option cstring -> option (list ascii);
  env_stbi_load : option cstring -> option Image;
  env_gl_name : list Event -> GLuint;
  env_gl_compile_status : list Event -> GLuint -> bool;
  env_gl_link_status : list Event -> GLuint -> bool;
  env_gl_info_log : list Event -> GLuint -> cstring;
  env_gl_uniform_location : list Event -> GLuint -> string -> GLint;
  env_malloc_ok : bool;
  env_stbi_write_png : bool;
  env_glfwInit : bool;
  env_glfwCreateWindow : bool;
  env_gl_version : Z * Z;
  env_has_glDrawArraysInstanced : bool;
  env_has_glDebugMessageCallback : bool;
  env_window_size : Z * Z;
  env_cursor_pos : double * double;
  env_input : list Input;
  env_glfwGetTime : double
}.

(** A [const char *] into the [render_conf] buffer: [None] is [NULL],
    [Some i] the address of its byte [i]. *)
Definition char_ptr : Type := option nat.

(** The globals of main.c, the [prev_time] local of [main], and the trace. *)
Record State : Type := mkState {
  time : double;
  pause : bool;
  global_renderer : Renderer;
  render_conf : option (list ascii);
  vert_path : char_ptr;
  frag_path : char_ptr;
  texture_path : char_ptr;
  trace : list Event
}.

Definition set_time (t : double) (s : State) : State :=
  mkState t (pause s) (global_renderer s) (render_conf s) (vert_path s) (frag_path s) (texture_path s) (trace s).
Definition set_pause (b : bool) (s : State) : State :=
  mkState (time s) b (global_renderer s) (render_conf s) (vert_path s) (frag_path s) (texture_path s) (trace s).
Definition set_global_renderer (r : Renderer) (s : State) : State :=
  mkState (time s) (pause s) r (render_conf s) (vert_path s) (frag_path s) (texture_path s) (trace s).
Definition set_render_conf (b : option (list ascii)) (s : State) : State :=
  mkState (time s) (pause s) (global_renderer s) b (vert_path s) (frag_path s) (texture_path s) (trace s).
Definition set_vert_path (p : char_ptr) (s : State) : State :=
  mkState (time s) (pause s) (global_renderer s) (render_conf s) p (frag_path s) (texture_path s) (trace s).
Definition set_frag_path (p : char_ptr) (s : State) : State :=
  mkState (time s) (pause s) (global_renderer s) (render_conf s) (vert_path s) p (texture_path s) (trace s).
Definition set_texture_path (p : char_ptr) (s : State) : State :=
  mkState (time s) (pause s) (global_renderer s) (render_conf s) (vert_path s) (frag_path s) p (trace s).
Definition set_trace (t : list Event) (s : State) : State :=
  mkState (time s) (pause s) (global_renderer s) (render_conf s) (vert_path s) (frag_path s) (texture_path s) t.

(** [static double time = 0.0; static bool pause = false; ...] *)
Definition State_init : State :=
  {| time := 0%float; pause := false; global_renderer := Renderer_zero;
     render_conf := None; vert_path := None; frag_path := None; texture_path := None;
     trace := [] |}.

(** ** The monad: state, [exit] and [assert] *)

Inductive Outcome (A : Type) : Type :=
  | Ret (a : A) (s : State)
  | Exited (status : Z) (s : State)
  | Aborted (s : State).
Arguments Ret {A} a s.
Arguments Exited {A} status s.
Arguments Aborted {A} s.

Definition M (A : Type) : Type := State -> Outcome A.

Definition ret {A} (a : A) : M A := fun s => Ret a s.

Definition bind {A B} (m : M A) (k : A -> M B) : M B :=
  fun s => match m s with
           | Ret a s' => k a s'
           | Exited c s' => Exited c s'
           | Aborted s' => Aborted s'
           end.

#[global] Instance M_ret : MRet M := @ret.
#[global] Instance M_bind : MBind M := fun A B k m => bind m k.

Definition get : M State := fun s => Ret s s.
Definition gets {A} (f : State -> A) : M A := fun s => Ret (f s) s.
Definition modify (f : State -> State) : M unit := fun s => Ret tt (f s).
Definition emit (e : Event) : M unit := modify (fun s => set_trace (trace s ++ [e]) s).
Definition exit {A} (status : Z) : M A := fun s => Exited status s.
Definition abort {A} : M A := fun s => Aborted s.
Definition gl (c : GLCall) : M unit := emit (GL c).
Definition print (m : Message) : M unit := emit (Printf m).

(** The state a run ends in, however it ends. *)
Definition final {A} (o : Outcome A) : State :=
  match o with
  | Ret _ s => s
  | Exited _ s => s
  | Aborted s => s
  end.

(** An assertion-guarded pure step on the renderer, run on [global_renderer]. *)
Definition on_renderer (f : Renderer -> option Renderer) : M unit :=
  fun s => match f (global_renderer s) with
           | Some r => Ret tt (set_global_renderer r s)
           | None => Aborted s
           end.

Definition modify_renderer (f : Renderer -> Renderer) : M unit :=
  modify (fun s => set_global_renderer (f (global_renderer s)) s).

(** The C string a [const char *] into [render_conf] points at, read in the
    buffer as it is now. *)
Fixpoint strlen (l : list ascii) : nat :=
  match l with
  | [] => 0
  | c :: l' => if decide (c = NUL) then 0 else S (strlen l')
  end.

Definition cstr_at (buf : list ascii) (i : nat) : cstring :=
  take (strlen (drop i buf)) (drop i buf).

Definition deref (s : State) (p : char_ptr) : option cstring :=
  match p, render_conf s with
  | Some i, Some buf => Some (cstr_at buf i)
  | _, _ => None
  end.

(** ** Files and shaders *)

(** The buffer holds the bytes of the file and a terminating NUL; [fopen],
    [fseek], [ftell], [malloc] and [fread] fail together as [env_file]
    answering [None]. *)
Definition slurp_file_into_malloced_cstr (env : Env) (file_path : option cstring)
  : option (list ascii) :=
  content ← env_file env file_path;
  Some (content ++ [NUL]).

(** What the C code sees of a buffer as a string: [strlen] stops at the
    first NUL, also one that the file itself contains. *)
Definition as_cstring (buf : list ascii) : cstring := cstr_at buf 0.

Definition shader_type_as_cstr (shader : GLenum) : string :=
  if decide (shader = GL_VERTEX_SHADER) then "GL_VERTEX_SHADER"
  else if decide (shader = GL_FRAGMENT_SHADER) then "GL_FRAGMENT_SHADER"
  else "(Unknown)".

(** The out-parameter [*shader] is the second component of the result. *)
Definition compile_shader_source (env : Env) (source : cstring) (shader_type : GLenum)
  : M (bool * GLuint) :=
  tr ← gets trace;
  let shader := env_gl_name env tr in
  gl (GlCreateShader shader_type shader);;
  gl (GlShaderSource shader source);;
  gl (GlCompileShader shader);;
  tr ← gets trace;
  let compiled := env_gl_compile_status env tr shader in
  gl (GlGetShaderiv_COMPILE_STATUS shader compiled);;
  if negb compiled then
    tr ← gets trace;
    let message := env_gl_info_log env tr shader in
    gl (GlGetShaderInfoLog shader message);;
    print (Err_could_not_compile (shader_type_as_cstr shader_type) message);;
    mret (false, shader)
  else mret (true, shader).

(** [shader] is the value [*shader] has at the call: it is left alone when
    the file cannot be read. *)
Definition compile_shader_file (env : Env) (file_path : option cstring)
    (shader_type : GLenum) (shader : GLuint) : M (bool * GLuint) :=
  match slurp_file_into_malloced_cstr env file_path with
  | None =>
      print (Err_failed_to_read_file file_path);;
      mret (false, shader)
  | Some source =>
      '(ok, shader) ← compile_shader_source env (as_cstring source) shader_type;
      (if negb ok then print (Err_failed_to_compile_file file_path) else mret tt);;
      mret (ok, shader)
  end.

(** Where a [GLuint *] can point. *)
Inductive GLuint_ptr : Type := NULL_GLuint | Addr_renderer_program.

Definition ptr_as_bool (p : GLuint_ptr) : bool :=
  match p with NULL_GLuint => false | Addr_renderer_program => true end.

(** [*p = v]; writing through a null pointer crashes. *)
Definition store (p : GLuint_ptr) (v : GLuint) : M unit :=
  match p with
  | NULL_GLuint => abort
  | Addr_renderer_program => modify_renderer (set_program v)
  end.

Definition load (p : GLuint_ptr) : M GLuint :=
  match p with
  | NULL_GLuint => abort
  | Addr_renderer_program => gets (fun s => program (global_renderer s))
  end.

(** The function ends with [return program;]: the pointer, not [linked]. *)
Definition link_program (env : Env) (vert_shader frag_shader : GLuint)
    (program : GLuint_ptr) : M bool :=
  tr ← gets trace;
  let p := env_gl_name env tr in
  gl (GlCreateProgram p);;
  store program p;;
  p ← load program; gl (GlAttachShader p vert_shader);;
  p ← load program; gl (GlAttachShader p frag_shader);;
  p ← load program; gl (GlLinkProgram p);;
  p ← load program;
  tr ← gets trace;
  let linked := env_gl_link_status env tr p in
  gl (GlGetProgramiv_LINK_STATUS p linked);;
  (if negb linked then
     p ← load program;
     tr ← gets trace;
     let message := env_gl_info_log env tr p in
     gl (GlGetProgramInfoLog p message);;
     print (Err_program_linking message)
   else mret tt);;
  gl (GlDeleteShader vert_shader);;
  gl (GlDeleteShader frag_shader);;
  mret (ptr_as_bool program).

Definition load_shader_program (env : Env) (vertex_file_path fragment_file_path : option cstring)
    (program : GLuint_ptr) : M bool :=
  let vert := 0 in
  '(ok, vert) ← compile_shader_file env vertex_file_path GL_VERTEX_SHADER vert;
  if negb ok then mret false else
  let frag := 0 in
  '(ok, frag) ← compile_shader_file env fragment_file_path GL_FRAGMENT_SHADER frag;
  if negb ok then mret false else
  ok ← link_program env vert frag program;
  if negb ok then mret false else
  mret true.

(** ** The renderer: buffer, texture and program

    [Renderer *r] is [&global_renderer] at every call of the program. *)

Definition renderer_sync : M unit :=
  r ← gets global_renderer;
  gl (GlBufferSubData_ARRAY_BUFFER 0
        (sizeof_Vertex * Z.of_nat (vertex_buf_sz r))
        (take (vertex_buf_sz r) (vertex_buf r))).

Definition renderer_reload_textures (env : Env) : M unit :=
  path ← gets (fun s => deref s (texture_path s));
  let texture_pixels := env_stbi_load env path in
  emit (Stbi_load path texture_pixels);;
  match texture_pixels with
  | None => print (Err_could_not_load_image path)
  | Some img =>
      r ← gets global_renderer;
      gl (GlDeleteTextures (texture r));;
      tr ← gets trace;
      let t := env_gl_name env tr in
      gl (GlGenTextures t);;
      modify_renderer (set_texture t);;
      r ← gets global_renderer;
      gl (GlBindTexture_2D (texture r));;
      gl (GlTexParameteri_2D GL_TEXTURE_MIN_FILTER GL_LINEAR);;
      gl (GlTexParameteri_2D GL_TEXTURE_MAG_FILTER GL_LINEAR);;
      gl (GlTexParameteri_2D GL_TEXTURE_WRAP_S GL_CLAMP_TO_BORDER);;
      gl (GlTexParameteri_2D GL_TEXTURE_WRAP_T GL_CLAMP_TO_BORDER);;
      gl (GlTexImage2D_RGBA (img_width img) (img_height img) (img_pixels img));;
      emit Stbi_image_free
  end.

Definition resolve_uniform (env : Env) (index : Uniform) : M unit :=
  r ← gets global_renderer;
  tr ← gets trace;
  let loc := env_gl_uniform_location env tr (program r) (uniform_names index) in
  gl (GlGetUniformLocation (program r) (uniform_names index) loc);;
  modify_renderer (fun r => set_uniforms (<[Uniform_index index := loc]> (uniforms r)) r).

Definition renderer_reload_shaders (env : Env) : M unit :=
  r ← gets global_renderer;
  gl (GlDeleteProgram (program r));;
  modify_renderer (set_program_failed true);;
  gl (GlClearColor (f32_of_Z 1) (f32_of_Z 0) (f32_of_Z 0) (f32_of_Z 1));;
  vp ← gets (fun s => deref s (vert_path s));
  fp ← gets (fun s => deref s (frag_path s));
  ok ← load_shader_program env vp fp Addr_renderer_program;
  if negb ok then mret tt else
  r ← gets global_renderer;
  gl (GlUseProgram (program r));;
  resolve_uniform env RESOLUTION_UNIFORM;;
  resolve_uniform env TIME_UNIFORM;;
  resolve_uniform env MOUSE_UNIFORM;;
  modify_renderer (set_program_failed false);;
  gl (GlClearColor (f32_of_Z 0) (f32_of_Z 0) (f32_of_Z 0) (f32_of_Z 0));;
  print Out_reloaded_shaders.

Definition offsetof_Vertex (a : Vertex_Attrib) : Z :=
  match a with VA_POS => 0 | VA_UV => 8 | VA_COLOR => 16 end.

Definition renderer_init (env : Env) : M unit :=
  tr ← gets trace;
  let a := env_gl_name env tr in
  gl (GlGenVertexArrays a);;
  modify_renderer (set_vao a);;
  r ← gets global_renderer;
  gl (GlBindVertexArray (vao r));;
  tr ← gets trace;
  let b := env_gl_name env tr in
  gl (GlGenBuffers b);;
  modify_renderer (set_vbo b);;
  r ← gets global_renderer;
  gl (GlBindBuffer_ARRAY_BUFFER (vbo r));;
  gl (GlBufferData_ARRAY_BUFFER_DYNAMIC_DRAW
        (sizeof_Vertex * Z.of_nat VERTEX_BUF_CAP) (vertex_buf r));;
  gl (GlEnableVertexAttribArray VA_POS);;
  gl (GlVertexAttribPointer_FLOAT VA_POS 2 sizeof_Vertex (offsetof_Vertex VA_POS));;
  gl (GlEnableVertexAttribArray VA_UV);;
  gl (GlVertexAttribPointer_FLOAT VA_UV 2 sizeof_Vertex (offsetof_Vertex VA_UV));;
  gl (GlEnableVertexAttribArray VA_COLOR);;
  gl (GlVertexAttribPointer_FLOAT VA_COLOR 4 sizeof_Vertex (offsetof_Vertex VA_COLOR)).

(** ** String views of [sv.h] *)

Module SV.

(** Modelled from the spec: [sv.h] is not part of the sources at hand.  The
    spec calls it "trivial key = value text splitting" with values
    "whitespace-trimmed"; a view is a pointer into the buffer and a
    count, [sv_chop_by_delim] cuts the view at the first delimiter and
    steps over it, the trims step over the characters C's [isspace]
    accepts. *)
Record String_View : Type := mkSV { count : nat; data : nat }.

Definition char_at (buf : list ascii) (p : nat) : ascii := default NUL (buf !! p).

Definition isspace (c : ascii) : bool :=
  let n := nat_of_ascii c in
  Nat.eqb n 32 || (Nat.leb 9 n && Nat.leb n 13).

Definition sv_from_parts (d : nat) (n : nat) : String_View := mkSV n d.

Definition sv_from_cstr (buf : list ascii) (p : nat) : String_View :=
  sv_from_parts p (strlen (drop p buf)).

(** The bytes a view shows. *)
Definition sv_bytes (buf : list ascii) (sv : String_View) : list ascii :=
  take (count sv) (drop (data sv) buf).

(** [i] after [while (i < n && buf[p + i] != delim) i += 1;] *)
Fixpoint index_of_delim (buf : list ascii) (delim : ascii) (p n : nat) : nat :=
  match n with
  | O => O
  | S n' => if decide (char_at buf p = delim) then O
            else S (index_of_delim buf delim (S p) n')
  end.

(** The chopped-off front and what is left of [*sv]. *)
Definition sv_chop_by_delim (buf : list ascii) (sv : String_View) (delim : ascii)
  : String_View * String_View :=
  let i := index_of_delim buf delim (data sv) (count sv) in
  let result := sv_from_parts (data sv) i in
  if decide (i < count sv)%nat
  then (result, mkSV (count sv - (i + 1)) (data sv + (i + 1)))
  else (result, mkSV (count sv - i) (data sv + i)).

(** [i] after [while (i < n && isspace(buf[p + i])) i += 1;] *)
Fixpoint leading_spaces (buf : list ascii) (p n : nat) : nat :=
  match n with
  | O => O
  | S n' => if isspace (char_at buf p) then S (leading_spaces buf (S p) n') else O
  end.

Definition sv_trim_left (buf : list ascii) (sv : String_View) : String_View :=
  let i := leading_spaces buf (data sv) (count sv) in
  sv_from_parts (data sv + i) (count sv - i).

(** [i] after [while (i < n && isspace(buf[p + n - 1 - i])) i += 1;] *)
Fixpoint trailing_spaces (buf : list ascii) (p n : nat) : nat :=
  match n with
  | O => O
  | S n' => if isspace (char_at buf (p + n')) then S (trailing_spaces buf p n') else O
  end.

Definition sv_trim_right (buf : list ascii) (sv : String_View) : String_View :=
  let i := trailing_spaces buf (data sv) (count sv) in
  sv_from_parts (data sv) (count sv - i).

Definition sv_trim (buf : list ascii) (sv : String_View) : String_View :=
  sv_trim_right buf (sv_trim_left buf sv).

(** Equal counts and equal bytes; the arguments are the bytes of the two
    views, since [SV("vert")] shows a string literal, not the buffer. *)
Definition sv_eq (a b : list ascii) : bool := bool_decide (a = b).

End SV.
Export SV.

(** ** The render configuration *)

Definition newline : ascii := "010"%char.

(** The write [value.data[value.count] = 0] into the [render_conf] buffer;
    a write outside the buffer is a memory error. *)
Definition poke_render_conf (i : nat) (c : ascii) : M unit :=
  o ← gets render_conf;
  match o with
  | Some buf =>
      if decide (i < length buf)%nat
      then modify (set_render_conf (Some (<[i := c]> buf)))
      else abort
  | None => abort
  end.

Definition the_render_conf : M (list ascii) :=
  o ← gets render_conf;
  match o with
  | Some buf => mret buf
  | None => abort
  end.

(** One round of the [for] loop of [reload_render_conf], the loop test
    apart; the result is the new [content]. *)
Definition reload_render_conf_line (render_conf_path : string) (row : Z)
    (content : String_View) : M String_View :=
  buf ← the_render_conf;
  let '(line, content) := sv_chop_by_delim buf content newline in
  let line_start := data line in
  let line := sv_trim_left buf line in
  (if (0 <? count line)%nat && negb (bool_decide (char_at buf (data line) = "#"%char)) then
     let '(k, line) := sv_chop_by_delim buf line "="%char in
     let key := sv_trim buf k in
     let value := sv_trim_left buf line in
     poke_render_conf (data value + count value) NUL;;
     buf ← the_render_conf;
     if sv_eq (sv_bytes buf key) (cstr "vert") then
       modify (set_vert_path (Some (data value)));;
       print (Out_vertex_path (cstr_at buf (data value)))
     else if sv_eq (sv_bytes buf key) (cstr "frag") then
       modify (set_frag_path (Some (data value)));;
       print (Out_fragment_path (cstr_at buf (data value)))
     else if sv_eq (sv_bytes buf key) (cstr "texture") then
       modify (set_texture_path (Some (data value)));;
       print (Out_texture_path (cstr_at buf (data value)))
     else
       print (Out_unsupported_key render_conf_path row
                (Z.of_nat (data key) - Z.of_nat line_start) (sv_bytes buf key))
   else mret tt);;
  mret content.

(** The [for] loop: [content.count] shrinks in every round, so [fuel] at
    least [content.count] is never used up. *)
Fixpoint reload_render_conf_loop (fuel : nat) (render_conf_path : string) (row : Z)
    (content : String_View) : M unit :=
  if decide (0 < count content)%nat then
    match fuel with
    | O => mret tt
    | S fuel =>
        content ← reload_render_conf_line render_conf_path row content;
        reload_render_conf_loop fuel render_conf_path (row + 1) content
    end
  else mret tt.

Definition reload_render_conf (env : Env) (render_conf_path : string) : M unit :=
  modify (set_render_conf (slurp_file_into_malloced_cstr env (Some (cstr render_conf_path))));;
  o ← gets render_conf;
  match o with
  | None =>
      print (Err_could_not_load_conf render_conf_path);;
      exit 1
  | Some buf =>
      let content := sv_from_cstr buf 0 in
      modify (set_vert_path None);;
      modify (set_frag_path None);;
      modify (set_texture_path None);;
      reload_render_conf_loop (count content) render_conf_path 0 content
  end.

(** ** Input callbacks *)

Definition screenshot (env : Env) : M unit :=
  print Out_saving_screenshot;;
  let '(width, height) := env_window_size env in
  if negb (env_malloc_ok env) then print Err_screenshot_no_memory
  else
    gl (GlReadPixels_RGBA 0 0 width height);;
    emit (Stbi_write_png width height (env_stbi_write_png env));;
    if negb (env_stbi_write_png env) then print Err_could_not_save_screenshot else mret tt.

Definition key_callback (env : Env) (key action : Z) : M unit :=
  if decide (action = GLFW_PRESS) then
    (if decide (key = GLFW_KEY_F5) then
       reload_render_conf env "render.conf";;
       renderer_reload_textures env;;
       renderer_reload_shaders env
     else if decide (key = GLFW_KEY_F6) then
       screenshot env
     else if decide (key = GLFW_KEY_SPACE) then
       modify (fun s => set_pause (negb (pause s)) s)
     else if decide (key = GLFW_KEY_Q) then
       exit 1
     else mret tt);;
    p ← gets pause;
    if (p : bool) then
      if decide (key = GLFW_KEY_LEFT) then
        modify (fun s => set_time (time s - MANUAL_TIME_STEP)%float s)
      else if decide (key = GLFW_KEY_RIGHT) then
        modify (fun s => set_time (time s + MANUAL_TIME_STEP)%float s)
      else mret tt
    else mret tt
  else mret tt.

Definition window_size_callback (width height : Z) : M unit :=
  gl (GlViewport 0 0 width height).

(** [glfwPollEvents] runs the callback of each pending input, in order. *)
Fixpoint dispatch (env : Env) (inputs : list Input) : M unit :=
  match inputs with
  | [] => mret tt
  | Key key action :: rest => key_callback env key action;; dispatch env rest
  | FramebufferSize w h :: rest => window_size_callback w h;; dispatch env rest
  end.

(** ** The frame driver *)

Definition uniform_slot (r : Renderer) (u : Uniform) : GLint :=
  default 0 (uniforms r !! Uniform_index u).

(** The body of the [while] loop of [main]; [prev_time] is the local of
    [main], handed in and out.  [env] is the outside during this frame. *)
Definition frame (env : Env) (prev_time : double) : M double :=
  gl GlClear_COLOR_BUFFER_BIT;;
  r ← gets global_renderer;
  (if negb (program_failed r) then
     let '(width, height) := env_window_size env in
     gl (GlUniform2f (uniform_slot r RESOLUTION_UNIFORM) (f32_of_Z width) (f32_of_Z height));;
     t ← gets time;
     gl (GlUniform1f (uniform_slot r TIME_UNIFORM) (f32_of_double t));;
     let '(xpos, ypos) := env_cursor_pos env in
     gl (GlUniform2f (uniform_slot r MOUSE_UNIFORM) (f32_of_double xpos)
           (f32_of_double (double_of_int height - ypos)%float));;
     gl (GlDrawArraysInstanced_TRIANGLES 0 (Z.of_nat (vertex_buf_sz r)) 1)
   else mret tt);;
  emit GlfwSwapBuffers;;
  emit GlfwPollEvents;;
  dispatch env (env_input env);;
  let cur_time := env_glfwGetTime env in
  p ← gets pause;
  (if negb (p : bool) then modify (fun s => set_time (time s + (cur_time - prev_time))%float s)
   else mret tt);;
  mret cur_time.

(** The [while] loop, over the frames the window stays open for. *)
Fixpoint main_loop (frames : list Env) (prev_time : double) : M unit :=
  match frames with
  | [] => mret tt
  | env :: rest => prev_time ← frame env prev_time; main_loop rest prev_time
  end.

(** [main] up to the loop; the result is the initial [prev_time]. *)
Definition main_startup (env : Env) : M double :=
  reload_render_conf env "render.conf";;
  (if negb (env_glfwInit env) then print Err_could_not_initialize_GLFW;; exit 1 else mret tt);;
  (if negb (env_glfwCreateWindow env) then
     print Err_could_not_create_window;; emit GlfwTerminate;; exit 1
   else mret tt);;
  print (Out_OpenGL_version (env_gl_version env).1 (env_gl_version env).2);;
  (if negb (env_has_glDrawArraysInstanced env) then print Err_draw_instanced_required;; exit 1
   else mret tt);;
  (if env_has_glDebugMessageCallback env then
     gl GlEnable_DEBUG_OUTPUT;; gl GlDebugMessageCallback
   else mret tt);;
  gl GlEnable_BLEND;;
  gl GlBlendFunc_SRC_ALPHA_ONE_MINUS_SRC_ALPHA;;
  renderer_init env;;
  on_renderer (fun r =>
    renderer_push_quad r (v2f (f32_of_Z (-1)) (f32_of_Z (-1))) (v2f (f32_of_Z 1) (f32_of_Z 1))
      (v4f f32_zero f32_zero f32_zero f32_zero));;
  renderer_sync;;
  renderer_reload_textures env;;
  renderer_reload_shaders env;;
  modify (set_time (env_glfwGetTime env));;
  mret 0%float.

Definition main (env : Env) (frames : list Env) : M Z :=
  prev_time ← main_startup env;
  main_loop frames prev_time;;
  mret 0.

(** ** Observations *)

(** The state a run returns in, if it returns. *)
Definition returned {A} (o : Outcome A) : option State :=
  match o with
  | Ret _ s => Some s
  | _ => None
  end.

(** A run leaves an observation [f] of the state as it was. *)
Definition keeps {X A} (f : State -> X) (m : M A) : Prop :=
  forall s, f (final (m s)) = f s.

(** A run keeps an invariant, however it ends. *)
Definition preserves {A} (I : State -> Prop) (m : M A) : Prop :=
  forall s, I s -> I (final (m s)).

(** What the batch is made of. *)
Definition batch_view (s : State) : list Vertex * nat :=
  (vertex_buf (global_renderer s), vertex_buf_sz (global_renderer s)).

(** The state a run ends in, however it ends. *)
(** The batch: the pushed vertices, in push order. *)
Definition batch (r : Renderer) : list Vertex := take (vertex_buf_sz r) (vertex_buf r).

Definition batch_ok (r : Renderer) : Prop :=
  length (vertex_buf r) = VERTEX_BUF_CAP /\ (vertex_buf_sz r <= VERTEX_BUF_CAP)%nat.

Definition batch_inv (s : State) : Prop := batch_ok (global_renderer s).

(** The renderer after one more vertex. *)
Definition pushed (r : Renderer) (v : Vertex) : Renderer :=
  set_vertex_buf_sz (vertex_buf_sz r + 1)
    (set_vertex_buf (<[vertex_buf_sz r := v]> (vertex_buf r)) r).

(** A sequence of [renderer_push_vertex] calls. *)
Fixpoint push_all (r : Renderer) (vs : list Vertex) : option Renderer :=
  match vs with
  | [] => Some r
  | v :: vs => r ← renderer_push_vertex r (pos v) (uv v) (color v); push_all r vs
  end.

(** The operations of the program on its state. *)
Inductive Op : Type :=
  | Op_push_vertex (p t : V2f) (c : V4f)
  | Op_push_quad (p1 p2 : V2f) (c : V4f)
  | Op_sync
  | Op_init (env : Env)
  | Op_reload_textures (env : Env)
  | Op_reload_shaders (env : Env)
  | Op_reload_render_conf (env : Env) (path : string)
  | Op_key_callback (env : Env) (key action : Z)
  | Op_window_size_callback (width height : Z)
  | Op_frame (env : Env) (prev_time : double)
  | Op_main_startup (env : Env).

Definition run_op (o : Op) : M unit :=
  match o with
  | Op_push_vertex p t c => on_renderer (fun r => renderer_push_vertex r p t c)
  | Op_push_quad p1 p2 c => on_renderer (fun r => renderer_push_quad r p1 p2 c)
  | Op_sync => renderer_sync
  | Op_init env => renderer_init env
  | Op_reload_textures env => renderer_reload_textures env
  | Op_reload_shaders env => renderer_reload_shaders env
  | Op_reload_render_conf env path => reload_render_conf env path
  | Op_key_callback env key action => key_callback env key action
  | Op_window_size_callback w h => window_size_callback w h
  | Op_frame env prev_time => frame env prev_time ≫= fun _ => mret tt
  | Op_main_startup env => main_startup env ≫= fun _ => mret tt
  end.

Definition step (s s' : State) : Prop := exists o, s' = final (run_op o s).

(** The states the process can be in between two operations. *)
Definition reachable : State -> Prop := rtc step State_init.

(** The events of a run from [s] to [s']. *)
Definition since (s s' : State) : list Event := drop (length (trace s)) (trace s').

(** A run from [s] that returns [a] in [s'], having added [evs] to the trace. *)
Definition runs {A} (m : M A) (s : State) (a : A) (s' : State) (evs : list Event) : Prop :=
  m s = Ret a s' /\ trace s' = trace s ++ evs.

(** Only the trace has changed from [s] to [s']. *)
Definition only_trace (s s' : State) : Prop := s' = set_trace (trace s') s.

(** An input that is no key press: a release, a repeat, a resize. *)
Definition not_press (i : Input) : Prop :=
  match i with
  | Key _ action => action <> GLFW_PRESS
  | FramebufferSize _ _ => True
  end.

(** A frame during which no key is pressed. *)
Definition idle (env : Env) : Prop := Forall not_press (env_input env).

(** The GL calls among the events. *)
Definition gl_calls (tr : list Event) : list GLCall :=
  omap (fun e => match e with GL c => Some c | _ => None end) tr.

Definition is_draw (c : GLCall) : bool :=
  match c with GlDrawArraysInstanced_TRIANGLES _ _ _ => true | _ => false end.

Definition is_draw_event (e : Event) : bool :=
  match e with GL c => is_draw c | _ => false end.

(** The draw calls among the events. *)
Definition draw_calls (tr : list Event) : list Event := filter (fun e => is_draw_event e = true) tr.

(** The events that tell how a shader reload went. *)
Inductive Mark : Type :=
  | Destroyed (prog : GLuint)
  | Cleared (c : V4f)
  | Read_failed
  | Compiled (ok : bool)
  | Linked (ok : bool)
  | Used
  | Resolved (name : string)
  | Drawn.

Definition mark (e : Event) : option Mark :=
  match e with
  | GL (GlDeleteProgram p) => Some (Destroyed p)
  | GL (GlClearColor r g b a) => Some (Cleared (v4f r g b a))
  | Printf (Err_failed_to_read_file _) => Some Read_failed
  | GL (GlGetShaderiv_COMPILE_STATUS _ ok) => Some (Compiled ok)
  | GL (GlGetProgramiv_LINK_STATUS _ ok) => Some (Linked ok)
  | GL (GlUseProgram _) => Some Used
  | GL (GlGetUniformLocation _ name _) => Some (Resolved name)
  | GL (GlDrawArraysInstanced_TRIANGLES _ _ _) => Some Drawn
  | _ => None
  end.

Definition marks (tr : list Event) : list Mark := omap mark tr.

(** The colour of the last [glClearColor] of a trace, if there is one. *)
Definition clear_color (tr : list Event) : option V4f :=
  last (omap (fun m => match m with Cleared c => Some c | _ => None end) (marks tr)).

(** How [load_shader_program] can fail, and how it succeeds. *)
Definition load_failures : list (list Mark) :=
  [ [Read_failed]; [Compiled false]; [Compiled true; Read_failed]; [Compiled true; Compiled false] ].

Definition load_success (linked : bool) : list Mark :=
  [Compiled true; Compiled true; Linked linked].

Definition red : V4f := v4f (f32_of_Z 1) (f32_of_Z 0) (f32_of_Z 0) (f32_of_Z 1).
Definition transparent_black : V4f := v4f (f32_of_Z 0) (f32_of_Z 0) (f32_of_Z 0) (f32_of_Z 0).

(** ** Winding *)

(** The number a finite binary32 value stands for. *)
Definition Q_of_f32 (f : GLfloat) : Q :=
  match f with
  | S754_finite s m e => (if s then -1 else 1) * inject_Z (Zpos m) * Qpower 2 e
  | _ => 0
  end.

(** Twice the signed area of the triangle [a, b, c]: positive when the
    corners run counter-clockwise, negative when they run clockwise. *)
Definition signed_area2 (a b c : V2f) : Q :=
  let x v := Q_of_f32 (v2_x v) in
  let y v := Q_of_f32 (v2_y v) in
  (x b - x a) * (y c - y a) - (x c - x a) * (y b - y a).

(** [Lt] is counter-clockwise, [Gt] clockwise, [Eq] a degenerate triangle. *)
Definition winding (a b c : V2f) : comparison := (0 ?= signed_area2 a b c)%Q.

(** The triangles [GL_TRIANGLES] assembles from a vertex list: each three
    vertices in a row are one triangle. *)
Fixpoint triangle_windings (vs : list Vertex) : list comparison :=
  match vs with
  | a :: b :: c :: rest => winding (pos a) (pos b) (pos c) :: triangle_windings rest
  | _ => []
  end.

(** ** The configuration format, on plain lists

    A second reading of the file, following the format: lines split at the
    newline, blank lines and [#] lines skipped, the key before the first
    [=] trimmed on both sides. *)

Fixpoint conf_lines (l : list ascii) : list (list ascii) :=
  match l with
  | [] => []
  | c :: l' =>
      if decide (c = newline) then [] :: conf_lines l'
      else match conf_lines l' with
           | [] => [[c]]
           | ln :: lns => (c :: ln) :: lns
           end
  end.

Fixpoint trim_left (l : list ascii) : list ascii :=
  match l with
  | [] => []
  | c :: l' => if isspace c then trim_left l' else l
  end.

Definition trim_right (l : list ascii) : list ascii := reverse (trim_left (reverse l)).

Definition trim (l : list ascii) : list ascii := trim_right (trim_left l).

Fixpoint before (d : ascii) (l : list ascii) : list ascii :=
  match l with
  | [] => []
  | c :: l' => if decide (c = d) then [] else c :: before d l'
  end.

Fixpoint after (d : ascii) (l : list ascii) : list ascii :=
  match l with
  | [] => []
  | c :: l' => if decide (c = d) then l' else after d l'
  end.

Inductive ConfLine : Type :=
  | Skipped
  | Entry (col : nat) (key value : list ascii).

(** [value_of] says how the text after the [=] becomes the value. *)
Definition conf_line (value_of : list ascii -> list ascii) (l : list ascii) : ConfLine :=
  match trim_left l with
  | [] => Skipped
  | c :: _ =>
      if decide (c = "#"%char) then Skipped
      else Entry (length l - length (trim_left l))
                 (trim (before "="%char (trim_left l)))
                 (value_of (after "="%char (trim_left l)))
  end.

Record Paths : Type := mkPaths {
  the_vert : option cstring;
  the_frag : option cstring;
  the_texture : option cstring
}.

Definition no_paths : Paths := mkPaths None None None.

Definition conf_apply (ps : Paths) (l : ConfLine) : Paths :=
  match l with
  | Skipped => ps
  | Entry _ key value =>
      if decide (key = cstr "vert") then mkPaths (Some value) (the_frag ps) (the_texture ps)
      else if decide (key = cstr "frag") then mkPaths (the_vert ps) (Some value) (the_texture ps)
      else if decide (key = cstr "texture") then mkPaths (the_vert ps) (the_frag ps) (Some value)
      else ps
  end.

Definition conf_message (path : string) (row : Z) (l : ConfLine) : list Message :=
  match l with
  | Skipped => []
  | Entry col key value =>
      if decide (key = cstr "vert") then [Out_vertex_path value]
      else if decide (key = cstr "frag") then [Out_fragment_path value]
      else if decide (key = cstr "texture") then [Out_texture_path value]
      else [Out_unsupported_key path row (Z.of_nat col) key]
  end.

Fixpoint conf_messages (path : string) (row : Z) (ls : list ConfLine) : list Message :=
  match ls with
  | [] => []
  | l :: ls => conf_message path row l ++ conf_messages path (row + 1) ls
  end.

(** The format as the code reads it: the value keeps what stands between
    its first character and the end of the line. *)
Definition conf_entries (text : list ascii) : list ConfLine :=
  conf_line trim_left <$> conf_lines text.

(** The format as the spec words it: values "whitespace-trimmed". *)
Definition conf_entries_trimmed (text : list ascii) : list ConfLine :=
  conf_line trim <$> conf_lines text.

Definition conf_paths (ls : list ConfLine) : Paths := foldl conf_apply no_paths ls.

(** A view shows the bytes [l] of the buffer. *)
Definition shows (buf : list ascii) (sv : String_View) (l : list ascii) : Prop :=
  exists pre post, buf = pre ++ l ++ post /\ data sv = length pre /\ count sv = length l.

(** The string at [q] ends before the byte [p]: a later write at [p] or
    beyond does not change it. *)
Definition ends_before (buf : list ascii) (p : nat) (ptr : char_ptr) : Prop :=
  match ptr with
  | None => True
  | Some q => (q + strlen (drop q buf) < p)%nat
  end.

Definition settled (buf : list ascii) (p : nat) (s : State) : Prop :=
  ends_before buf p (vert_path s) /\ ends_before buf p (frag_path s)
  /\ ends_before buf p (texture_path s).

(** What a line does to the state, once the buffer has its NUL: an entry
    of a known key stores the address [q] of its value and prints it, an
    entry of another key prints the warning. *)
Definition store_entry (path : string) (row : Z) (l : ConfLine) (q : nat) (s : State) : State :=
  match l with
  | Skipped => s
  | Entry col key value =>
      if decide (key = cstr "vert") then
        set_trace (trace s ++ [Printf (Out_vertex_path value)]) (set_vert_path (Some q) s)
      else if decide (key = cstr "frag") then
        set_trace (trace s ++ [Printf (Out_fragment_path value)]) (set_frag_path (Some q) s)
      else if decide (key = cstr "texture") then
        set_trace (trace s ++ [Printf (Out_texture_path value)]) (set_texture_path (Some q) s)
      else
        set_trace (trace s ++ [Printf (Out_unsupported_key path row (Z.of_nat col) key)]) s
  end.

(** The buffer after a line: an entry has put a NUL at the end [e] of its line. *)
Definition poked (l : ConfLine) (e : nat) (buf : list ascii) : list ascii :=
  match l with
  | Skipped => buf
  | Entry _ _ _ => <[e := NUL]> buf
  end.

(** The address of the value of an entry whose line ends at [e]. *)
Definition value_ptr (l : ConfLine) (e : nat) : nat :=
  match l with
  | Skipped => e
  | Entry _ _ value => e - length value
  end.

(** The file has an entry of this key. *)
Definition has_key (key : cstring) (ls : list ConfLine) : Prop :=
  exists col value, Entry col key value ∈ ls.

(** A line of the form the spec gives: blank, a comment, or with a [=]. *)
Definition key_value_line (l : list ascii) : bool :=
  match trim_left l with
  | [] => true
  | c :: _ => bool_decide (c = "#"%char) || bool_decide ("="%char ∈ l)
  end.

(** A file every line of which has that form. *)
Definition parses (text : list ascii) : bool := forallb key_value_line (conf_lines text).

(** The paths the program holds, as the strings its pointers show. *)
Definition paths_of (s : State) : Paths :=
  mkPaths (deref s (vert_path s)) (deref s (frag_path s)) (deref s (texture_path s)).

(** ** A concrete outside, for the examples *)

Definition lines_of (ls : list string) : list ascii :=
  concat ((fun l => cstr l ++ [newline]) <$> ls).

Definition example_conf : list ascii :=
  lines_of ["vert = shaders/a.vert"; "frag = shaders/a.frag"; "texture = img/a.png"].

Fixpoint lookup_file (files : list (string * list ascii)) (path : cstring) : option (list ascii) :=
  match files with
  | [] => None
  | (p, content) :: files => if decide (cstr p = path) then Some content else lookup_file files path
  end.

(** The source last given to a shader, as the trace tells. *)
Fixpoint shader_source (tr : list Event) (shader : GLuint) : cstring :=
  match tr with
  | [] => []
  | e :: tr =>
      match shader_source tr shader, e with
      | [], GL (GlShaderSource sh src) => if decide (sh = shader) then src else []
      | src, _ => src
      end
  end.

(** Files as listed; an image at "img/a.png" only if [image]; a compiler
    that accepts every source but "syntax error"; a linker that answers
    [link_ok]; names counted up; the clock at [now]. *)
Definition example_env (files : list (string * list ascii)) (image : bool) (link_ok : bool)
    (input : list Input) (now : double) : Env :=
  {| env_file := fun p => p ≫= lookup_file files;
     env_stbi_load := fun p =>
       if image && bool_decide (p = Some (cstr "img/a.png"))
       then Some (mkImage 1 1 [255; 255; 255; 255]) else None;
     env_gl_name := fun tr => Z.of_nat (length tr) + 1;
     env_gl_compile_status := fun tr sh => bool_decide (shader_source tr sh <> cstr "syntax error");
     env_gl_link_status := fun _ _ => link_ok;
     env_gl_info_log := fun _ _ => cstr "error";
     env_gl_uniform_location := fun _ _ name =>
       if decide (name = "resolution") then 0 else if decide (name = "time") then 1
       else if decide (name = "mouse") then 2 else -1;
     env_malloc_ok := true;
     env_stbi_write_png := true;
     env_glfwInit := true;
     env_glfwCreateWindow := true;
     env_gl_version := (3, 3);
     env_has_glDrawArraysInstanced := true;
     env_has_glDebugMessageCallback := true;
     env_window_size := (1600, 900);
     env_cursor_pos := (100%float, 50%float);
     env_input := input;
     env_glfwGetTime := now |}.

Definition example_files : list (string * list ascii) :=
  [("render.conf", example_conf);
   ("shaders/a.vert", cstr "void main() {}");
   ("shaders/a.frag", cstr "void main() {}")].

(** ** The checker board *)

(** Binary32 arithmetic: each operation is rounded to nearest, ties to
    even, on its own (no fused multiply-add). *)
Definition f32_add : GLfloat -> GLfloat -> GLfloat := SFadd f32_prec f32_emax.
Definition f32_mul : GLfloat -> GLfloat -> GLfloat := SFmul f32_prec f32_emax.
Definition f32_div : GLfloat -> GLfloat -> GLfloat := SFdiv f32_prec f32_emax.

(** The rounds of a [for] loop over the values of its counter, the body
    leaving the counter alone; a failed assertion ends the loop. *)
Fixpoint for_each (counter : list Z) (body : Z -> Renderer -> option Renderer) (r : Renderer)
  : option Renderer :=
  match counter with
  | [] => Some r
  | i :: counter => r ← body i r; for_each counter body r
  end.

(** [for (int i = 0; i < n; ++i) body]: the counter runs through [0 .. n-1],
    and through nothing when [n <= 0]. *)
Definition for_int (n : Z) (body : Z -> Renderer -> option Renderer) (r : Renderer)
  : option Renderer :=
  for_each (seqZ 0 n) body r.

(** The colour of the cell in column [x] of row [y]. *)
Definition checker_board_color (x y : Z) : V4f :=
  if decide (Z.rem (x + y) 2 = 0)
  then v4f (f32_of_Z 1) (f32_of_Z 0) (f32_of_Z 0) (f32_of_Z 1)
  else v4f (f32_of_Z 0) (f32_of_Z 0) (f32_of_Z 0) (f32_of_Z 1).

(** The two corners of the cell in column [x] of row [y]. *)
Definition checker_board_p1 (cell_width cell_height : GLfloat) (x y : Z) : V2f :=
  v2f (f32_add (f32_of_Z (-1)) (f32_mul (f32_of_Z x) cell_width))
      (f32_add (f32_of_Z (-1)) (f32_mul (f32_of_Z y) cell_height)).

Definition checker_board_p2 (cell_width cell_height : GLfloat) (x y : Z) : V2f :=
  v2f (f32_add (f32_of_Z (-1)) (f32_mul (f32_of_Z (x + 1)) cell_width))
      (f32_add (f32_of_Z (-1)) (f32_mul (f32_of_Z (y + 1)) cell_height)).

Definition renderer_push_checker_board (r : Renderer) (grid_size : Z) : option Renderer :=
  let cell_width := f32_div (f32_of_Z 2) (f32_of_Z grid_size) in
  let cell_height := f32_div (f32_of_Z 2) (f32_of_Z grid_size) in
  for_int grid_size (fun y =>
    for_int grid_size (fun x r =>
      renderer_push_quad r
        (checker_board_p1 cell_width cell_height x y)
        (checker_board_p2 cell_width cell_height x y)
        (checker_board_color x y))) r.

(** The six vertices of a quad, in the order [renderer_push_quad] pushes them. *)
Definition quad_vertices (p1 p2 : V2f) (col : V4f) : list Vertex :=
  let a := p1 in
  let b := v2f (v2_x p2) (v2_y p1) in
  let c := v2f (v2_x p1) (v2_y p2) in
  let d := p2 in
  [ mkVertex a (v2f (f32_of_Z 0) (f32_of_Z 0)) col;
    mkVertex b (v2f (f32_of_Z 1) (f32_of_Z 0)) col;
    mkVertex c (v2f (f32_of_Z 0) (f32_of_Z 1)) col;
    mkVertex b (v2f (f32_of_Z 1) (f32_of_Z 0)) col;
    mkVertex c (v2f (f32_of_Z 0) (f32_of_Z 1)) col;
    mkVertex d (v2f (f32_of_Z 1) (f32_of_Z 1)) col ].

(** The cells of a board, row by row from the bottom, each row from the left. *)
Definition checker_board_cells (grid_size : Z) : list (Z * Z) :=
  y ← seqZ 0 grid_size; x ← seqZ 0 grid_size; [(x, y)].

(** The vertices of a board: the quads of its cells, one after the other. *)
Definition checker_board_vertices (grid_size : Z) : list Vertex :=
  let cell_width := f32_div (f32_of_Z 2) (f32_of_Z grid_size) in
  let cell_height := f32_div (f32_of_Z 2) (f32_of_Z grid_size) in
  '(x, y) ← checker_board_cells grid_size;
  quad_vertices (checker_board_p1 cell_width cell_height x y)
          (checker_board_p2 cell_width cell_height x y)
          (checker_board_color x y).

(** A sequence of [renderer_push_quad] calls. *)
Fixpoint push_quads (r : Renderer) (qs : list (V2f * V2f * V4f)) : option Renderer :=
  match qs with
  | [] => Some r
  | (p1, p2, col) :: qs => r ← renderer_push_quad r p1 p2 col; push_quads r qs
  end.

(** ** How runs end *)

Inductive Ending : Type := Returns | Exits (status : Z) | Aborts.

Definition ending {A} (o : Outcome A) : Ending :=
  match o with
  | Ret _ _ => Returns
  | Exited c _ => Exits c
  | Aborted _ => Aborts
  end.

(** Every run of [m] ends in one of the [allowed] ways. *)
Definition ends_in {A} (allowed : Ending -> Prop) (m : M A) : Prop :=
  forall s, allowed (ending (m s)).

(** No failed assertion and no bad memory access; [exit(1)] if [exit] at all. *)
Definition returns_or_exits_1 (e : Ending) : Prop :=
  match e with
  | Returns => True
  | Exits c => c = 1
  | Aborts => False
  end.

(** No [exit]. *)
Definition returns_or_aborts (e : Ending) : Prop :=
  match e with
  | Exits _ => False
  | _ => True
  end.

(** From a state of [P] the run returns in a state of [Q], or leaves by
    [exit(1)]; it does not abort. *)
Definition triple {A} (P : State -> Prop) (m : M A) (Q : A -> State -> Prop) : Prop :=
  forall s, P s ->
    match m s with
    | Ret a s' => Q a s'
    | Exited c _ => c = 1
    | Aborted _ => False
    end.

(** A property of the batch, as a property of the state. *)
Definition at_view (R : list Vertex * nat -> Prop) (s : State) : Prop := R (batch_view s).

(** The draw call of the full-screen quad. *)
Definition draw_quad : Event := GL (GlDrawArraysInstanced_TRIANGLES 0 6 1).

(** The draw calls so far are [n] at most and each draws the six vertices
    of the batch. *)
Definition draws_quad (n : nat) (s : State) : Prop :=
  vertex_buf_sz (global_renderer s) = 6%nat
  /\ Forall (fun e => e = draw_quad) (draw_calls (trace s))
  /\ (length (draw_calls (trace s)) <= n)%nat.

(** ** Shader objects *)

Inductive ShaderOp : Type := Created (shader : GLuint) | Deleted (shader : GLuint).

Definition shader_op (e : Event) : option ShaderOp :=
  match e with
  | GL (GlCreateShader _ shader) => Some (Created shader)
  | GL (GlDeleteShader shader) => Some (Deleted shader)
  | _ => None
  end.

(** The [glCreateShader] and [glDeleteShader] calls among the events. *)
Definition shader_ops (tr : list Event) : list ShaderOp := omap shader_op tr.

(** ** Events that the renderer's state goes with *)

Definition is_clear_color (e : Event) : bool :=
  match e with GL (GlClearColor _ _ _ _) => true | _ => false end.

Definition is_upload (e : Event) : bool :=
  match e with GL (GlBufferSubData_ARRAY_BUFFER _ _ _) => true | _ => false end.

(** The draw calls, the changes of the clear colour and the uploads. *)
Definition loud (e : Event) : bool := is_draw_event e || is_clear_color e || is_upload e.

(** The uploads among the events. *)
Definition uploads (tr : list Event) : list Event := filter (fun e => is_upload e = true) tr.

(** The flag of the renderer and the clear colour GL has been given. *)
Definition flag_view (s : State) : bool * option V4f :=
  (program_failed (global_renderer s), clear_color (trace s)).

(** The clear colour goes with the flag: red while the program has
    failed, transparent black once one is loaded, and none set before the
    first reload. *)
Definition clear_color_ok (s : State) : Prop :=
  match clear_color (trace s) with
  | None => program_failed (global_renderer s) = false
  | Some c => c = if program_failed (global_renderer s) then red else transparent_black
  end.

(** The uploads so far and the batch. *)
Definition upload_view (s : State) : list Event * (list Vertex * nat) :=
  (uploads (trace s), batch_view s).

Definition at_uploads (R : list Event * (list Vertex * nat) -> Prop) (s : State) : Prop :=
  R (upload_view s).

(** The quad [main] pushes, and its upload. *)
Definition main_quad : list Vertex :=
  quad_vertices (v2f (f32_of_Z (-1)) (f32_of_Z (-1))) (v2f (f32_of_Z 1) (f32_of_Z 1))
    (v4f f32_zero f32_zero f32_zero f32_zero).

Definition main_upload : Event := GL (GlBufferSubData_ARRAY_BUFFER 0 192 main_quad).

(** The [glViewport] calls that a poll of these inputs leads to. *)
Definition viewports (inputs : list Input) : list Event :=
  omap (fun i => match i with
                 | FramebufferSize w h => Some (GL (GlViewport 0 0 w h))
                 | Key _ _ => None
                 end) inputs.

(** The strings the three paths show, those that are not null. *)
Definition path_strings (ps : Paths) : list cstring :=
  omap id [the_vert ps; the_frag ps; the_texture ps].

(** ** Step commands *)




(** * The geometry batch *)

Lemma alter_fields (l : list Vertex) (i : nat) (p t : V2f) (c : V4f) :
  (i < length l)%nat ->
  alter (set_color c) i (alter (set_uv t) i (alter (set_pos p) i l)) = <[i := mkVertex p t c]> l.
Proof.
  intros Hi. apply list_eq. intros j.
  destruct (decide (i = j)) as [<-|Hne].
  - rewrite list_lookup_insert_eq by done.
    rewrite !list_lookup_alter_eq.
    destruct (lookup_lt_is_Some_2 l i Hi) as [v ->]. reflexivity.
  - rewrite list_lookup_insert_ne by done.
    rewrite !list_lookup_alter_ne by done. reflexivity.
Qed.

Lemma renderer_push_vertex_Some (r : Renderer) (p t : V2f) (c : V4f) :
  length (vertex_buf r) = VERTEX_BUF_CAP ->
  (vertex_buf_sz r < VERTEX_BUF_CAP)%nat ->
  renderer_push_vertex r p t c =
    Some (set_vertex_buf_sz (vertex_buf_sz r + 1)
            (set_vertex_buf (<[vertex_buf_sz r := mkVertex p t c]> (vertex_buf r)) r)).
Proof.
  intros Hlen Hsz. unfold renderer_push_vertex.
  rewrite decide_True by done. cbn [vertex_buf set_vertex_buf vertex_buf_sz].
  rewrite alter_fields by (rewrite Hlen; done).
  destruct r; reflexivity.
Qed.

Lemma renderer_push_vertex_None (r : Renderer) (p t : V2f) (c : V4f) :
  ~ (vertex_buf_sz r < VERTEX_BUF_CAP)%nat -> renderer_push_vertex r p t c = None.
Proof. intros H. unfold renderer_push_vertex. by rewrite decide_False. Qed.

Lemma batch_pushed (r : Renderer) (v : Vertex) :
  (vertex_buf_sz r < length (vertex_buf r))%nat ->
  batch (pushed r v) = batch r ++ [v].
Proof.
  intros Hlt. unfold batch, pushed. cbn [vertex_buf vertex_buf_sz set_vertex_buf set_vertex_buf_sz].
  rewrite Nat.add_1_r.
  erewrite take_S_r by (apply list_lookup_insert_eq; exact Hlt).
  rewrite take_insert_ge by done. reflexivity.
Qed.

Lemma batch_ok_pushed (r : Renderer) (v : Vertex) :
  batch_ok r -> (vertex_buf_sz r < VERTEX_BUF_CAP)%nat -> batch_ok (pushed r v).
Proof.
  intros [Hlen Hsz] Hlt. unfold batch_ok, pushed.
  cbn [vertex_buf vertex_buf_sz set_vertex_buf set_vertex_buf_sz].
  rewrite length_insert. split; [done | lia].
Qed.

Lemma length_batch (r : Renderer) : batch_ok r -> length (batch r) = vertex_buf_sz r.
Proof. intros [Hlen Hsz]. unfold batch. rewrite length_take. lia. Qed.

Lemma push_vertex_batch (r : Renderer) (p t : V2f) (c : V4f) :
  batch_ok r -> (vertex_buf_sz r < VERTEX_BUF_CAP)%nat ->
  exists r', renderer_push_vertex r p t c = Some r'
             /\ batch r' = batch r ++ [mkVertex p t c]
             /\ vertex_buf_sz r' = (vertex_buf_sz r + 1)%nat
             /\ batch_ok r'.
Proof.
  intros Hok Hlt. exists (pushed r (mkVertex p t c)).
  destruct Hok as [Hlen Hsz].
  split; [by apply renderer_push_vertex_Some|].
  split; [apply batch_pushed; by rewrite Hlen|].
  split; [reflexivity|]. by apply batch_ok_pushed.
Qed.

Lemma push_all_batch (vs : list Vertex) : forall r : Renderer,
  batch_ok r -> (vertex_buf_sz r + length vs <= VERTEX_BUF_CAP)%nat ->
  exists r', push_all r vs = Some r'
             /\ batch r' = batch r ++ vs
             /\ vertex_buf_sz r' = (vertex_buf_sz r + length vs)%nat
             /\ batch_ok r'.
Proof.
  induction vs as [|v vs IH]; intros r Hok Hcap; cbn [push_all length] in *.
  - exists r. rewrite app_nil_r, Nat.add_0_r. done.
  - destruct (push_vertex_batch r (pos v) (uv v) (color v) Hok) as (r1 & -> & Hb1 & Hsz1 & Hok1); [lia|].
    destruct (IH r1 Hok1) as (r' & Hp & Hb & Hsz & Hok'); [lia|].
    exists r'. cbn. split; [exact Hp|].
    split; [rewrite Hb, Hb1, <- app_assoc; by destruct v|].
    split; [lia | done].
Qed.

Lemma renderer_push_quad_push_all (r : Renderer) (p1 p2 : V2f) (col : V4f) :
  renderer_push_quad r p1 p2 col = push_all r (quad_vertices p1 p2 col).
Proof.
  unfold renderer_push_quad, quad_vertices. cbn [push_all pos uv color].
  repeat (destruct (renderer_push_vertex _ _ _ _) as [?|]; cbn [mbind option_bind]; [|reflexivity]).
  reflexivity.
Qed.

Lemma signed_area2_strip (a b c d : V2f) :
  v2_x b = v2_x d -> v2_y b = v2_y a -> v2_x c = v2_x a -> v2_y c = v2_y d ->
  (signed_area2 b c d == - signed_area2 a b c)%Q.
Proof.
  intros Hbx Hby Hcx Hcy. unfold signed_area2. rewrite Hbx, Hby, Hcx, Hcy. ring.
Qed.

Lemma Qcompare_0_opp (x : Q) : (0 ?= - x)%Q = CompOpp (0 ?= x)%Q.
Proof. destruct x as [[|n|n] d]; reflexivity. Qed.

Lemma winding_strip (a b c d : V2f) :
  v2_x b = v2_x d -> v2_y b = v2_y a -> v2_x c = v2_x a -> v2_y c = v2_y d ->
  winding b c d = CompOpp (winding a b c).
Proof.
  intros Hbx Hby Hcx Hcy. unfold winding.
  rewrite (signed_area2_strip a b c d) by assumption.
  apply Qcompare_0_opp.
Qed.

(** C2, as the code has it: on a batch with room for six vertices,
    [renderer_push_quad] appends exactly six vertices, the triangles
    (a,b,c) and (b,c,d) of the rectangle spanned by [p1] and [p2], all of
    the given colour, with the UV corners (0,0), (1,0), (0,1), (1,1) at a,
    b, c, d; the signed areas of the two triangles are opposite, so the
    second triangle winds the other way round than the first. *)
Theorem renderer_push_quad_two_triangles (r : Renderer) (p1 p2 : V2f) (col : V4f) :
  batch_ok r ->
  (vertex_buf_sz r + 6 <= VERTEX_BUF_CAP)%nat ->
  let a := p1 in
  let b := v2f (v2_x p2) (v2_y p1) in
  let c := v2f (v2_x p1) (v2_y p2) in
  let d := p2 in
  let uv00 := v2f (f32_of_Z 0) (f32_of_Z 0) in
  let uv10 := v2f (f32_of_Z 1) (f32_of_Z 0) in
  let uv01 := v2f (f32_of_Z 0) (f32_of_Z 1) in
  let uv11 := v2f (f32_of_Z 1) (f32_of_Z 1) in
  exists r',
    renderer_push_quad r p1 p2 col = Some r'
    /\ batch r' = batch r ++ [ mkVertex a uv00 col; mkVertex b uv10 col; mkVertex c uv01 col;
                               mkVertex b uv10 col; mkVertex c uv01 col; mkVertex d uv11 col ]
    /\ vertex_buf_sz r' = (vertex_buf_sz r + 6)%nat
    /\ batch_ok r'
    /\ (signed_area2 b c d == - signed_area2 a b c)%Q
    /\ winding b c d = CompOpp (winding a b c).
Proof.
  intros Hok Hcap a b c d uv00 uv10 uv01 uv11.
  rewrite renderer_push_quad_push_all.
  destruct (push_all_batch (quad_vertices p1 p2 col) r Hok Hcap) as (r' & Hp & Hb & Hsz & Hok').
  exists r'. do 4 (split; [done|]).
  split; [by apply signed_area2_strip | by apply winding_strip].
Qed.

Lemma batch_ok_zero : batch_ok Renderer_zero.
Proof. split; [apply length_replicate | apply Nat.le_0_l]. Qed.

Lemma renderer_push_quad_two_triangles_witness :
  exists r',
    renderer_push_quad Renderer_zero (v2f (f32_of_Z (-1)) (f32_of_Z (-1)))
      (v2f (f32_of_Z 1) (f32_of_Z 1)) (v4f f32_zero f32_zero f32_zero f32_zero) = Some r'
    /\ vertex_buf_sz r' = 6%nat.
Proof.
  destruct (renderer_push_quad_two_triangles Renderer_zero
              (v2f (f32_of_Z (-1)) (f32_of_Z (-1))) (v2f (f32_of_Z 1) (f32_of_Z 1))
              (v4f f32_zero f32_zero f32_zero f32_zero) batch_ok_zero)
    as (r' & Hp & _ & Hsz & _).
  - unfold VERTEX_BUF_CAP. cbn [vertex_buf_sz Renderer_zero]. lia.
  - exists r'. split; [exact Hp | exact Hsz].
Defined.

(** C2 as stated fails on the quad [main] draws: the first triangle winds
    counter-clockwise, the second clockwise. *)
Lemma renderer_push_quad_windings_differ :
  (fun r => triangle_windings (batch r)) <$>
    renderer_push_quad Renderer_zero (v2f (f32_of_Z (-1)) (f32_of_Z (-1)))
      (v2f (f32_of_Z 1) (f32_of_Z 1)) (v4f f32_zero f32_zero f32_zero f32_zero)
  = Some [Lt; Gt].
Proof. vm_compute. reflexivity. Qed.

(** * Reasoning about runs *)

Section Keeps.
Context {X : Type} (f : State -> X).

Lemma keeps_ret {A} (a : A) : keeps f (mret a : M A).
  Proof. intros s. reflexivity. Qed.

Lemma keeps_bind {A B} (m : M A) (k : A -> M B) :
    keeps f m -> (forall a, keeps f (k a)) -> keeps f (m ≫= k).
  Proof.
    intros Hm Hk s. specialize (Hm s).
    unfold mbind, M_bind, bind. destruct (m s) as [a s'| |]; cbn [final] in *; try done.
    rewrite Hk. exact Hm.
  Qed.

Lemma keeps_gets {A} (g : State -> A) : keeps f (gets g).
  Proof. intros s. reflexivity. Qed.

Lemma keeps_exit {A} (c : Z) : keeps f (exit c : M A).
  Proof. intros s. reflexivity. Qed.

Lemma keeps_abort {A} : keeps f (abort : M A).
  Proof. intros s. reflexivity. Qed.

Lemma keeps_modify (g : State -> State) :
    (forall s, f (g s) = f s) -> keeps f (modify g).
  Proof. intros Hg s. apply Hg. Qed.

Lemma keeps_preserves {A} (I : State -> Prop) (m : M A) :
    (forall s s', f s' = f s -> I s -> I s') -> keeps f m -> preserves I m.
  Proof. intros HI Hm s Hs. apply (HI s); [apply Hm | exact Hs]. Qed.
End Keeps.

Lemma preserves_bind {A B} (I : State -> Prop) (m : M A) (k : A -> M B) :
  preserves I m -> (forall a, preserves I (k a)) -> preserves I (m ≫= k).
Proof.
  intros Hm Hk s Hs. specialize (Hm s Hs).
  unfold mbind, M_bind, bind. destruct (m s) as [a s'| |]; cbn [final] in *; try done.
  by apply Hk.
Qed.

Create HintDb keeps discriminated.

(** One step of a proof that a run keeps an observation: through binds and
    case distinctions down to the primitives and to the functions already
    dealt with. *)
Ltac keeps_step emit_tac modify_tac :=
  lazymatch goal with
  | |- forall _, _ => intros
  | |- keeps _ (mbind _ _) => apply keeps_bind
  | |- keeps _ (mret _) => apply keeps_ret
  | |- keeps _ (gets _) => apply keeps_gets
  | |- keeps _ (exit _) => apply keeps_exit
  | |- keeps _ abort => apply keeps_abort
  | |- keeps _ (modify _) => modify_tac
  | |- keeps _ (modify_renderer _) => modify_tac
  | |- keeps _ (emit _) => emit_tac
  | |- keeps _ (gl _) => emit_tac
  | |- keeps _ (print _) => emit_tac
  | |- keeps _ (match ?x with _ => _ end) => destruct x
  | |- keeps _ _ => solve [auto with keeps]
  end.

(** Observations that depend on the trace and the batch only, and on the
    trace only through its draw calls: every function of the program
    except the pushes and the draw of [frame] keeps them. *)
Section Quiet.
Context {X : Type} (f : State -> X).
Hypothesis f_dep : forall s s',
    trace s' = trace s -> batch_view s' = batch_view s -> f s' = f s.
Hypothesis f_emit : forall s e,
    is_draw_event e = false -> f (set_trace (trace s ++ [e]) s) = f s.

Lemma keeps_quiet_emit e : is_draw_event e = false -> keeps f (emit e).
  Proof. intros He s. by apply f_emit. Qed.

Lemma keeps_quiet_modify (g : State -> State) :
    (forall s, trace (g s) = trace s) -> (forall s, batch_view (g s) = batch_view s) ->
    keeps f (modify g).
  Proof. intros Ht Hb s. apply f_dep; [apply Ht | apply Hb]. Qed.

Ltac quiet :=
    repeat keeps_step ltac:(apply keeps_quiet_emit; reflexivity)
                      ltac:(apply keeps_quiet_modify; intros ?; reflexivity).

Lemma keeps_load p : keeps f (load p).
  Proof. unfold load. quiet. Qed.

Lemma keeps_store p v : keeps f (store p v).
  Proof. unfold store. quiet. Qed.
Hint Resolve keeps_load keeps_store : keeps.

Lemma keeps_compile_shader_source env src ty : keeps f (compile_shader_source env src ty).
  Proof. unfold compile_shader_source. quiet. Qed.
Hint Resolve keeps_compile_shader_source : keeps.

Lemma keeps_compile_shader_file env path ty sh : keeps f (compile_shader_file env path ty sh).
  Proof. unfold compile_shader_file. quiet. Qed.
Hint Resolve keeps_compile_shader_file : keeps.

Lemma keeps_link_program env v fr p : keeps f (link_program env v fr p).
  Proof. unfold link_program. quiet. Qed.
Hint Resolve keeps_link_program : keeps.

Lemma keeps_load_shader_program env vp fp p : keeps f (load_shader_program env vp fp p).
  Proof. unfold load_shader_program. quiet. Qed.
Hint Resolve keeps_load_shader_program : keeps.

Lemma keeps_renderer_sync : keeps f renderer_sync.
  Proof. unfold renderer_sync. quiet. Qed.

Lemma keeps_renderer_reload_textures env : keeps f (renderer_reload_textures env).
  Proof. unfold renderer_reload_textures. quiet. Qed.

Lemma keeps_resolve_uniform env u : keeps f (resolve_uniform env u).
  Proof. unfold resolve_uniform. quiet. Qed.
Hint Resolve keeps_resolve_uniform : keeps.

Lemma keeps_renderer_reload_shaders env : keeps f (renderer_reload_shaders env).
  Proof. unfold renderer_reload_shaders. quiet. Qed.

Lemma keeps_renderer_init env : keeps f (renderer_init env).
  Proof. unfold renderer_init. quiet. Qed.

Hint Resolve keeps_renderer_sync keeps_renderer_reload_textures
    keeps_renderer_reload_shaders keeps_renderer_init : keeps.

Lemma keeps_poke_render_conf i c : keeps f (poke_render_conf i c).
  Proof. unfold poke_render_conf. quiet. Qed.

Lemma keeps_the_render_conf : keeps f the_render_conf.
  Proof. unfold the_render_conf. quiet. Qed.
Hint Resolve keeps_poke_render_conf keeps_the_render_conf : keeps.

Lemma keeps_reload_render_conf_line path row content :
    keeps f (reload_render_conf_line path row content).
  Proof. unfold reload_render_conf_line. quiet. Qed.
Hint Resolve keeps_reload_render_conf_line : keeps.

Lemma keeps_reload_render_conf_loop fuel : forall path row content,
    keeps f (reload_render_conf_loop fuel path row content).
  Proof. induction fuel as [|fuel IH]; intros; cbn [reload_render_conf_loop]; quiet. Qed.
Hint Resolve keeps_reload_render_conf_loop : keeps.

Lemma keeps_reload_render_conf env path : keeps f (reload_render_conf env path).
  Proof. unfold reload_render_conf. quiet. Qed.
Hint Resolve keeps_reload_render_conf : keeps.

Lemma keeps_screenshot env : keeps f (screenshot env).
  Proof. unfold screenshot. quiet. Qed.
Hint Resolve keeps_screenshot : keeps.

Lemma keeps_key_callback env key action : keeps f (key_callback env key action).
  Proof. unfold key_callback. quiet. Qed.

Lemma keeps_window_size_callback w h : keeps f (window_size_callback w h).
  Proof. unfold window_size_callback. quiet. Qed.
Hint Resolve keeps_key_callback keeps_window_size_callback : keeps.

Lemma keeps_dispatch env inputs : keeps f (dispatch env inputs).
  Proof. induction inputs as [|[] inputs IH]; cbn [dispatch]; quiet. Qed.

End Quiet.

Lemma batch_view_dep (s s' : State) :
  trace s' = trace s -> batch_view s' = batch_view s -> batch_view s' = batch_view s.
Proof. intros _ H. exact H. Qed.

Lemma batch_view_emit (s : State) (e : Event) :
  is_draw_event e = false -> batch_view (set_trace (trace s ++ [e]) s) = batch_view s.
Proof. reflexivity. Qed.

Lemma draw_calls_snoc (tr : list Event) (e : Event) :
  draw_calls (tr ++ [e]) = draw_calls tr ++ (if is_draw_event e then [e] else []).
Proof.
  unfold draw_calls. rewrite filter_app. f_equal.
  destruct (is_draw_event e) eqn:E.
  - rewrite filter_cons_True by exact E. reflexivity.
  - rewrite filter_cons_False by (rewrite E; discriminate). reflexivity.
Qed.

Lemma draw_calls_dep (s s' : State) :
  trace s' = trace s -> batch_view s' = batch_view s ->
  draw_calls (trace s') = draw_calls (trace s).
Proof. intros -> _. reflexivity. Qed.

Lemma draw_calls_emit (s : State) (e : Event) :
  is_draw_event e = false ->
  draw_calls (trace (set_trace (trace s ++ [e]) s)) = draw_calls (trace s).
Proof.
  intros He. cbn [trace set_trace]. rewrite draw_calls_snoc, He. apply app_nil_r.
Qed.

(** Running the monad's primitives on a state at hand. *)
Ltac run :=
  cbv beta iota zeta delta
    [mbind M_bind bind mret M_ret ret get gets modify emit gl print exit abort
     modify_renderer on_renderer final].

Ltac run_state :=
  cbv beta iota zeta delta
    [mbind M_bind bind mret M_ret ret get gets modify emit gl print exit abort
     modify_renderer on_renderer load store ptr_as_bool];
  cbn [final negb
       time pause global_renderer render_conf vert_path frag_path texture_path trace
       set_time set_pause set_global_renderer set_render_conf set_vert_path set_frag_path
       set_texture_path set_trace
       vao vbo program_failed program uniforms vertex_buf vertex_buf_sz texture
       set_vertex_buf set_vertex_buf_sz set_program_failed set_program set_uniforms
       set_texture set_vao set_vbo deref fst snd].

Ltac case_if :=
  match goal with
  | |- context [if negb ?b then _ else _] => destruct b eqn:?
  | |- context [if ?b then _ else _] => destruct b eqn:?
  end.


(** * The batch invariant *)

Lemma batch_inv_view (s s' : State) : batch_view s' = batch_view s -> batch_inv s -> batch_inv s'.
Proof.
  unfold batch_view, batch_inv, batch_ok. intros [= Hb Hsz]. rewrite Hb, Hsz. done.
Qed.

Lemma push_all_batch_ok (vs : list Vertex) : forall r r' : Renderer,
  batch_ok r -> push_all r vs = Some r' -> batch_ok r'.
Proof.
  induction vs as [|v vs IH]; intros r r' Hok; cbn [push_all].
  - by intros [= <-].
  - destruct (decide (vertex_buf_sz r < VERTEX_BUF_CAP)%nat) as [Hlt|Hge].
    + destruct Hok as [Hlen Hsz].
      rewrite renderer_push_vertex_Some by done. cbn [mbind option_bind].
      apply IH. by apply batch_ok_pushed.
    + rewrite renderer_push_vertex_None by done. done.
Qed.

Lemma preserves_on_renderer (f : Renderer -> option Renderer) :
  (forall r r', batch_ok r -> f r = Some r' -> batch_ok r') ->
  preserves batch_inv (on_renderer f).
Proof.
  intros Hf s Hs. unfold on_renderer.
  destruct (f (global_renderer s)) as [r'|] eqn:E; cbn [final]; [|exact Hs].
  exact (Hf _ _ Hs E).
Qed.

Lemma preserves_push_vertex p t c :
  preserves batch_inv (on_renderer (fun r => renderer_push_vertex r p t c)).
Proof.
  apply preserves_on_renderer. intros r r' Hok E.
  apply (push_all_batch_ok [mkVertex p t c] r r' Hok).
  cbn [push_all pos uv color]. by rewrite E.
Qed.

Lemma preserves_push_quad p1 p2 c :
  preserves batch_inv (on_renderer (fun r => renderer_push_quad r p1 p2 c)).
Proof.
  apply preserves_on_renderer. intros r r' Hok. rewrite renderer_push_quad_push_all.
  by apply push_all_batch_ok.
Qed.

Lemma preserves_keeps_batch {A} (m : M A) : keeps batch_view m -> preserves batch_inv m.
Proof. apply keeps_preserves. exact batch_inv_view. Qed.

Create HintDb keeps_batch discriminated.

Lemma keeps_batch_renderer_sync  : keeps batch_view (renderer_sync ).
Proof. apply keeps_renderer_sync; first [exact batch_view_dep | exact batch_view_emit]. Qed.

Lemma keeps_batch_renderer_init env : keeps batch_view (renderer_init env).
Proof. apply keeps_renderer_init; first [exact batch_view_dep | exact batch_view_emit]. Qed.

Lemma keeps_batch_renderer_reload_textures env : keeps batch_view (renderer_reload_textures env).
Proof. apply keeps_renderer_reload_textures; first [exact batch_view_dep | exact batch_view_emit]. Qed.

Lemma keeps_batch_renderer_reload_shaders env : keeps batch_view (renderer_reload_shaders env).
Proof. apply keeps_renderer_reload_shaders; first [exact batch_view_dep | exact batch_view_emit]. Qed.

Lemma keeps_batch_reload_render_conf env path : keeps batch_view (reload_render_conf env path).
Proof. apply keeps_reload_render_conf; first [exact batch_view_dep | exact batch_view_emit]. Qed.

Lemma keeps_batch_key_callback env key action : keeps batch_view (key_callback env key action).
Proof. apply keeps_key_callback; first [exact batch_view_dep | exact batch_view_emit]. Qed.

Lemma keeps_batch_window_size_callback w h : keeps batch_view (window_size_callback w h).
Proof. apply keeps_window_size_callback; first [exact batch_view_dep | exact batch_view_emit]. Qed.

Lemma keeps_batch_dispatch env inputs : keeps batch_view (dispatch env inputs).
Proof. apply keeps_dispatch; first [exact batch_view_dep | exact batch_view_emit]. Qed.

#[local] Hint Resolve keeps_batch_renderer_sync keeps_batch_renderer_init keeps_batch_renderer_reload_textures keeps_batch_renderer_reload_shaders keeps_batch_reload_render_conf keeps_batch_key_callback keeps_batch_window_size_callback keeps_batch_dispatch : keeps_batch.

Ltac keeps_batch_tac :=
  repeat keeps_step ltac:(apply keeps_modify; intros ?; reflexivity)
                    ltac:(apply keeps_modify; intros ?; reflexivity).

Lemma keeps_batch_frame env prev : keeps batch_view (frame env prev).
Proof.
  unfold frame.
  repeat first [ solve [auto with keeps_batch]
               | keeps_step ltac:(apply keeps_modify; intros ?; reflexivity)
                            ltac:(apply keeps_modify; intros ?; reflexivity) ].
Qed.

Lemma preserves_main_startup env : preserves batch_inv (main_startup env).
Proof.
  unfold main_startup.
  repeat first
    [ apply preserves_push_quad
    | apply preserves_keeps_batch; solve [auto with keeps_batch | keeps_batch_tac]
    | apply preserves_bind; [|intros ?] ].
Qed.

Lemma preserves_run_op (o : Op) : preserves batch_inv (run_op o).
Proof.
  destruct o; cbn [run_op];
    first [ apply preserves_push_vertex | apply preserves_push_quad | idtac ].
  all: try (apply preserves_keeps_batch; auto with keeps_batch; fail).
  - apply preserves_keeps_batch, keeps_bind; [apply keeps_batch_frame | intros; apply keeps_ret].
  - apply preserves_bind; [apply preserves_main_startup | intros a s Hs; exact Hs].
Qed.

Lemma reachable_batch_inv (s : State) : reachable s -> batch_inv s.
Proof.
  unfold reachable. revert s. apply rtc_ind_r; [exact batch_ok_zero|].
  intros s1 s2 _ [o ->] IH. by apply preserves_run_op.
Qed.

(** C4: with room left ([length < capacity], the capacity being 8192)
    [renderer_push_vertex] appends exactly one vertex and the length stays
    within the capacity; at full capacity the assertion fails and the
    process is aborted, there is no error result to recover from; and in
    every state the program reaches the length of the batch is at most
    8192. *)
Theorem renderer_push_vertex_within_capacity :
  Z.of_nat VERTEX_BUF_CAP = 8192
  /\ (forall (r : Renderer) (p t : V2f) (c : V4f),
        batch_ok r -> (vertex_buf_sz r < VERTEX_BUF_CAP)%nat ->
        exists r', renderer_push_vertex r p t c = Some r'
                   /\ batch r' = batch r ++ [mkVertex p t c]
                   /\ vertex_buf_sz r' = (vertex_buf_sz r + 1)%nat
                   /\ (vertex_buf_sz r' <= VERTEX_BUF_CAP)%nat)
  /\ (forall (s : State) (p t : V2f) (c : V4f),
        vertex_buf_sz (global_renderer s) = VERTEX_BUF_CAP ->
        renderer_push_vertex (global_renderer s) p t c = None
        /\ on_renderer (fun r => renderer_push_vertex r p t c) s = Aborted s)
  /\ (forall s : State,
        reachable s ->
        Z.of_nat (vertex_buf_sz (global_renderer s)) <= 8192
        /\ Z.of_nat (length (batch (global_renderer s))) <= 8192).
Proof.
  split; [reflexivity|]. split; [|split].
  - intros r p t c Hok Hlt.
    destruct (push_vertex_batch r p t c Hok Hlt) as (r' & Hp & Hb & Hsz & Hok').
    exists r'. do 3 (split; [done|]). apply Hok'.
  - intros s p t c Hfull.
    assert (renderer_push_vertex (global_renderer s) p t c = None) as Hn
      by (apply renderer_push_vertex_None; lia).
    split; [exact Hn|]. unfold on_renderer. by rewrite Hn.
  - intros s Hs. pose proof (reachable_batch_inv s Hs) as Hok.
    rewrite (length_batch _ Hok). destruct Hok as [_ Hsz].
    change 8192 with (Z.of_nat VERTEX_BUF_CAP). lia.
Qed.

Lemma renderer_push_vertex_within_capacity_witness :
  exists r',
    renderer_push_vertex Renderer_zero (v2f f32_zero f32_zero) (v2f f32_zero f32_zero)
      (v4f f32_zero f32_zero f32_zero f32_zero) = Some r'
    /\ vertex_buf_sz r' = 1%nat.
Proof.
  destruct (proj1 (proj2 renderer_push_vertex_within_capacity) Renderer_zero
              (v2f f32_zero f32_zero) (v2f f32_zero f32_zero)
              (v4f f32_zero f32_zero f32_zero f32_zero) batch_ok_zero)
    as (r' & Hp & _ & Hsz & _).
  - unfold VERTEX_BUF_CAP. cbn [vertex_buf_sz Renderer_zero]. lia.
  - exists r'. split; [exact Hp | exact Hsz].
Defined.

(** * Synchronising the buffer *)

Lemma renderer_sync_run (s : State) :
  renderer_sync s =
    Ret tt (set_trace (trace s ++
              [GL (GlBufferSubData_ARRAY_BUFFER 0
                     (sizeof_Vertex * Z.of_nat (vertex_buf_sz (global_renderer s)))
                     (batch (global_renderer s)))]) s).
Proof. reflexivity. Qed.

(** C5: after any sequence of [renderer_push_vertex] calls that fits the
    capacity, [renderer_sync] uploads the first [length] vertices of the
    buffer and no more: the vertices that were in the batch followed by the
    pushed ones, in push order, [sizeof(Vertex)] bytes each. *)
Theorem renderer_sync_uploads_batch (s : State) (vs : list Vertex) :
  batch_ok (global_renderer s) ->
  (vertex_buf_sz (global_renderer s) + length vs <= VERTEX_BUF_CAP)%nat ->
  exists r',
    push_all (global_renderer s) vs = Some r'
    /\ vertex_buf_sz r' = (vertex_buf_sz (global_renderer s) + length vs)%nat
    /\ renderer_sync (set_global_renderer r' s) =
         Ret tt (set_trace (trace s ++
                   [GL (GlBufferSubData_ARRAY_BUFFER 0
                          (sizeof_Vertex * Z.of_nat (length (batch (global_renderer s) ++ vs)))
                          (batch (global_renderer s) ++ vs))])
                   (set_global_renderer r' s)).
Proof.
  intros Hok Hcap.
  destruct (push_all_batch vs (global_renderer s) Hok Hcap) as (r' & Hp & Hb & Hsz & Hok').
  exists r'. split; [exact Hp|]. split; [exact Hsz|].
  rewrite renderer_sync_run. cbn [global_renderer set_global_renderer trace].
  rewrite Hb, <- Hb, (length_batch _ Hok'). reflexivity.
Qed.

Lemma renderer_sync_uploads_batch_witness :
  exists r',
    push_all Renderer_zero [Vertex_zero; Vertex_zero] = Some r'
    /\ renderer_sync (set_global_renderer r' State_init) =
         Ret tt (set_trace [GL (GlBufferSubData_ARRAY_BUFFER 0 64 [Vertex_zero; Vertex_zero])]
                   (set_global_renderer r' State_init)).
Proof.
  destruct (renderer_sync_uploads_batch State_init [Vertex_zero; Vertex_zero] batch_ok_zero)
    as (r' & Hp & _ & Hs).
  - unfold VERTEX_BUF_CAP. cbn [vertex_buf_sz global_renderer State_init Renderer_zero length]. lia.
  - exists r'. split; [exact Hp | exact Hs].
Defined.

(** * Reloading the texture *)

(** C3: when the image cannot be decoded, [renderer_reload_textures] leaves
    the renderer and every other global as they were, and makes no GL call:
    it only reports the error.  When the image is decoded, the old texture
    is deleted, after [stbi_load] has returned the pixels, and a new one is
    generated, bound, configured and filled.  So a [glDeleteTextures] is
    issued only when the pixels have been loaded. *)
Theorem renderer_reload_textures_keeps_texture_on_failure (env : Env) (s : State) :
  let path := deref s (texture_path s) in
  (env_stbi_load env path = None ->
     renderer_reload_textures env s =
       Ret tt (set_trace (trace s ++ [Stbi_load path None;
                                      Printf (Err_could_not_load_image path)]) s))
  /\ (forall img, env_stbi_load env path = Some img ->
       let t := env_gl_name env (trace s ++ [Stbi_load path (Some img);
                                             GL (GlDeleteTextures (texture (global_renderer s)))]) in
       renderer_reload_textures env s =
         Ret tt (set_trace (trace s ++
                   [Stbi_load path (Some img);
                    GL (GlDeleteTextures (texture (global_renderer s)));
                    GL (GlGenTextures t);
                    GL (GlBindTexture_2D t);
                    GL (GlTexParameteri_2D GL_TEXTURE_MIN_FILTER GL_LINEAR);
                    GL (GlTexParameteri_2D GL_TEXTURE_MAG_FILTER GL_LINEAR);
                    GL (GlTexParameteri_2D GL_TEXTURE_WRAP_S GL_CLAMP_TO_BORDER);
                    GL (GlTexParameteri_2D GL_TEXTURE_WRAP_T GL_CLAMP_TO_BORDER);
                    GL (GlTexImage2D_RGBA (img_width img) (img_height img) (img_pixels img));
                    Stbi_image_free])
                   (set_global_renderer (set_texture t (global_renderer s)) s)))
  /\ (forall t, GL (GlDeleteTextures t) ∈ trace (final (renderer_reload_textures env s)) ->
       GL (GlDeleteTextures t) ∉ trace s ->
       is_Some (env_stbi_load env path)).
Proof.
  intros path. split; [|split].
  - intros Hnone. unfold renderer_reload_textures. run. fold path. rewrite Hnone.
    cbn [trace set_trace]. rewrite <- app_assoc. reflexivity.
  - intros img Hsome t. unfold renderer_reload_textures. run. fold path. rewrite Hsome.
    cbn [trace set_trace global_renderer set_global_renderer texture set_texture].
    rewrite <- !app_assoc. reflexivity.
  - intros t Hin Hnotin. destruct (env_stbi_load env path) as [img|] eqn:E; [by eexists|].
    exfalso. revert Hin. unfold renderer_reload_textures. run. fold path. rewrite E.
    cbn [trace set_trace]. rewrite <- app_assoc.
    rewrite !elem_of_app, !elem_of_cons, !elem_of_nil. intuition congruence.
Qed.

Lemma renderer_reload_textures_keeps_texture_on_failure_witness :
  texture (global_renderer
             (final (renderer_reload_textures (example_env example_files false true [] 0%float)
                       (final (main_startup (example_env example_files true true [] 0%float)
                                 State_init)))))
  = 23.
Proof.
  rewrite (proj1 (renderer_reload_textures_keeps_texture_on_failure
                    (example_env example_files false true [] 0%float)
                    (final (main_startup (example_env example_files true true [] 0%float)
                              State_init)))) by reflexivity.
  vm_compute. reflexivity.
Defined.

(** * Reloading the shaders *)

Lemma runs_bind {A B} (m : M A) (k : A -> M B) s a s1 e1 b s2 e2 :
  runs m s a s1 e1 -> runs (k a) s1 b s2 e2 -> runs (m ≫= k) s b s2 (e1 ++ e2).
Proof.
  intros [Hm Ht1] [Hk Ht2]. split.
  - unfold mbind, M_bind, bind. rewrite Hm. exact Hk.
  - rewrite Ht2, Ht1. symmetry. apply app_assoc.
Qed.

Lemma runs_since {A} (m : M A) s a s' evs :
  runs m s a s' evs -> final (m s) = s' /\ since s s' = evs.
Proof.
  intros [Hm Ht]. rewrite Hm. split; [reflexivity|].
  unfold since. rewrite Ht. apply drop_app_length.
Qed.

Lemma marks_app (l1 l2 : list Event) : marks (l1 ++ l2) = marks l1 ++ marks l2.
Proof. apply omap_app. Qed.

Lemma clear_color_app_Cleared (tr evs : list Event) (ms : list Mark) (c : V4f) :
  marks evs = ms ++ [Cleared c] -> clear_color (tr ++ evs) = Some c.
Proof.
  intros H. unfold clear_color. rewrite marks_app, H, !omap_app. cbn [omap].
  rewrite !app_assoc. apply last_snoc.
Qed.

Lemma clear_color_app_Cleared_then (tr evs : list Event) (ms ms' : list Mark) (c : V4f) :
  marks evs = ms ++ Cleared c :: ms' ->
  omap (fun m => match m with Cleared c => Some c | _ => None end) ms' = [] ->
  clear_color (tr ++ evs) = Some c.
Proof.
  intros H Hnone. unfold clear_color. rewrite marks_app, H.
  change (Cleared c :: ms') with ([Cleared c] ++ ms'). rewrite !omap_app, Hnone.
  cbn. rewrite !app_assoc. apply last_snoc.
Qed.

(** ** The steps of a reload, one by one *)

Lemma compile_shader_source_runs (env : Env) (src : cstring) (ty : GLenum) (s : State) :
  exists ok sh s' evs,
    runs (compile_shader_source env src ty) s (ok, sh) s' evs
    /\ only_trace s s'
    /\ marks evs = [Compiled ok].
Proof.
  unfold compile_shader_source, runs, only_trace. run_state.
  case_if; run_state; do 4 eexists; (split; [split; [reflexivity|]|split; [reflexivity|]]);
    cbn [trace set_trace]; rewrite <- ?app_assoc; cbn [app]; reflexivity.
Qed.

Lemma compile_shader_file_runs (env : Env) (path : option cstring) (ty : GLenum) (sh0 : GLuint)
    (s : State) :
  exists ok sh s' evs,
    runs (compile_shader_file env path ty sh0) s (ok, sh) s' evs
    /\ only_trace s s'
    /\ (marks evs = [Read_failed] /\ ok = false /\ env_file env path = None
        \/ marks evs = [Compiled ok] /\ is_Some (env_file env path)).
Proof.
  unfold compile_shader_file, slurp_file_into_malloced_cstr.
  destruct (env_file env path) as [content|] eqn:Hfile; cbn [mbind option_bind].
  - destruct (compile_shader_source_runs env (as_cstring (content ++ [NUL])) ty s)
      as (ok & sh & s1 & evs & [Hrun Htr] & Honly & Hmarks).
    unfold runs. cbv beta delta [mbind M_bind bind]. rewrite Hrun.
    destruct ok; run_state.
    + exists true, sh, s1, evs. split; [split; [reflexivity | exact Htr]|].
      split; [exact Honly|]. right. split; [exact Hmarks | by eexists].
    + exists false, sh. eexists. exists (evs ++ [Printf (Err_failed_to_compile_file path)]).
      split; [split; [reflexivity|]|split].
      * cbn [trace set_trace]. rewrite Htr, <- app_assoc. reflexivity.
      * unfold only_trace in *. cbn [trace set_trace]. rewrite Honly at 2. reflexivity.
      * right. rewrite marks_app, Hmarks. split; [reflexivity | by eexists].
  - unfold runs, only_trace. run_state. do 4 eexists.
    split; [split; [reflexivity|]|split; [reflexivity|]]; cbn [trace set_trace]; [reflexivity|].
    left. done.
Qed.

(** Whatever the linker says, [link_program] answers [true]. *)
Lemma link_program_runs (env : Env) (vert_shader frag_shader : GLuint) (s : State) :
  exists p linked s' evs,
    runs (link_program env vert_shader frag_shader Addr_renderer_program) s true s' evs
    /\ s' = set_trace (trace s') (set_global_renderer (set_program p (global_renderer s)) s)
    /\ marks evs = [Linked linked].
Proof.
  unfold link_program, runs. run_state.
  case_if; run_state; do 4 eexists; (split; [split; [reflexivity|]|split; [reflexivity|]]);
    cbn [trace set_trace]; rewrite <- ?app_assoc; cbn [app]; reflexivity.
Qed.

Ltac solve_elem := repeat first [apply list_elem_of_here | apply list_elem_of_further].

Lemma only_trace_trans (s s1 s2 : State) : only_trace s s1 -> only_trace s1 s2 -> only_trace s s2.
Proof. unfold only_trace. intros H1 H2. rewrite H2, H1 at 1. reflexivity. Qed.

Lemma load_shader_program_runs (env : Env) (vp fp : option cstring) (s : State) :
  exists ok s' evs,
    runs (load_shader_program env vp fp Addr_renderer_program) s ok s' evs
    /\ (ok = false /\ only_trace s s' /\ marks evs ∈ load_failures
        \/ ok = true
           /\ (exists p, s' = set_trace (trace s')
                                (set_global_renderer (set_program p (global_renderer s)) s))
           /\ exists linked, marks evs = load_success linked).
Proof.
  unfold load_shader_program.
  destruct (compile_shader_file_runs env vp GL_VERTEX_SHADER 0 s)
    as (ok1 & sh1 & s1 & e1 & [Hrun1 Htr1] & Honly1 & Hm1).
  unfold runs at 1. cbv beta delta [mbind M_bind bind]. rewrite Hrun1. cbv beta iota.
  destruct ok1; cbn [negb]; cycle 1.
  { exists false, s1, e1. split; [split; [reflexivity | exact Htr1]|]. left.
    split; [reflexivity|]. split; [exact Honly1|].
    destruct Hm1 as [(-> & _)|(-> & _)]; solve_elem. }
  destruct Hm1 as [(_ & [=] & _)|(Hm1 & _)].
  destruct (compile_shader_file_runs env fp GL_FRAGMENT_SHADER 0 s1)
    as (ok2 & sh2 & s2 & e2 & [Hrun2 Htr2] & Honly2 & Hm2).
  rewrite Hrun2. cbv beta iota.
  assert (trace s2 = trace s ++ e1 ++ e2) as Htr12
    by (rewrite Htr2, Htr1, <- app_assoc; reflexivity).
  pose proof (only_trace_trans _ _ _ Honly1 Honly2) as Honly12.
  destruct ok2; cbn [negb]; cycle 1.
  { exists false, s2, (e1 ++ e2). split; [split; [reflexivity | exact Htr12]|]. left.
    split; [reflexivity|]. split; [exact Honly12|].
    rewrite marks_app, Hm1.
    destruct Hm2 as [(-> & _)|(-> & _)]; solve_elem. }
  destruct Hm2 as [(_ & [=] & _)|(Hm2 & _)].
  destruct (link_program_runs env sh1 sh2 s2) as (p & linked & s3 & e3 & [Hrun3 Htr3] & Hs3 & Hm3).
  rewrite Hrun3. cbv beta iota. cbn [negb].
  exists true, s3, (e1 ++ e2 ++ e3). split; [split; [reflexivity|]|].
  { rewrite Htr3, Htr12, <- !app_assoc. reflexivity. }
  right. split; [reflexivity|]. split.
  - exists p. rewrite Hs3 at 1. rewrite Honly12. reflexivity.
  - exists linked. rewrite !marks_app, Hm1, Hm2, Hm3. reflexivity.
Qed.

(** The two ways a reload goes: it ends [Failed] under the red clear
    colour, having stopped at the first file or shader that failed; or it
    ends [Loaded] under the transparent black one, whatever the linker
    said. *)
Lemma renderer_reload_shaders_runs (env : Env) (s : State) :
  exists s' evs,
    runs (renderer_reload_shaders env) s tt s' evs
    /\ batch_view s' = batch_view s
    /\ (program_failed (global_renderer s') = true
        /\ (exists fl, fl ∈ load_failures
              /\ marks evs = Destroyed (program (global_renderer s)) :: Cleared red :: fl)
        \/ program_failed (global_renderer s') = false
           /\ exists linked,
                marks evs = Destroyed (program (global_renderer s)) :: Cleared red
                            :: load_success linked
                            ++ [Used; Resolved "resolution"; Resolved "time"; Resolved "mouse";
                                Cleared transparent_black]).
Proof.
  unfold renderer_reload_shaders, resolve_uniform, runs. run_state.
  match goal with
  | |- context [load_shader_program env ?vp ?fp ?ptr ?st] =>
      destruct (load_shader_program_runs env vp fp st) as (ok & s1 & e1 & [Hrun Htr] & Hcases);
      rewrite Hrun; set (s0 := st) in *
  end.
  assert (trace s0 = trace s ++ [GL (GlDeleteProgram (program (global_renderer s)));
                                 GL (GlClearColor (f32_of_Z 1) (f32_of_Z 0) (f32_of_Z 0) (f32_of_Z 1))])
    as Htr0 by (unfold s0; cbn [trace set_trace]; rewrite <- app_assoc; reflexivity).
  destruct Hcases as [(-> & Honly & Hfl)|(-> & [p Hs1] & [linked Hm])]; cbn [negb].
  - exists s1. eexists. split; [split; [reflexivity|]|].
    { rewrite Htr, Htr0, <- app_assoc. reflexivity. }
    rewrite Honly. split; [reflexivity|]. left. split; [reflexivity|].
    exists (marks e1). split; [exact Hfl | reflexivity].
  - run_state. eexists. eexists. split; [split; [reflexivity|]|].
    { cbn [trace set_trace]. rewrite Htr, Htr0, <- !app_assoc. reflexivity. }
    rewrite Hs1. split; [reflexivity|]. right. split; [reflexivity|].
    exists linked. cbn [app]. change (?a :: ?b :: e1 ++ ?l) with ([a; b] ++ e1 ++ l).
    rewrite !marks_app, Hm. reflexivity.
Qed.

(** ** The frame after a reload *)

Lemma keeps_draw_calls_dispatch env inputs :
  keeps (fun s => draw_calls (trace s)) (dispatch env inputs).
Proof. apply keeps_dispatch; first [exact draw_calls_dep | exact draw_calls_emit]. Qed.

(** A frame draws once when the program is loaded and not at all when it
    has failed, whatever input arrives during the frame. *)
Lemma frame_draw_calls (env : Env) (prev : double) (s : State) :
  draw_calls (trace (final (frame env prev s))) =
    draw_calls (trace s) ++
      (if program_failed (global_renderer s) then []
       else [GL (GlDrawArraysInstanced_TRIANGLES 0
                   (Z.of_nat (vertex_buf_sz (global_renderer s))) 1)]).
Proof.
  unfold frame. run_state.
  destruct (program_failed (global_renderer s)) eqn:Hpf; cbn [negb];
    destruct (env_window_size env) as [width height], (env_cursor_pos env) as [xpos ypos];
    run_state.
  all: match goal with
       | |- context [dispatch ?e ?i ?st] =>
           pose proof (keeps_draw_calls_dispatch e i st) as Hd;
           destruct (dispatch e i st) as [[] s2|c s2|s2]
       end; cbn [final] in Hd |- *; run_state.
  all: try (destruct (pause s2); run_state).
  all: rewrite Hd; cbn [trace set_trace]; rewrite !draw_calls_snoc; cbn [is_draw_event is_draw];
    rewrite ?app_nil_r, <- ?app_assoc; reflexivity.
Qed.

Ltac not_elem H :=
  repeat (apply elem_of_cons in H as [H|H]; [discriminate H|]); apply elem_of_nil in H; destruct H.

Ltac each_failure H :=
  unfold load_failures in H;
  repeat (apply elem_of_cons in H as [->|H]); [..|apply elem_of_nil in H; destruct H].

(** X22: a reload during which a file could not be read or a shader did
    not compile stops there, ends [Failed] under the red clear colour, and
    the next frame draws nothing. *)
Lemma renderer_reload_shaders_compile_failure (env : Env) (s : State) :
  let s' := final (renderer_reload_shaders env s) in
  Read_failed ∈ marks (since s s') \/ Compiled false ∈ marks (since s s') ->
  renderer_reload_shaders env s = Ret tt s'
  /\ program_failed (global_renderer s') = true
  /\ clear_color (trace s') = Some red
  /\ (exists fl, fl ∈ load_failures
        /\ marks (since s s') = Destroyed (program (global_renderer s)) :: Cleared red :: fl)
  /\ forall env' prev,
       draw_calls (trace (final (frame env' prev s'))) = draw_calls (trace s').
Proof.
  intros s'. subst s'.
  destruct (renderer_reload_shaders_runs env s) as (s' & evs & Hruns & _ & Hcases).
  destruct (runs_since _ _ _ _ _ Hruns) as [-> ->]. destruct Hruns as [Hrun Htr].
  intros Hfail.
  destruct Hcases as [(Hpf & fl & Hfl & Hm)|(Hpf & linked & Hm)].
  - split; [exact Hrun|]. split; [exact Hpf|]. split; [|split].
    + rewrite Htr. apply (clear_color_app_Cleared_then _ _ [Destroyed _] fl red Hm).
      each_failure Hfl; reflexivity.
    + exists fl. done.
    + intros env' prev. rewrite frame_draw_calls, Hpf. apply app_nil_r.
  - exfalso. rewrite Hm in Hfail. unfold load_success in Hfail. cbn [app] in Hfail.
    destruct Hfail as [H|H]; not_elem H.
Qed.

(** C1 at the reload whose link step fails: [link_program] returns its
    out-pointer, not the link status, so the reload goes on as after a
    successful link.  The uniforms are resolved, the state is [Loaded], the
    clear colour is transparent black, and the next frame draws. *)
Theorem renderer_reload_shaders_link_failure (env : Env) (s : State) :
  let s' := final (renderer_reload_shaders env s) in
  Linked false ∈ marks (since s s') ->
  renderer_reload_shaders env s = Ret tt s'
  /\ program_failed (global_renderer s') = false
  /\ clear_color (trace s') = Some transparent_black
  /\ marks (since s s') =
       [Destroyed (program (global_renderer s)); Cleared red;
        Compiled true; Compiled true; Linked false;
        Used; Resolved "resolution"; Resolved "time"; Resolved "mouse";
        Cleared transparent_black]
  /\ forall env' prev,
       draw_calls (trace (final (frame env' prev s'))) =
         draw_calls (trace s') ++
           [GL (GlDrawArraysInstanced_TRIANGLES 0
                  (Z.of_nat (vertex_buf_sz (global_renderer s))) 1)].
Proof.
  intros s'. subst s'.
  destruct (renderer_reload_shaders_runs env s) as (s' & evs & Hruns & Hbatch & Hcases).
  destruct (runs_since _ _ _ _ _ Hruns) as [-> ->]. destruct Hruns as [Hrun Htr].
  intros Hlink.
  destruct Hcases as [(Hpf & fl & Hfl & Hm)|(Hpf & linked & Hm)].
  - exfalso. rewrite Hm in Hlink. each_failure Hfl; not_elem Hlink.
  - assert (linked = false) as ->.
    { rewrite Hm in Hlink. unfold load_success in Hlink. cbn [app] in Hlink.
      destruct linked; [not_elem Hlink | reflexivity]. }
    split; [exact Hrun|]. split; [exact Hpf|]. split; [|split].
    + rewrite Htr. unfold load_success in Hm. cbn [app] in Hm.
      eapply (clear_color_app_Cleared _ _ [_; _; _; _; _; _; _; _; _]). exact Hm.
    + exact Hm.
    + intros env' prev. rewrite frame_draw_calls, Hpf.
      unfold batch_view in Hbatch. injection Hbatch as _ ->. reflexivity.
Qed.

Lemma renderer_reload_shaders_link_failure_witness :
  let env := example_env example_files true false [] 2%float in
  let s := final (reload_render_conf env "render.conf" State_init) in
  let s' := final (renderer_reload_shaders env s) in
  program_failed (global_renderer s') = false
  /\ clear_color (trace s') = Some transparent_black.
Proof.
  intros env s s'.
  destruct (renderer_reload_shaders_link_failure env s) as (_ & Hpf & Hcc & _).
  - vm_compute. solve_elem.
  - split; [exact Hpf | exact Hcc].
Defined.

(** * The clock *)

Ltac decide_keys :=
  repeat first [ rewrite decide_True by reflexivity | rewrite decide_False by discriminate ].

Lemma key_callback_not_press (env : Env) (key action : Z) (s : State) :
  action <> GLFW_PRESS -> key_callback env key action s = Ret tt s.
Proof. intros H. unfold key_callback. rewrite decide_False by exact H. reflexivity. Qed.

Lemma dispatch_idle (env : Env) (inputs : list Input) : forall s : State,
  Forall not_press inputs ->
  exists s', dispatch env inputs s = Ret tt s' /\ time s' = time s /\ pause s' = pause s.
Proof.
  induction inputs as [|i inputs IH]; intros s Hall; cbn [dispatch].
  - exists s. done.
  - apply Forall_cons in Hall as [Hi Hall]. destruct i as [key action|w h]; cbn [not_press] in Hi.
    + cbv beta delta [mbind M_bind bind]. rewrite key_callback_not_press by exact Hi.
      apply IH, Hall.
    + unfold window_size_callback. run_state.
      match goal with
      | |- context [dispatch env inputs ?st] =>
          destruct (IH st Hall) as (s' & -> & Ht & Hp)
      end.
      exists s'. done.
Qed.

(** What a frame without key presses does to the clock. *)
Lemma frame_clock (env : Env) (prev : double) (s : State) :
  idle env ->
  exists s',
    frame env prev s = Ret (env_glfwGetTime env) s'
    /\ pause s' = pause s
    /\ time s' = if pause s then time s
                 else (time s + (env_glfwGetTime env - prev))%float.
Proof.
  intros Hidle. unfold frame. run_state.
  destruct (program_failed (global_renderer s)); cbn [negb];
    destruct (env_window_size env) as [width height], (env_cursor_pos env) as [xpos ypos];
    run_state.
  all: match goal with
       | |- context [dispatch ?e ?i ?st] =>
           destruct (dispatch_idle e i st Hidle) as (s1 & -> & Ht & Hp)
       end; cbn [time pause set_trace] in Ht, Hp; rewrite Hp.
  all: destruct (pause s); run_state; eexists; (split; [reflexivity|]); cbn [pause time set_time];
    rewrite ?Ht; done.
Qed.


(** ** Frames in which step commands arrive *)








Lemma bind_Ret_inv {A B} (m : M A) (k : A -> M B) (s s' : State) (b : B) :
  (m ≫= k) s = Ret b s' -> exists a s1, m s = Ret a s1 /\ k a s1 = Ret b s'.
Proof.
  unfold mbind, M_bind, bind. destruct (m s) as [a s1| |]; [|discriminate..].
  intros H. exists a, s1. done.
Qed.

(** [main] enters its loop with the clock at [glfwGetTime()] and with
    [prev_time] at zero. *)
Lemma main_startup_clock (env : Env) (s s0 : State) (prev : double) :
  main_startup env s = Ret prev s0 ->
  prev = 0%float /\ time s0 = env_glfwGetTime env.
Proof.
  unfold main_startup. intros H.
  repeat (apply bind_Ret_inv in H as (? & ? & ? & H)).
  injection H as <- <-.
  match goal with Hm : modify _ _ = Ret _ _ |- _ => injection Hm as _ <- end.
  done.
Qed.

(** C9 at the first frame: the clock starts at [glfwGetTime()], but
    [prev_time] starts at zero, so the first frame without pause adds the
    whole of [glfwGetTime()] to the clock, not the time elapsed since the
    clock was set. *)
Theorem first_frame_adds_time_since_zero (env0 env1 : Env) (s s0 : State) (prev : double) :
  main_startup env0 s = Ret prev s0 ->
  pause s0 = false ->
  idle env1 ->
  time s0 = env_glfwGetTime env0
  /\ exists s1,
       main_loop [env1] prev s0 = Ret tt s1
       /\ time s1 = (env_glfwGetTime env0 + (env_glfwGetTime env1 - 0))%float.
Proof.
  intros Hstart Hpause Hidle.
  destruct (main_startup_clock env0 s s0 prev Hstart) as [-> Ht0].
  split; [exact Ht0|].
  destruct (frame_clock env1 0%float s0 Hidle) as (s1 & Hrun & _ & Ht1).
  exists s1. cbn [main_loop]. cbv beta delta [mbind M_bind bind]. rewrite Hrun.
  split; [reflexivity|]. rewrite Ht1, Hpause, Ht0. reflexivity.
Qed.

Lemma first_frame_adds_time_since_zero_witness :
  time (final (main (example_env example_files true true [] 2%float)
                 [example_env example_files true true [] 2.5%float] State_init))
  = 4.5%float.
Proof.
  set (env0 := example_env example_files true true [] 2%float).
  set (env1 := example_env example_files true true [] 2.5%float).
  assert (match main_startup env0 State_init with
          | Ret _ s0 => pause s0 = false
          | _ => False
          end) as Hret by (vm_compute; reflexivity).
  unfold main. cbv beta delta [mbind M_bind bind].
  destruct (main_startup env0 State_init) as [prev s0| |] eqn:Hstart; [|destruct Hret..].
  destruct (first_frame_adds_time_since_zero env0 env1 State_init s0 prev Hstart Hret)
    as (_ & s1 & Hloop & Ht1).
  - constructor.
  - rewrite Hloop. cbv beta iota delta [mret M_ret ret final]. rewrite Ht1. reflexivity.
Defined.

(** X23: a later frame without pause adds the time elapsed since the
    frame before it. *)
Lemma later_frames_add_elapsed_time (env1 env2 : Env) (prev : double) (s : State) :
  pause s = false -> idle env1 -> idle env2 ->
  exists s1 s2,
    frame env1 prev s = Ret (env_glfwGetTime env1) s1
    /\ main_loop [env1; env2] prev s = Ret tt s2
    /\ time s2 = (time s1 + (env_glfwGetTime env2 - env_glfwGetTime env1))%float.
Proof.
  intros Hp H1 H2.
  destruct (frame_clock env1 prev s H1) as (s1 & Hrun1 & Hp1 & _).
  destruct (frame_clock env2 (env_glfwGetTime env1) s1 H2) as (s2 & Hrun2 & _ & Ht2).
  exists s1, s2. split; [exact Hrun1|].
  cbn [main_loop]. cbv beta delta [mbind M_bind bind]. rewrite Hrun1, Hrun2.
  split; [reflexivity|]. rewrite Ht2, Hp1, Hp. reflexivity.
Qed.

(** * The configuration file *)

(** ** Lists: lines, trimming, cutting at a delimiter *)

Lemma before_after (d : ascii) (l : list ascii) :
  d ∈ l -> l = before d l ++ d :: after d l.
Proof.
  induction l as [|c l IH]; intros Hin; [inversion Hin|].
  cbn [before after]. destruct (decide (c = d)) as [->|Hne]; [reflexivity|].
  apply elem_of_cons in Hin as [Heq|Hin]; [congruence|]. cbn [app]. f_equal. by apply IH.
Qed.

Lemma before_notin (d : ascii) (l : list ascii) : d ∉ l -> before d l = l /\ after d l = [].
Proof.
  induction l as [|c l IH]; intros Hnot; [done|].
  apply not_elem_of_cons in Hnot as [Hne Hnot]. cbn [before after].
  rewrite !decide_False by congruence. destruct (IH Hnot) as [H1 H2]. rewrite H1, H2. done.
Qed.

Lemma length_before_after (d : ascii) (l : list ascii) :
  (length (before d l) + (if decide (d ∈ l) then 1 else 0) + length (after d l) = length l)%nat.
Proof.
  destruct (decide (d ∈ l)) as [Hin|Hnot].
  - pose proof (f_equal length (before_after d l Hin)) as H.
    rewrite length_app in H. cbn [length] in H. lia.
  - destruct (before_notin d l Hnot) as [-> ->]. cbn [length]. lia.
Qed.

Lemma before_sublist (d c : ascii) (l : list ascii) : c ∈ before d l -> c ∈ l.
Proof.
  induction l as [|x l IH]; cbn [before]; [done|].
  destruct (decide (x = d)); [by intros ?%elem_of_nil|].
  intros [->|H]%elem_of_cons; [apply list_elem_of_here | apply list_elem_of_further, IH, H].
Qed.

Lemma after_sublist (d c : ascii) (l : list ascii) : c ∈ after d l -> c ∈ l.
Proof.
  induction l as [|x l IH]; cbn [after]; [done|].
  destruct (decide (x = d)); intros H; apply list_elem_of_further; [exact H | by apply IH].
Qed.

Lemma conf_lines_step (l : list ascii) :
  l <> [] -> conf_lines l = before newline l :: conf_lines (after newline l).
Proof.
  induction l as [|c l IH]; [done|]. intros _. cbn [conf_lines before after].
  destruct (decide (c = newline)); [reflexivity|].
  destruct l as [|c' l]; [reflexivity|]. rewrite IH by done. reflexivity.
Qed.

Lemma trim_left_suffix (l : list ascii) :
  exists sp, l = sp ++ trim_left l /\ (length sp = length l - length (trim_left l))%nat.
Proof.
  induction l as [|c l (sp & IH & Hlen)]; [by exists []|]. cbn [trim_left].
  destruct (isspace c).
  - exists (c :: sp). cbn [app length]. split; [by f_equal|].
    apply (f_equal length) in IH. rewrite length_app in IH. lia.
  - exists []. cbn [app length]. split; [done | lia].
Qed.

Lemma length_trim_left (l : list ascii) : (length (trim_left l) <= length l)%nat.
Proof.
  destruct (trim_left_suffix l) as (sp & H & _).
  apply (f_equal length) in H. rewrite length_app in H. lia.
Qed.

Lemma trim_left_head (l : list ascii) (c : ascii) (l' : list ascii) :
  trim_left l = c :: l' -> isspace c = false.
Proof.
  induction l as [|x l IH]; cbn [trim_left]; [done|].
  destruct (isspace x) eqn:E; [exact IH|]. by intros [= <- _].
Qed.

Lemma trim_left_nonspace (c : ascii) (l : list ascii) :
  isspace c = false -> trim_left (c :: l) = c :: l.
Proof. intros H. cbn [trim_left]. by rewrite H. Qed.

Lemma trim_right_snoc (l : list ascii) (x : ascii) :
  trim_right (l ++ [x]) = if isspace x then trim_right l else l ++ [x].
Proof.
  unfold trim_right. rewrite reverse_snoc. cbn [trim_left].
  destruct (isspace x); [reflexivity|]. by rewrite reverse_cons, reverse_involutive.
Qed.

Lemma length_trim_right (l : list ascii) : (length (trim_right l) <= length l)%nat.
Proof.
  unfold trim_right. rewrite length_reverse.
  etrans; [apply length_trim_left|]. by rewrite length_reverse.
Qed.

Lemma trim_right_prefix (l : list ascii) : exists sp, l = trim_right l ++ sp.
Proof.
  unfold trim_right. destruct (trim_left_suffix (reverse l)) as (sp & H & _).
  exists (reverse sp). rewrite <- reverse_app, <- H. by rewrite reverse_involutive.
Qed.

(** ** Views: the loops of [sv.h] on a buffer [pre ++ l ++ post] *)

Lemma char_at_middle (pre post : list ascii) (c : ascii) :
  char_at (pre ++ c :: post) (length pre) = c.
Proof. unfold char_at. by rewrite list_lookup_middle. Qed.

Lemma index_of_delim_spec (d : ascii) (l : list ascii) : forall pre post : list ascii,
  index_of_delim (pre ++ l ++ post) d (length pre) (length l) = length (before d l).
Proof.
  induction l as [|c l IH]; intros pre post; [reflexivity|].
  cbn [length index_of_delim before app]. rewrite char_at_middle.
  destruct (decide (c = d)); [reflexivity|]. cbn [length]. f_equal.
  specialize (IH (pre ++ [c]) post). rewrite length_app, <- app_assoc in IH.
  cbn [length app] in IH. rewrite Nat.add_1_r in IH. exact IH.
Qed.

Lemma leading_spaces_spec (l : list ascii) : forall pre post : list ascii,
  leading_spaces (pre ++ l ++ post) (length pre) (length l)
  = (length l - length (trim_left l))%nat.
Proof.
  induction l as [|c l IH]; intros pre post; [reflexivity|].
  cbn [length leading_spaces trim_left app]. rewrite char_at_middle.
  destruct (isspace c); [|cbn [length]; lia].
  specialize (IH (pre ++ [c]) post). rewrite length_app, <- app_assoc in IH.
  cbn [length app] in IH. rewrite Nat.add_1_r in IH. rewrite IH.
  pose proof (length_trim_left l). lia.
Qed.

Lemma trailing_spaces_spec (pre : list ascii) (l : list ascii) : forall post : list ascii,
  trailing_spaces (pre ++ l ++ post) (length pre) (length l)
  = (length l - length (trim_right l))%nat.
Proof.
  induction l as [|x l IH] using rev_ind; intros post; [reflexivity|].
  rewrite length_app. cbn [length]. rewrite Nat.add_1_r. cbn [trailing_spaces].
  rewrite trim_right_snoc.
  replace (pre ++ (l ++ [x]) ++ post) with (pre ++ l ++ x :: post)
    by (by rewrite <- (app_assoc l)).
  assert (char_at (pre ++ l ++ x :: post) (length pre + length l) = x) as ->.
  { rewrite app_assoc, <- length_app. apply char_at_middle. }
  destruct (isspace x).
  - rewrite IH. pose proof (length_trim_right l). lia.
  - rewrite length_app. cbn [length]. lia.
Qed.

(** ** Views and the bytes they show *)

Lemma shows_bytes (buf : list ascii) (sv : String_View) (l : list ascii) :
  shows buf sv l -> sv_bytes buf sv = l.
Proof.
  intros (pre & post & -> & Hd & Hc). unfold sv_bytes. rewrite Hd, Hc.
  rewrite drop_app_length. apply take_app_length.
Qed.

Lemma shows_bounds (buf : list ascii) (sv : String_View) (l : list ascii) :
  shows buf sv l -> (data sv + count sv <= length buf)%nat.
Proof. intros (pre & post & -> & -> & ->). rewrite !length_app. lia. Qed.

Lemma shows_sub (buf : list ascii) (sv : String_View) (a b c : list ascii) :
  shows buf sv (a ++ b ++ c) -> shows buf (mkSV (length b) (data sv + length a)) b.
Proof.
  intros (pre & post & -> & Hd & Hc). exists (pre ++ a), (c ++ post).
  cbn [data count]. rewrite Hd, length_app, <- !app_assoc. done.
Qed.

Lemma shows_part (buf : list ascii) (sv : String_View) (l a b c : list ascii) :
  shows buf sv l -> l = a ++ b ++ c -> shows buf (mkSV (length b) (data sv + length a)) b.
Proof. intros Hs ->. by eapply shows_sub. Qed.

Lemma shows_chop (buf : list ascii) (sv : String_View) (l : list ascii) (d : ascii) :
  shows buf sv l ->
  sv_chop_by_delim buf sv d =
    (mkSV (length (before d l)) (data sv),
     mkSV (length (after d l))
          (data sv + length (before d l) + (if decide (d ∈ l) then 1 else 0)))
  /\ shows buf (mkSV (length (before d l)) (data sv)) (before d l)
  /\ shows buf (mkSV (length (after d l))
                     (data sv + length (before d l) + (if decide (d ∈ l) then 1 else 0)))
           (after d l).
Proof.
  intros Hs. pose proof Hs as (pre & post & -> & Hd & Hc).
  pose proof (length_before_after d l) as Hlen.
  split; [|split].
  - unfold sv_chop_by_delim, sv_from_parts. rewrite Hd, Hc, index_of_delim_spec.
    destruct (decide (d ∈ l)) as [Hin|Hnot]; simpl in Hlen.
    + destruct (decide (length (before d l) < length l)%nat); [|exfalso; lia]. do 2 f_equal; lia.
    + destruct (decide (length (before d l) < length l)%nat); [exfalso|].
      { destruct (before_notin d l Hnot) as [Hb _]. rewrite Hb in *. lia. }
      destruct (before_notin d l Hnot) as [-> ->]. cbn [length]. do 2 f_equal; lia.
  - destruct (decide (d ∈ l)) as [Hin|Hnot].
    + rewrite <- (Nat.add_0_r (data sv)).
      apply (shows_part _ sv l [] (before d l) (d :: after d l) Hs). by apply before_after.
    + destruct (before_notin d l Hnot) as [-> _].
      exists pre, post. done.
  - destruct (decide (d ∈ l)) as [Hin|Hnot].
    + rewrite <- Nat.add_assoc.
      replace (length (before d l) + 1)%nat with (length (before d l ++ [d]))
        by (rewrite length_app; reflexivity).
      apply (shows_part _ sv l (before d l ++ [d]) (after d l) [] Hs).
      rewrite app_nil_r, <- app_assoc. by apply before_after.
    + destruct (before_notin d l Hnot) as [-> ->]. rewrite Nat.add_0_r.
      apply (shows_part _ sv l l [] [] Hs). by rewrite app_nil_r.
Qed.

Lemma shows_trim_left (buf : list ascii) (sv : String_View) (l : list ascii) :
  shows buf sv l ->
  sv_trim_left buf sv = mkSV (length (trim_left l)) (data sv + (length l - length (trim_left l)))
  /\ shows buf (mkSV (length (trim_left l)) (data sv + (length l - length (trim_left l))))
           (trim_left l).
Proof.
  intros Hs. pose proof Hs as (pre & post & -> & Hd & Hc).
  pose proof (length_trim_left l) as Hle. split.
  - unfold sv_trim_left, sv_from_parts. rewrite Hd, Hc, leading_spaces_spec. f_equal. lia.
  - destruct (trim_left_suffix l) as (sp & Hl & Hsp). rewrite <- Hsp.
    apply (shows_part _ sv l sp (trim_left l) [] Hs). by rewrite app_nil_r.
Qed.

Lemma shows_trim_right (buf : list ascii) (sv : String_View) (l : list ascii) :
  shows buf sv l ->
  sv_trim_right buf sv = mkSV (length (trim_right l)) (data sv)
  /\ shows buf (mkSV (length (trim_right l)) (data sv)) (trim_right l).
Proof.
  intros Hs. pose proof Hs as (pre & post & -> & Hd & Hc).
  pose proof (length_trim_right l) as Hle. split.
  - unfold sv_trim_right, sv_from_parts. rewrite Hd, Hc, trailing_spaces_spec. f_equal. lia.
  - destruct (trim_right_prefix l) as (sp & Hl).
    rewrite <- (Nat.add_0_r (data sv)).
    apply (shows_part _ sv l [] (trim_right l) sp Hs). exact Hl.
Qed.

Lemma shows_trim (buf : list ascii) (sv : String_View) (l : list ascii) :
  shows buf sv l ->
  sv_trim buf sv = mkSV (length (trim l)) (data sv + (length l - length (trim_left l)))
  /\ shows buf (mkSV (length (trim l)) (data sv + (length l - length (trim_left l)))) (trim l).
Proof.
  intros Hs. destruct (shows_trim_left buf sv l Hs) as [Heq Hs1].
  destruct (shows_trim_right buf _ _ Hs1) as [Heq2 Hs2].
  unfold sv_trim, trim. rewrite Heq, Heq2. done.
Qed.

Lemma shows_head (buf : list ascii) (sv : String_View) (c : ascii) (l : list ascii) :
  shows buf sv (c :: l) -> char_at buf (data sv) = c.
Proof. intros (pre & post & -> & -> & _). apply char_at_middle. Qed.

(** A write outside a view leaves it as it is. *)
Lemma shows_insert (buf : list ascii) (sv : String_View) (l : list ascii) (i : nat) (c : ascii) :
  shows buf sv l -> (i < data sv \/ data sv + count sv <= i)%nat ->
  shows (<[i := c]> buf) sv l.
Proof.
  intros (pre & post & -> & Hd & Hc) Hi. destruct Hi as [Hi|Hi].
  - exists (<[i := c]> pre), post. rewrite length_insert. split; [|done].
    rewrite insert_app_l by lia. done.
  - exists pre, (<[(i - length pre - length l)%nat := c]> post). split; [|done].
    rewrite insert_app_r_alt by lia. rewrite insert_app_r_alt by lia. done.
Qed.

(** ** C strings in the buffer *)

Lemma strlen_app_NUL (v post : list ascii) : NUL ∉ v -> strlen (v ++ NUL :: post) = length v.
Proof.
  induction v as [|c v IH]; intros Hnot; cbn [strlen app length].
  - by rewrite decide_True.
  - apply not_elem_of_cons in Hnot as [Hne Hnot]. rewrite decide_False by congruence.
    by rewrite IH.
Qed.

Lemma cstr_at_middle (pre v post : list ascii) :
  NUL ∉ v -> cstr_at (pre ++ v ++ NUL :: post) (length pre) = v.
Proof.
  intros Hnot. unfold cstr_at. rewrite drop_app_length, strlen_app_NUL by done.
  apply take_app_length.
Qed.

Lemma strlen_le (l : list ascii) : (strlen l <= length l)%nat.
Proof. induction l as [|c l IH]; cbn [strlen length]; [lia|]. destruct (decide (c = NUL)); lia. Qed.

Lemma strlen_insert (l : list ascii) : forall (i : nat) (c : ascii),
  (strlen l < i)%nat ->
  strlen (<[i := c]> l) = strlen l /\ take (strlen l) (<[i := c]> l) = take (strlen l) l.
Proof.
  induction l as [|x l IH]; intros i c Hi; [done|].
  destruct i as [|i]; [lia|]. cbn [strlen] in *.
  change (<[S i := c]> (x :: l)) with (x :: <[i := c]> l). cbn [strlen].
  destruct (decide (x = NUL)); [done|].
  destruct (IH i c) as [-> Ht]; [lia|]. cbn [take]. by rewrite Ht.
Qed.

(** A write behind the end of a string leaves the string as it is. *)
Lemma cstr_at_insert (buf : list ascii) (q i : nat) (c : ascii) :
  (q + strlen (drop q buf) < i)%nat ->
  strlen (drop q (<[i := c]> buf)) = strlen (drop q buf)
  /\ cstr_at (<[i := c]> buf) q = cstr_at buf q.
Proof.
  intros Hi. unfold cstr_at. rewrite drop_insert_ge by lia.
  destruct (strlen_insert (drop q buf) (i - q) c) as [-> ->]; [lia|]. done.
Qed.

Lemma insert_middle (pre post : list ascii) (t c : ascii) :
  <[length pre := c]> (pre ++ t :: post) = pre ++ c :: post.
Proof. rewrite insert_app_r_alt by lia. by rewrite Nat.sub_diag. Qed.

(** The write that ends a value makes it a C string. *)
Lemma cstr_at_poke (buf : list ascii) (sv : String_View) (v : list ascii) :
  shows buf sv v -> NUL ∉ v -> (data sv + count sv < length buf)%nat ->
  strlen (drop (data sv) (<[(data sv + count sv)%nat := NUL]> buf)) = length v
  /\ cstr_at (<[(data sv + count sv)%nat := NUL]> buf) (data sv) = v.
Proof.
  intros (pre & post & -> & -> & ->) Hnot Hlt.
  rewrite !length_app in Hlt. destruct post as [|t post]; [cbn [length] in Hlt; lia|].
  rewrite app_assoc, <- length_app, insert_middle, <- app_assoc.
  split; [|by apply cstr_at_middle].
  rewrite drop_app_length. by apply strlen_app_NUL.
Qed.

(** ** One line of the file *)

Lemma before_head_nonspace (d c : ascii) (l : list ascii) :
  isspace c = false -> trim_left (before d (c :: l)) = before d (c :: l).
Proof.
  intros Hc. cbn [before]. destruct (decide (c = d)); [reflexivity|].
  by apply trim_left_nonspace.
Qed.

Lemma reload_render_conf_line_run (path : string) (row : Z) (content : String_View)
    (s : State) (buf rest : list ascii) :
  render_conf s = Some buf ->
  shows buf content rest ->
  NUL ∉ rest ->
  (data content + count content < length buf)%nat ->
  reload_render_conf_line path row content s =
    Ret (mkSV (length (after newline rest))
              (data content + length (before newline rest)
               + (if decide (newline ∈ rest) then 1 else 0)))
        (match conf_line trim_left (before newline rest) with
         | Skipped => s
         | Entry col key value =>
             store_entry path row (Entry col key value)
               (data content + length (before newline rest) - length value)
               (set_render_conf
                  (Some (<[(data content + length (before newline rest))%nat := NUL]> buf)) s)
         end).
Proof.
  intros Hconf Hs Hnul Hlt.
  set (l1 := before newline rest).
  destruct (shows_chop buf content rest newline Hs) as (Hchop & Hline & Hcontent1).
  fold l1 in Hchop, Hline, Hcontent1.
  destruct (shows_trim_left buf _ l1 Hline) as (Htl & Hline2).
  cbn [data count] in Htl, Hline2.
  pose proof (length_trim_left l1) as Hle2.
  pose proof (length_before_after newline rest) as Hlen1. fold l1 in Hlen1.
  assert (count content = length rest) as Hcount by (by destruct Hs as (? & ? & _ & _ & ?)).
  unfold reload_render_conf_line, the_render_conf. run_state. rewrite Hconf. run_state.
  rewrite Hchop. cbn [data count]. rewrite Htl. cbn [data count].
  unfold conf_line. fold l1.
  destruct (trim_left l1) as [|c l2'] eqn:Hl2; [reflexivity|].
  pose proof (shows_head _ _ _ _ Hline2) as Hhead. cbn [data] in Hhead. rewrite Hhead.
  change (0 <? length (c :: l2'))%nat with true. cbn [andb].
  case_bool_decide as Hhash; cbn [negb];
    (destruct (decide (c = "#"%char)) as [Hh|Hh]; [try contradiction|try contradiction]);
    [reflexivity|].
  pose proof (trim_left_head _ _ _ Hl2) as Hc.
  set (l2 := c :: l2') in *.
  set (p2 := (data content + (length l1 - length l2))%nat) in *.
  destruct (shows_chop buf _ l2 "="%char Hline2) as (Hchop2 & Hk & Hline3).
  cbn [data count] in Hchop2, Hk, Hline3.
  set (kb := before "="%char l2) in *. set (a := after "="%char l2) in *.
  pose proof (length_before_after "="%char l2) as Hlen2. fold kb a in Hlen2.
  change (length (c :: l2')) with (length l2) in Hchop2.
  rewrite Hchop2.
  destruct (shows_trim buf _ kb Hk) as (Hkey & Hkeys).
  cbn [data count] in Hkey, Hkeys.
  assert (trim_left kb = kb) as Hkb by (apply before_head_nonspace, Hc).
  rewrite Hkb, Nat.sub_diag, Nat.add_0_r in Hkey, Hkeys.
  rewrite Hkey.
  destruct (shows_trim_left buf _ a Hline3) as (Hval & Hvals).
  cbn [data count] in Hval, Hvals.
  pose proof (length_trim_left a) as Hlev.
  rewrite Hval. cbn [data count].
  set (v := trim_left a) in *.
  set (e := (data content + length l1)%nat).
  assert (p2 + length kb + (if decide ("="%char ∈ l2) then 1 else 0)
          + (length a - length v) + length v = e)%nat as He.
  { unfold e, p2. change (length l2) with (S (length l2')) in *. cbn [length] in *. lia. }
  rewrite He.
  assert (e <= data content + count content)%nat as Hebound by (unfold e; lia).
  unfold poke_render_conf. run_state. rewrite Hconf.
  destruct (decide (e < length buf)%nat) as [_|Hge]; [|exfalso; lia]. run_state.
  assert (NUL ∉ v) as Hvnul.
  { intros Hin. apply Hnul. apply (before_sublist newline). fold l1.
    destruct (trim_left_suffix l1) as (sp & -> & _). rewrite Hl2. fold l2.
    apply elem_of_app. right. apply (after_sublist "="%char). fold a.
    destruct (trim_left_suffix a) as (sp' & -> & _). apply elem_of_app. by right. }
  assert (data {| count := length v;
                  data := p2 + length kb + (if decide ("="%char ∈ l2) then 1 else 0)
                          + (length a - length v) |}
          + count {| count := length v;
                     data := p2 + length kb + (if decide ("="%char ∈ l2) then 1 else 0)
                             + (length a - length v) |} = e)%nat as He' by exact He.
  destruct (cstr_at_poke buf _ v Hvals Hvnul) as [_ Hcstr]; [rewrite He'; lia|].
  rewrite He' in Hcstr. cbn [data] in Hcstr.
  assert (sv_bytes (<[e := NUL]> buf) {| count := length (trim kb); data := p2 |} = trim kb)
    as Hkeyb.
  { apply shows_bytes, shows_insert; [exact Hkeys|]. right. cbn [data count].
    unfold trim. rewrite Hkb. pose proof (length_trim_right kb). lia. }
  rewrite Hkeyb, Hcstr.
  assert (p2 + length kb + (if decide ("="%char ∈ l2) then 1 else 0) + (length a - length v)
          = e - length v)%nat as -> by lia.
  assert (Z.of_nat p2 - Z.of_nat (data content) = Z.of_nat (length l1 - length l2)) as ->
    by (unfold p2; lia).
  unfold store_entry, sv_eq.
  destruct (decide (trim kb = cstr "vert")) as [Hk1|Hk1];
    [rewrite (bool_decide_eq_true_2 _ Hk1); reflexivity
    |rewrite (bool_decide_eq_false_2 _ Hk1)].
  destruct (decide (trim kb = cstr "frag")) as [Hk2|Hk2];
    [rewrite (bool_decide_eq_true_2 _ Hk2); reflexivity
    |rewrite (bool_decide_eq_false_2 _ Hk2)].
  destruct (decide (trim kb = cstr "texture")) as [Hk3|Hk3];
    [rewrite (bool_decide_eq_true_2 _ Hk3); reflexivity
    |rewrite (bool_decide_eq_false_2 _ Hk3)].
  reflexivity.
Qed.

(** ** What a line leaves behind *)

Lemma conf_line_value_suffix (l : list ascii) (col : nat) (key value : list ascii) :
  conf_line trim_left l = Entry col key value -> exists x, l = x ++ value.
Proof.
  unfold conf_line. destruct (trim_left_suffix l) as (sp & Hl & _).
  destruct (trim_left l) as [|c l2'] eqn:Hl2; [done|].
  remember (c :: l2') as l2 eqn:El2. clear El2.
  destruct (decide (c = "#"%char)); [done|]. intros [= _ _ <-].
  destruct (trim_left_suffix (after "="%char l2)) as (sp' & Ha & _).
  destruct (decide ("="%char ∈ l2)) as [Hin|Hnot].
  - exists (sp ++ before "="%char l2 ++ "="%char :: sp').
    rewrite Hl. rewrite <- !app_assoc. f_equal. cbn [app]. rewrite <- Ha.
    by apply before_after.
  - destruct (before_notin _ _ Hnot) as [_ Hafter]. rewrite Hafter. cbn [trim_left].
    exists l. by rewrite app_nil_r.
Qed.

Lemma ends_before_mono (buf : list ascii) (p p' : nat) (ptr : char_ptr) :
  (p <= p')%nat -> ends_before buf p ptr -> ends_before buf p' ptr.
Proof. destruct ptr as [q|]; cbn [ends_before]; [lia | done]. Qed.

Lemma ends_before_insert (buf : list ascii) (p i : nat) (c : ascii) (ptr : char_ptr) :
  (p <= i)%nat -> ends_before buf p ptr -> ends_before (<[i := c]> buf) p ptr.
Proof.
  destruct ptr as [q|]; cbn [ends_before]; [|done]. intros Hi Hq.
  destruct (cstr_at_insert buf q i c) as [-> _]; lia.
Qed.

Lemma deref_insert (s : State) (buf : list ascii) (p i : nat) (c : ascii) (ptr : char_ptr)
    (f : State -> State) :
  render_conf s = Some buf -> render_conf (f s) = Some (<[i := c]> buf) ->
  (p <= i)%nat -> ends_before buf p ptr -> deref (f s) ptr = deref s ptr.
Proof.
  intros Hs Hf Hi Hq. unfold deref. rewrite Hs, Hf. destruct ptr as [q|]; [|done].
  cbn [ends_before] in Hq. destruct (cstr_at_insert buf q i c) as [_ ->]; [lia | done].
Qed.

Lemma set_render_conf_id (s : State) (o : option (list ascii)) :
  render_conf s = o -> set_render_conf o s = s.
Proof. intros <-. by destruct s. Qed.

Lemma deref_Some (s : State) (b : list ascii) (q : nat) :
  render_conf s = Some b -> deref s (Some q) = Some (cstr_at b q).
Proof. intros H. unfold deref. by rewrite H. Qed.

Section Line.
Context (path : string) (row : Z) (content : String_View) (s : State) (buf rest : list ascii).
Hypothesis Hconf : render_conf s = Some buf.
Hypothesis Hshows : shows buf content rest.
Hypothesis Hnul : NUL ∉ rest.
Hypothesis Hend : buf !! (data content + count content)%nat = Some NUL.
Hypothesis Hsettled : settled buf (data content) s.

Let l1 := before newline rest.
Let e := (data content + length l1)%nat.
Let entry := conf_line trim_left l1.
Let content1 :=
    mkSV (length (after newline rest))
         (e + (if decide (newline ∈ rest) then 1 else 0)).
Let buf1 := poked entry e buf.
Let s1 := store_entry path row entry (value_ptr entry e) (set_render_conf (Some buf1) s).

Lemma line_bounds :
  (data content + count content < length buf)%nat /\ (e <= data content + count content)%nat
  /\ count content = length rest.
Proof.
  pose proof (lookup_lt_Some _ _ _ Hend) as Hlt.
  destruct Hshows as (pre & post & _ & _ & Hc).
  pose proof (length_before_after newline rest) as Hlen. fold l1 in Hlen.
  unfold e. split; [exact Hlt|]. split; [|exact Hc].
  destruct (decide (newline ∈ rest)); lia.
Qed.

Lemma line_run : reload_render_conf_line path row content s = Ret content1 s1.
Proof.
  destruct line_bounds as (Hlt & _ & _).
  rewrite (reload_render_conf_line_run path row content s buf rest Hconf Hshows Hnul Hlt).
  fold l1 e. unfold content1, s1, buf1, entry.
  destruct (conf_line trim_left l1) as [|col key value]; [|reflexivity].
  cbn [store_entry poked]. by rewrite set_render_conf_id.
Qed.

Lemma line_buffer : render_conf s1 = Some buf1 /\ length buf1 = length buf.
Proof.
  split.
  - unfold s1, store_entry. destruct entry as [|col key value]; [reflexivity|].
    repeat case_decide; reflexivity.
  - unfold buf1, poked. destruct entry; [reflexivity | apply length_insert].
Qed.

Lemma line_frame :
  time s1 = time s /\ pause s1 = pause s /\ global_renderer s1 = global_renderer s
  /\ trace s1 = trace s ++ (Printf <$> conf_message path row entry).
Proof.
  unfold s1, store_entry, conf_message. destruct entry as [|col key value].
  - cbn. by rewrite app_nil_r.
  - repeat case_decide; done.
Qed.

Lemma line_content1 :
  shows buf1 content1 (after newline rest)
  /\ (data content1 + count content1 = data content + count content)%nat
  /\ buf1 !! (data content + count content)%nat = Some NUL.
Proof.
  destruct line_bounds as (Hlt & He & Hc).
  destruct (shows_chop buf content rest newline Hshows) as (_ & _ & Hc1).
  fold l1 e content1 in Hc1.
  pose proof (length_before_after newline rest) as Hlen. fold l1 in Hlen.
  assert (data content1 + count content1 = data content + count content)%nat as Hsum.
  { unfold content1, e. cbn [data count]. lia. }
  split; [|split; [exact Hsum|]]; unfold buf1, poked; destruct entry; try done.
  - apply shows_insert; [exact Hc1|]. unfold content1. cbn [data count].
    destruct (decide (newline ∈ rest)) as [Hin|Hnot]; [left; lia|right].
    destruct (before_notin _ _ Hnot) as [_ ->]. cbn [length]. lia.
  - destruct (decide (e = data content + count content)%nat) as [->|Hne].
    + by apply list_lookup_insert_eq.
    + by rewrite list_lookup_insert_ne.
Qed.

Lemma line_value (col : nat) (key value : list ascii) :
  entry = Entry col key value ->
  (length value <= e)%nat
  /\ strlen (drop (e - length value) (<[e := NUL]> buf)) = length value
  /\ cstr_at (<[e := NUL]> buf) (e - length value) = value.
Proof.
  intros Hentry. destruct line_bounds as (Hlt & He & Hc).
  destruct (conf_line_value_suffix l1 col key value Hentry) as (x & Hx).
  destruct (shows_chop buf content rest newline Hshows) as (_ & Hline & _). fold l1 in Hline.
  pose proof (shows_part _ _ _ x value [] Hline) as Hv. cbn [data] in Hv.
  rewrite app_nil_r in Hv. specialize (Hv Hx).
  assert (length l1 = length x + length value)%nat as Hlen
    by (rewrite Hx at 1; apply length_app).
  assert (data content + length x = e - length value)%nat as Hq by (unfold e; lia).
  rewrite Hq in Hv.
  assert (NUL ∉ value) as Hvnul.
  { intros Hin. apply Hnul, (before_sublist newline). fold l1. rewrite Hx.
    apply elem_of_app. by right. }
  assert (e - length value + length value = e)%nat as Hsum by (unfold e; lia).
  split; [unfold e; lia|].
  pose proof (cstr_at_poke buf _ value Hv Hvnul) as Hp. cbn [data count] in Hp.
  rewrite Hsum in Hp. apply Hp. lia.
Qed.

Lemma line_deref (s' : State) (ptr : char_ptr) :
  render_conf s' = Some buf1 -> ends_before buf (data content) ptr ->
  deref s' ptr = deref s ptr.
Proof.
  intros Hs' Hptr. unfold deref. rewrite Hs', Hconf. destruct ptr as [q|]; [|done].
  unfold buf1, poked. destruct entry; [done|]. cbn [ends_before] in Hptr.
  destruct (cstr_at_insert buf q e NUL) as [_ ->]; [unfold e; lia | done].
Qed.

Lemma line_paths : paths_of s1 = conf_apply (paths_of s) entry.
Proof.
  destruct Hsettled as (Hv & Hf & Ht).
  pose proof (line_deref s1 _ (proj1 line_buffer) Hv) as Hdv.
  pose proof (line_deref s1 _ (proj1 line_buffer) Hf) as Hdf.
  pose proof (line_deref s1 _ (proj1 line_buffer) Ht) as Hdt.
  pose proof (proj1 line_buffer) as Hb1.
  unfold paths_of, conf_apply. revert Hdv Hdf Hdt Hb1. unfold s1, store_entry, buf1, poked.
  destruct entry as [|col key value] eqn:Hentry.
  - cbn [vert_path frag_path texture_path set_render_conf]. intros -> -> -> _. reflexivity.
  - destruct (line_value col key value Hentry) as (_ & _ & Hcstr). unfold value_ptr.
    repeat case_decide; cbn [vert_path frag_path texture_path set_trace set_vert_path
      set_frag_path set_texture_path set_render_conf the_vert the_frag the_texture];
      intros Hdv Hdf Hdt Hb1; rewrite ?Hdv, ?Hdf, ?Hdt; try reflexivity.
    all: rewrite (deref_Some _ _ _ Hb1), Hcstr; reflexivity.
Qed.

Lemma line_settled : newline ∈ rest -> settled buf1 (data content1) s1.
Proof.
  intros Hin. destruct Hsettled as (Hv & Hf & Ht).
  assert (data content1 = S e) as Hd1.
  { unfold content1. cbn [data]. rewrite decide_True by exact Hin. lia. }
  assert (forall ptr, ends_before buf (data content) ptr -> ends_before buf1 (data content1) ptr)
    as Hold.
  { intros ptr Hptr. apply (ends_before_mono _ (data content)); [rewrite Hd1; unfold e; lia|].
    unfold buf1, poked. destruct entry; [exact Hptr|].
    apply ends_before_insert; [unfold e; lia | exact Hptr]. }
  apply Hold in Hv, Hf, Ht. rewrite Hd1 in *. revert Hv Hf Ht.
  unfold settled, s1, store_entry, buf1, poked.
  destruct entry as [|col key value] eqn:Hentry; [done|].
  destruct (line_value col key value Hentry) as (Hle & Hstrlen & _). unfold value_ptr.
  assert (ends_before (<[e := NUL]> buf) (S e) (Some (e - length value)%nat)) as Hnew
    by (cbn [ends_before]; rewrite Hstrlen; lia).
  repeat case_decide; cbn [vert_path frag_path texture_path set_trace set_vert_path
    set_frag_path set_texture_path set_render_conf]; done.
Qed.
End Line.

(** ** The whole file *)

Lemma reload_render_conf_loop_run (path : string) (fuel : nat) :
  forall (row : Z) (content : String_View) (s : State) (buf rest : list ascii),
    render_conf s = Some buf ->
    shows buf content rest ->
    NUL ∉ rest ->
    buf !! (data content + count content)%nat = Some NUL ->
    (rest <> [] -> settled buf (data content) s) ->
    (length rest <= fuel)%nat ->
    exists s',
      reload_render_conf_loop fuel path row content s = Ret tt s'
      /\ is_Some (render_conf s')
      /\ time s' = time s /\ pause s' = pause s /\ global_renderer s' = global_renderer s
      /\ trace s' = trace s
                    ++ (Printf <$> conf_messages path row (conf_line trim_left <$> conf_lines rest))
      /\ paths_of s' = foldl conf_apply (paths_of s) (conf_line trim_left <$> conf_lines rest).
Proof.
  induction fuel as [|fuel IH]; intros row content s buf rest Hconf Hshows Hnul Hend Hset Hfuel.
  all: assert (count content = length rest) as Hcount
         by (by destruct Hshows as (? & ? & _ & _ & ?)).
  all: destruct rest as [|c rest0] eqn:Hrest;
         [ exists s; cbn [reload_render_conf_loop length] in *;
           rewrite decide_False by lia; cbn; rewrite app_nil_r, Hconf; by eauto
         | ].
  { cbn [length] in Hfuel. lia. }
  rewrite <- Hrest in *. assert (rest <> []) as Hne by (by rewrite Hrest).
  specialize (Hset Hne).
  assert (0 < count content)%nat as Hpos by (rewrite Hcount, Hrest; cbn [length]; lia).
  cbn [reload_render_conf_loop]. destruct (decide (0 < count content)%nat) as [_|Hn]; [|done].
  cbv beta delta [mbind M_bind bind].
  rewrite (line_run path row content s buf rest Hconf Hshows Hnul Hend).
  destruct (line_buffer path row content s buf rest) as [Hconf1 _].
  destruct (line_frame path row content s buf rest) as (Ht1 & Hp1 & Hr1 & Htr1).
  destruct (line_content1 path row content s buf rest Hshows Hend) as (Hshows1 & Hsum & Hend1).
  pose proof (line_paths path row content s buf rest Hconf Hshows Hnul Hend Hset) as Hpaths1.
  pose proof (line_settled path row content s buf rest Hshows Hnul Hend Hset) as Hset1.
  pose proof (length_before_after newline rest) as Hlen.
  rewrite <- Hsum in Hend1.
  edestruct (IH (row + 1) _ _ _ (after newline rest) Hconf1 Hshows1)
    as (s' & Hrun & Hsome & Ht & Hp & Hr & Htr & Hpaths).
  - intros Hin. by apply Hnul, (after_sublist newline).
  - exact Hend1.
  - intros Hne1. apply Hset1. destruct (decide (newline ∈ rest)) as [Hin|Hnot]; [exact Hin|].
    destruct (before_notin _ _ Hnot) as [_ Ha]. by rewrite Ha in Hne1.
  - destruct (decide (newline ∈ rest)) as [Hin|Hnot].
    + simpl in Hlen. lia.
    + destruct (before_notin _ _ Hnot) as [_ ->]. cbn [length]. lia.
  - exists s'. split; [exact Hrun|]. split; [exact Hsome|].
    rewrite Ht, Hp, Hr, Htr, Hpaths, Ht1, Hp1, Hr1, Htr1, Hpaths1.
    rewrite (conf_lines_step rest Hne). cbn [fmap list_fmap conf_messages foldl].
    rewrite fmap_app, <- app_assoc. done.
Qed.

Lemma strlen_take_NUL (l : list ascii) : NUL ∉ take (strlen l) l.
Proof.
  induction l as [|c l IH]; cbn [strlen]; [by intros ?%elem_of_nil|].
  destruct (decide (c = NUL)) as [|Hne]; [by intros ?%elem_of_nil|].
  cbn [take]. intros [?|?]%elem_of_cons; [congruence | done].
Qed.

Lemma strlen_lookup_NUL (l : list ascii) : NUL ∈ l -> l !! strlen l = Some NUL.
Proof.
  induction l as [|c l IH]; [by intros ?%elem_of_nil|]. cbn [strlen].
  destruct (decide (c = NUL)) as [->|Hne]; [done|].
  intros [?|Hin]%elem_of_cons; [congruence|]. by apply IH.
Qed.

Lemma paths_of_reset (s : State) :
  paths_of (set_texture_path None (set_frag_path None (set_vert_path None s))) = no_paths.
Proof. reflexivity. Qed.

(** The text of the file: its bytes up to the first NUL, if it has one. *)
Lemma reload_render_conf_readable (env : Env) (path : string) (s : State) (file : list ascii) :
  env_file env (Some (cstr path)) = Some file ->
  exists s',
    reload_render_conf env path s = Ret tt s'
    /\ is_Some (render_conf s')
    /\ time s' = time s /\ pause s' = pause s /\ global_renderer s' = global_renderer s
    /\ trace s' = trace s
                  ++ (Printf <$> conf_messages path 0 (conf_entries (as_cstring (file ++ [NUL]))))
    /\ paths_of s' = conf_paths (conf_entries (as_cstring (file ++ [NUL]))).
Proof.
  intros Hfile. unfold reload_render_conf, slurp_file_into_malloced_cstr.
  rewrite Hfile. cbn [mbind option_bind]. run_state.
  set (buf := file ++ [NUL]).
  set (s0 := set_texture_path None (set_frag_path None (set_vert_path None
               (set_render_conf (Some buf) s)))).
  assert (NUL ∈ buf) as Hin by (apply elem_of_app; right; apply list_elem_of_here).
  edestruct (reload_render_conf_loop_run path (count (sv_from_cstr buf 0)) 0
               (sv_from_cstr buf 0) s0 buf (as_cstring buf))
    as (s' & Hrun & Hsome & Ht & Hp & Hr & Htr & Hpaths).
  - reflexivity.
  - exists [], (drop (strlen buf) buf). unfold as_cstring, cstr_at, sv_from_cstr, sv_from_parts.
    change (drop 0 buf) with buf. cbn [data count app length]. pose proof (strlen_le buf).
    split; [by rewrite take_drop|]. split; [done|]. change (drop 0 buf) with buf. rewrite length_take. lia.
  - apply strlen_take_NUL.
  - unfold sv_from_cstr, sv_from_parts. change (drop 0 buf) with buf. cbn [data count].
    by apply strlen_lookup_NUL.
  - done.
  - unfold as_cstring, cstr_at, sv_from_cstr, sv_from_parts. change (drop 0 buf) with buf.
    cbn [count]. rewrite length_take. lia.
  - exists s'. split; [exact Hrun|]. split; [exact Hsome|]. done.
Qed.

Lemma reload_render_conf_unreadable (env : Env) (path : string) (s : State) :
  env_file env (Some (cstr path)) = None ->
  reload_render_conf env path s =
    Exited 1 (set_trace (trace s ++ [Printf (Err_could_not_load_conf path)])
                (set_render_conf None s)).
Proof.
  intros Hfile. unfold reload_render_conf, slurp_file_into_malloced_cstr.
  rewrite Hfile. reflexivity.
Qed.

(** ** Keys that the file does not have *)

Lemma has_key_cons (key : cstring) (l : ConfLine) (ls : list ConfLine) :
  ~ has_key key (l :: ls) ->
  ~ has_key key ls /\ forall col value, l <> Entry col key value.
Proof.
  intros Hno. split.
  - intros (col & value & Hin). apply Hno. exists col, value. by apply list_elem_of_further.
  - intros col value ->. apply Hno. exists col, value. apply list_elem_of_here.
Qed.

Lemma conf_paths_no_vert (ls : list ConfLine) : forall ps : Paths,
  ~ has_key (cstr "vert") ls -> the_vert (foldl conf_apply ps ls) = the_vert ps.
Proof.
  induction ls as [|l ls IH]; intros ps Hno; [reflexivity|].
  apply has_key_cons in Hno as [Hno Hl]. cbn [foldl]. rewrite IH by exact Hno.
  destruct l as [|col key value]; [reflexivity|]. cbn [conf_apply].
  repeat case_decide; subst; try reflexivity. by destruct (Hl col value).
Qed.

Lemma conf_paths_no_frag (ls : list ConfLine) : forall ps : Paths,
  ~ has_key (cstr "frag") ls -> the_frag (foldl conf_apply ps ls) = the_frag ps.
Proof.
  induction ls as [|l ls IH]; intros ps Hno; [reflexivity|].
  apply has_key_cons in Hno as [Hno Hl]. cbn [foldl]. rewrite IH by exact Hno.
  destruct l as [|col key value]; [reflexivity|]. cbn [conf_apply].
  repeat case_decide; subst; try reflexivity. by destruct (Hl col value).
Qed.

Lemma conf_paths_no_texture (ls : list ConfLine) : forall ps : Paths,
  ~ has_key (cstr "texture") ls -> the_texture (foldl conf_apply ps ls) = the_texture ps.
Proof.
  induction ls as [|l ls IH]; intros ps Hno; [reflexivity|].
  apply has_key_cons in Hno as [Hno Hl]. cbn [foldl]. rewrite IH by exact Hno.
  destruct l as [|col key value]; [reflexivity|]. cbn [conf_apply].
  repeat case_decide; subst; try reflexivity. by destruct (Hl col value).
Qed.

Lemma deref_None (s : State) (ptr : char_ptr) :
  is_Some (render_conf s) -> deref s ptr = None -> ptr = None.
Proof. intros [buf Hbuf]. unfold deref. rewrite Hbuf. by destruct ptr. Qed.

(** C10: a reload that reads the file sets the three paths from the lines
    of the new file alone, whatever they were before; a path whose key the
    file has no line for ends up null. *)
Theorem reload_render_conf_resets_paths (env : Env) (path : string) (s : State)
    (file : list ascii) :
  env_file env (Some (cstr path)) = Some file ->
  exists s',
    reload_render_conf env path s = Ret tt s'
    /\ paths_of s' = conf_paths (conf_entries (as_cstring (file ++ [NUL])))
    /\ (~ has_key (cstr "vert") (conf_entries (as_cstring (file ++ [NUL]))) ->
        vert_path s' = None)
    /\ (~ has_key (cstr "frag") (conf_entries (as_cstring (file ++ [NUL]))) ->
        frag_path s' = None)
    /\ (~ has_key (cstr "texture") (conf_entries (as_cstring (file ++ [NUL]))) ->
        texture_path s' = None).
Proof.
  intros Hfile.
  destruct (reload_render_conf_readable env path s file Hfile)
    as (s' & Hrun & Hsome & _ & _ & _ & _ & Hpaths).
  exists s'. split; [exact Hrun|]. split; [exact Hpaths|].
  unfold conf_paths in Hpaths. split; [|split]; intros Hno; apply (deref_None s' _ Hsome).
  - change (the_vert (paths_of s') = None). rewrite Hpaths. by rewrite conf_paths_no_vert.
  - change (the_frag (paths_of s') = None). rewrite Hpaths. by rewrite conf_paths_no_frag.
  - change (the_texture (paths_of s') = None). rewrite Hpaths. by rewrite conf_paths_no_texture.
Qed.

Lemma reload_render_conf_resets_paths_witness :
  texture_path
    (final (reload_render_conf
              (example_env [("render.conf", lines_of ["vert = a.vert"; "frag = a.frag"])]
                 false true [] 0%float)
              "render.conf"
              (set_texture_path (Some 0%nat)
                 (set_render_conf (Some (cstr "old.png" ++ [NUL])) State_init))))
  = None.
Proof.
  edestruct (reload_render_conf_resets_paths
               (example_env [("render.conf", lines_of ["vert = a.vert"; "frag = a.frag"])]
                  false true [] 0%float)
               "render.conf"
               (set_texture_path (Some 0%nat)
                  (set_render_conf (Some (cstr "old.png" ++ [NUL])) State_init)))
    as (s' & Hrun & _ & _ & _ & Htexture).
  - vm_compute. reflexivity.
  - rewrite Hrun. cbn [final]. apply Htexture.
    intros (col & value & Hin). vm_compute in Hin.
    repeat (apply elem_of_cons in Hin as [Hin|Hin]; [discriminate Hin|]).
    by apply elem_of_nil in Hin.
Defined.

(** ** What the parser reads *)

Lemma conf_line_entry (l : list ascii) (col : nat) (key value : list ascii) :
  conf_line trim_left l = Entry col key value ->
  col = (length l - length (trim_left l))%nat
  /\ key = trim (before "="%char (trim_left l))
  /\ value = trim_left (after "="%char (trim_left l)).
Proof.
  unfold conf_line. destruct (trim_left l) as [|c l2] eqn:Hl2; [done|].
  destruct (decide (c = "#"%char)); [done|]. by intros [= <- <- <-].
Qed.

(** C8, as the code has it: the paths after a reload are those of the
    entries of the file, a line being split at its first [=], the key
    trimmed on both sides and the value on the left only, so that the value
    runs to the end of its line; the three-line example yields its three
    paths; an entry of another key changes no path and is reported with the
    file, the row and the column of the key, and the reload returns all the
    same; a line whose first non-blank character is [#] is skipped. *)
Theorem reload_render_conf_reads_entries :
  (forall (env : Env) (path : string) (s : State) (file : list ascii),
     env_file env (Some (cstr path)) = Some file ->
     exists s',
       reload_render_conf env path s = Ret tt s'
       /\ paths_of s' = conf_paths (conf_entries (as_cstring (file ++ [NUL])))
       /\ trace s' = trace s ++ (Printf <$> conf_messages path 0
                                              (conf_entries (as_cstring (file ++ [NUL])))))
  /\ conf_paths (conf_entries example_conf) =
       mkPaths (Some (cstr "shaders/a.vert")) (Some (cstr "shaders/a.frag"))
               (Some (cstr "img/a.png"))
  /\ (forall (l : list ascii) (col : nat) (key value : list ascii),
        conf_line trim_left l = Entry col key value ->
        col = (length l - length (trim_left l))%nat
        /\ key = trim (before "="%char (trim_left l))
        /\ value = trim_left (after "="%char (trim_left l)))
  /\ (forall (ps : Paths) (path : string) (row : Z) (col : nat) (key value : list ascii),
        key <> cstr "vert" -> key <> cstr "frag" -> key <> cstr "texture" ->
        conf_apply ps (Entry col key value) = ps
        /\ conf_message path row (Entry col key value)
           = [Out_unsupported_key path row (Z.of_nat col) key])
  /\ (forall l l' : list ascii,
        trim_left l = "#"%char :: l' -> conf_line trim_left l = Skipped).
Proof.
  split; [|split; [|split; [|split]]].
  - intros env path s file Hfile.
    destruct (reload_render_conf_readable env path s file Hfile)
      as (s' & Hrun & _ & _ & _ & _ & Htrace & Hpaths).
    exists s'. done.
  - vm_compute. reflexivity.
  - exact conf_line_entry.
  - intros ps path row col key value H1 H2 H3. cbn [conf_apply conf_message].
    rewrite !decide_False by assumption. done.
  - intros l l' Hl. unfold conf_line. rewrite Hl. by rewrite decide_True.
Qed.

Lemma reload_render_conf_reads_entries_witness :
  let env := example_env
               [("render.conf",
                 lines_of ["# shaders"; "vert = shaders/a.vert"; "frag = shaders/a.frag";
                           "  foo = bar"; "texture = img/a.png"])]
               false true [] 0%float in
  let s' := final (reload_render_conf env "render.conf" State_init) in
  paths_of s' = mkPaths (Some (cstr "shaders/a.vert")) (Some (cstr "shaders/a.frag"))
                        (Some (cstr "img/a.png"))
  /\ trace s' = [Printf (Out_vertex_path (cstr "shaders/a.vert"));
                 Printf (Out_fragment_path (cstr "shaders/a.frag"));
                 Printf (Out_unsupported_key "render.conf" 3 2 (cstr "foo"));
                 Printf (Out_texture_path (cstr "img/a.png"))].
Proof.
  intros env s'.
  destruct (proj1 reload_render_conf_reads_entries env "render.conf" State_init
              (lines_of ["# shaders"; "vert = shaders/a.vert"; "frag = shaders/a.frag";
                         "  foo = bar"; "texture = img/a.png"]))
    as (s1 & Hrun & Hpaths & Htrace).
  - vm_compute. reflexivity.
  - unfold s'. rewrite Hrun. cbn [final]. rewrite Hpaths, Htrace. split; vm_compute; reflexivity.
Defined.

(** C8 as stated fails where a value is followed by blanks: the path keeps
    them, where trimming the value on both sides would drop them. *)
Lemma reload_render_conf_keeps_trailing_blanks :
  the_vert (paths_of (final (reload_render_conf
                                (example_env [("render.conf", lines_of ["vert = shaders/a.vert  "])]
                                   false true [] 0%float)
                                "render.conf" State_init)))
  = Some (cstr "shaders/a.vert  ")
  /\ the_vert (conf_paths (conf_entries_trimmed (lines_of ["vert = shaders/a.vert  "])))
     = Some (cstr "shaders/a.vert").
Proof. split; vm_compute; reflexivity. Qed.

(** ** Reading the file, or leaving *)

(** C7, as the code has it: a reload either leaves the process, which it
    does when and only when the file cannot be read, or returns with the
    three paths replaced by those of the new file; there is no parse
    failure, a file that can be read never ends the process, and what it
    prints is the messages of the entries of the file, an entry of another
    key being reported by one of them.  The reload key does the same with
    "render.conf". *)
Theorem reload_render_conf_exits_when_unreadable (env : Env) (path : string) (s : State) :
  (env_file env (Some (cstr path)) = None ->
     reload_render_conf env path s =
       Exited 1 (set_trace (trace s ++ [Printf (Err_could_not_load_conf path)])
                   (set_render_conf None s)))
  /\ (forall file, env_file env (Some (cstr path)) = Some file ->
        exists s',
          reload_render_conf env path s = Ret tt s'
          /\ paths_of s' = conf_paths (conf_entries (as_cstring (file ++ [NUL])))
          /\ trace s' = trace s ++ (Printf <$> conf_messages path 0
                                                 (conf_entries (as_cstring (file ++ [NUL])))))
  /\ (env_file env (Some (cstr "render.conf")) = None ->
        key_callback env GLFW_KEY_F5 GLFW_PRESS s =
          Exited 1 (set_trace (trace s ++ [Printf (Err_could_not_load_conf "render.conf")])
                      (set_render_conf None s))).
Proof.
  split; [|split].
  - apply reload_render_conf_unreadable.
  - intros file Hfile.
    destruct (reload_render_conf_readable env path s file Hfile)
      as (s' & Hrun & _ & _ & _ & _ & Htrace & Hpaths).
    exists s'. done.
  - intros Hfile. unfold key_callback. decide_keys.
    cbv beta delta [mbind M_bind bind].
    rewrite (reload_render_conf_unreadable env "render.conf" s Hfile). reflexivity.
Qed.

Lemma reload_render_conf_exits_when_unreadable_witness :
  reload_render_conf (example_env [] false true [] 0%float) "render.conf" State_init =
    Exited 1 (set_trace [Printf (Err_could_not_load_conf "render.conf")] State_init).
Proof.
  rewrite (proj1 (reload_render_conf_exits_when_unreadable
                    (example_env [] false true [] 0%float) "render.conf" State_init));
    reflexivity.
Defined.

(** C7 as stated fails on a file that can be read but has no line of the
    form [key = value]: the reload returns, with no path set. *)
Lemma reload_render_conf_accepts_any_text :
  parses (cstr "no key here") = false
  /\ paths_of <$> returned (reload_render_conf
                              (example_env [("render.conf", cstr "no key here")]
                                 false true [] 0%float)
                              "render.conf" State_init)
     = Some no_paths.
Proof. split; vm_compute; reflexivity. Qed.

(** * More on the batch: what fits, and the checker board *)

Lemma push_all_app (vs1 : list Vertex) : forall (r : Renderer) (vs2 : list Vertex),
  push_all r (vs1 ++ vs2) = push_all r vs1 ≫= fun r => push_all r vs2.
Proof.
  induction vs1 as [|v vs1 IH]; intros r vs2; cbn [push_all app]; [reflexivity|].
  destruct (renderer_push_vertex r (pos v) (uv v) (color v)) as [r1|]; cbn [mbind option_bind];
    [apply IH | reflexivity].
Qed.

Lemma push_all_None (vs : list Vertex) : forall r : Renderer,
  batch_ok r -> (VERTEX_BUF_CAP < vertex_buf_sz r + length vs)%nat -> push_all r vs = None.
Proof.
  induction vs as [|v vs IH]; intros r Hok Hcap; cbn [push_all length] in *.
  - destruct Hok as [_ Hsz]. lia.
  - destruct (decide (vertex_buf_sz r < VERTEX_BUF_CAP)%nat) as [Hlt|Hge].
    + destruct (push_vertex_batch r (pos v) (uv v) (color v) Hok Hlt) as (r1 & -> & _ & Hsz1 & Hok1).
      cbn [mbind option_bind]. apply IH; [exact Hok1 | lia].
    + by rewrite renderer_push_vertex_None.
Qed.

Lemma push_all_is_Some (r : Renderer) (vs : list Vertex) :
  batch_ok r ->
  is_Some (push_all r vs) <-> (vertex_buf_sz r + length vs <= VERTEX_BUF_CAP)%nat.
Proof.
  intros Hok. split.
  - intros [r' Hr']. destruct (decide (vertex_buf_sz r + length vs <= VERTEX_BUF_CAP)%nat) as [|Hn];
      [done|]. rewrite push_all_None in Hr' by (done || lia). discriminate.
  - intros Hcap. destruct (push_all_batch vs r Hok Hcap) as (r' & -> & _). by eexists.
Qed.

Lemma bind_ext_list {A B} (f g : A -> list B) (l : list A) :
  (forall x, f x = g x) -> l ≫= f = l ≫= g.
Proof. intros H. induction l as [|x l IH]; [reflexivity|]. by rewrite !bind_cons, H, IH. Qed.

Lemma bind_bind_list {A B C} (f : A -> list B) (g : B -> list C) (l : list A) :
  (l ≫= f) ≫= g = l ≫= (fun x => f x ≫= g).
Proof.
  induction l as [|x l IH]; [reflexivity|]. by rewrite !bind_cons, bind_app, IH.
Qed.

Lemma fmap_bind_list {A B C} (f : A -> list B) (g : B -> C) (l : list A) :
  g <$> (l ≫= f) = l ≫= (fun x => g <$> f x).
Proof.
  induction l as [|x l IH]; [reflexivity|]. by rewrite !bind_cons, fmap_app, IH.
Qed.

Lemma length_bind_const {A B} (f : A -> list B) (k : nat) (l : list A) :
  (forall x, length (f x) = k) -> length (l ≫= f) = (k * length l)%nat.
Proof.
  intros H. induction l as [|x l IH]; [cbn; lia|].
  rewrite bind_cons, length_app, H, IH. cbn [length]. lia.
Qed.

Lemma for_each_push_all (f : Z -> list Vertex) (body : Z -> Renderer -> option Renderer) :
  (forall i r, body i r = push_all r (f i)) ->
  forall (counter : list Z) (r : Renderer),
    for_each counter body r = push_all r (counter ≫= f).
Proof.
  intros Hbody counter. induction counter as [|i counter IH]; intros r; [reflexivity|].
  cbn [for_each]. rewrite bind_cons, push_all_app, Hbody.
  destruct (push_all r (f i)) as [r1|]; cbn [mbind option_bind]; [apply IH | reflexivity].
Qed.

Lemma push_quads_push_all (qs : list (V2f * V2f * V4f)) : forall r : Renderer,
  push_quads r qs = push_all r (qs ≫= fun '(p1, p2, col) => quad_vertices p1 p2 col).
Proof.
  induction qs as [|[[p1 p2] col] qs IH]; intros r; [reflexivity|].
  cbn [push_quads]. rewrite bind_cons, push_all_app, renderer_push_quad_push_all.
  destruct (push_all r (quad_vertices p1 p2 col)) as [r1|]; cbn [mbind option_bind];
    [apply IH | reflexivity].
Qed.

Lemma renderer_push_checker_board_push_all (r : Renderer) (grid_size : Z) :
  renderer_push_checker_board r grid_size = push_all r (checker_board_vertices grid_size).
Proof.
  unfold renderer_push_checker_board, checker_board_vertices, checker_board_cells, for_int.
  rewrite !bind_bind_list.
  apply for_each_push_all. intros y r1.
  rewrite bind_bind_list.
  apply for_each_push_all. intros x r2.
  rewrite bind_singleton. apply renderer_push_quad_push_all.
Qed.

Lemma length_checker_board_vertices (grid_size : Z) :
  length (checker_board_vertices grid_size) = (6 * (Z.to_nat grid_size * Z.to_nat grid_size))%nat.
Proof.
  unfold checker_board_vertices, checker_board_cells.
  rewrite (length_bind_const _ 6) by (by intros [x y]).
  rewrite (length_bind_const _ (Z.to_nat grid_size)).
  - rewrite length_seqZ. lia.
  - intros y. rewrite (length_bind_const _ 1) by done. rewrite length_seqZ. lia.
Qed.

(** X1: [renderer_push_quad] fails its assertion exactly when fewer than
    six slots of the batch are free, and adds six vertices otherwise; so of
    a sequence of quads pushed into the empty batch of a fresh renderer all
    are taken exactly when they are at most 1365, whatever their corners
    and colours. *)
Theorem renderer_push_quad_needs_six_slots :
  (forall (r : Renderer) (p1 p2 : V2f) (col : V4f),
     batch_ok r ->
     (renderer_push_quad r p1 p2 col = None
      <-> (VERTEX_BUF_CAP < vertex_buf_sz r + 6)%nat)
     /\ (forall r', renderer_push_quad r p1 p2 col = Some r' ->
           vertex_buf_sz r' = (vertex_buf_sz r + 6)%nat /\ batch_ok r'))
  /\ (forall qs : list (V2f * V2f * V4f),
        is_Some (push_quads Renderer_zero qs) <-> (length qs <= 1365)%nat).
Proof.
  split.
  - intros r p1 p2 col Hok. rewrite renderer_push_quad_push_all.
    pose proof (push_all_is_Some r (quad_vertices p1 p2 col) Hok) as Hiff.
    cbn [quad_vertices length] in Hiff. split; [split|].
    + intros Hnone. rewrite Hnone in Hiff.
      destruct (decide (vertex_buf_sz r + 6 <= VERTEX_BUF_CAP)%nat) as [Hle|Hgt]; [|lia].
      apply Hiff in Hle. by destruct Hle.
    + intros Hcap. by apply push_all_None.
    + intros r' Hr'.
      assert (vertex_buf_sz r + 6 <= VERTEX_BUF_CAP)%nat as Hcap
        by (apply Hiff; rewrite Hr'; by eexists).
      destruct (push_all_batch (quad_vertices p1 p2 col) r Hok Hcap) as (r1 & Hp & _ & Hsz & Hok1).
      rewrite Hr' in Hp. injection Hp as <-. done.
  - intros qs. rewrite push_quads_push_all, (push_all_is_Some _ _ batch_ok_zero).
    rewrite (length_bind_const _ 6) by (by intros [[p1 p2] col]).
    cbn [vertex_buf_sz Renderer_zero]. unfold VERTEX_BUF_CAP. lia.
Qed.

(** X2: [renderer_push_checker_board] pushes the quads of the
    [grid_size * grid_size] cells row by row, six vertices per cell, after
    the vertices the batch holds already; it does so when they fit the
    capacity, and fails the assertion of [renderer_push_vertex] when they
    do not.  A [grid_size] of zero or less pushes nothing. *)
Theorem renderer_push_checker_board_capacity (r : Renderer) (grid_size : Z) :
  batch_ok r ->
  length (checker_board_vertices grid_size)
  = (6 * (Z.to_nat grid_size * Z.to_nat grid_size))%nat
  /\ ((vertex_buf_sz r + 6 * (Z.to_nat grid_size * Z.to_nat grid_size) <= VERTEX_BUF_CAP)%nat ->
        exists r',
          renderer_push_checker_board r grid_size = Some r'
          /\ batch r' = batch r ++ checker_board_vertices grid_size
          /\ vertex_buf_sz r'
             = (vertex_buf_sz r + 6 * (Z.to_nat grid_size * Z.to_nat grid_size))%nat
          /\ batch_ok r')
  /\ ((VERTEX_BUF_CAP < vertex_buf_sz r + 6 * (Z.to_nat grid_size * Z.to_nat grid_size))%nat ->
        renderer_push_checker_board r grid_size = None)
  /\ (grid_size <= 0 -> renderer_push_checker_board r grid_size = Some r).
Proof.
  intros Hok. pose proof (length_checker_board_vertices grid_size) as Hlen.
  split; [exact Hlen|]. rewrite renderer_push_checker_board_push_all. split; [|split].
  - intros Hcap. rewrite <- Hlen in *.
    destruct (push_all_batch _ r Hok Hcap) as (r' & Hp & Hb & Hsz & Hok').
    exists r'. done.
  - intros Hcap. apply push_all_None; [exact Hok | by rewrite Hlen].
  - intros Hneg. destruct (checker_board_vertices grid_size) as [|v vs]; [reflexivity|].
    exfalso. cbn [length] in Hlen. lia.
Qed.

Lemma renderer_push_checker_board_capacity_witness :
  (exists r', renderer_push_checker_board Renderer_zero 36 = Some r'
              /\ vertex_buf_sz r' = 7776%nat)
  /\ renderer_push_checker_board Renderer_zero 37 = None.
Proof.
  split.
  - destruct (proj1 (proj2 (renderer_push_checker_board_capacity Renderer_zero 36 batch_ok_zero)))
      as (r' & Hp & _ & Hsz & _).
    + unfold VERTEX_BUF_CAP. cbn [vertex_buf_sz Renderer_zero]. lia.
    + exists r'. split; [exact Hp | exact Hsz].
  - apply (proj1 (proj2 (proj2 (renderer_push_checker_board_capacity Renderer_zero 37
                                  batch_ok_zero)))).
    unfold VERTEX_BUF_CAP. cbn [vertex_buf_sz Renderer_zero]. lia.
Defined.

Lemma checker_board_color_next (n : Z) :
  0 <= n ->
  (if decide (Z.rem (n + 1) 2 = 0) then true else false)
  = negb (if decide (Z.rem n 2 = 0) then true else false).
Proof.
  intros Hn. rewrite !Z.rem_mod_nonneg by lia.
  pose proof (Z.mod_pos_bound n 2 ltac:(lia)) as Hb.
  assert ((n + 1) mod 2 = (n mod 2 + 1) mod 2) as ->
    by (rewrite <- Zplus_mod_idemp_l; reflexivity).
  destruct (decide (n mod 2 = 0)) as [->|Hodd]; [reflexivity|].
  assert (n mod 2 = 1) as -> by lia. reflexivity.
Qed.

(** X3: the cells of the checker board alternate between red and black:
    the six vertices of the cell in column [x] of row [y] are red when
    [x + y] is even and black when it is odd, so a cell never has the
    colour of its neighbour to the right or of the one above it. *)
Theorem checker_board_colors_alternate (grid_size : Z) :
  color <$> checker_board_vertices grid_size
  = (checker_board_cells grid_size ≫= fun '(x, y) => replicate 6 (checker_board_color x y))
  /\ (forall x y, (x, y) ∈ checker_board_cells grid_size ->
        0 <= x < grid_size /\ 0 <= y < grid_size
        /\ checker_board_color (x + 1) y <> checker_board_color x y
        /\ checker_board_color x (y + 1) <> checker_board_color x y
        /\ (checker_board_color x y = v4f (f32_of_Z 1) (f32_of_Z 0) (f32_of_Z 0) (f32_of_Z 1)
            <-> Z.even (x + y) = true)).
Proof.
  split.
  - unfold checker_board_vertices. rewrite fmap_bind_list. apply bind_ext_list.
    intros [x y]. reflexivity.
  - intros x y Hin. unfold checker_board_cells in Hin.
    apply list_elem_of_bind in Hin as (y' & Hin & Hy).
    apply list_elem_of_bind in Hin as (x' & Hin & Hx).
    apply list_elem_of_singleton in Hin as [= Ex Ey]. subst x' y'.
    apply elem_of_seqZ in Hx, Hy. split; [lia|]. split; [lia|].
    assert (forall n, 0 <= n ->
              (if decide (Z.rem (n + 1) 2 = 0) then true else false)
              = negb (if decide (Z.rem n 2 = 0) then true else false)) as Hnext
      by exact checker_board_color_next.
    unfold checker_board_color.
    replace (x + 1 + y) with (x + y + 1) by lia.
    replace (x + (y + 1)) with (x + y + 1) by lia.
    specialize (Hnext (x + y) ltac:(lia)).
    assert (Z.even (x + y) = true <-> Z.rem (x + y) 2 = 0) as Heven.
    { rewrite Z.rem_mod_nonneg by lia. rewrite Zeven_bool_iff, Zeven_ex_iff. split.
      - intros [m ->]. rewrite Z.mul_comm. apply Z_mod_mult.
      - intros Hm. exists ((x + y) / 2). pose proof (Z_div_mod_eq_full (x + y) 2). lia. }
    destruct (decide (Z.rem (x + y) 2 = 0)) as [Hz|Hnz],
             (decide (Z.rem (x + y + 1) 2 = 0)) as [Hz1|Hnz1]; try discriminate Hnext.
    + split; [intros [= H]; vm_compute in H; discriminate H|].
      split; [intros [= H]; vm_compute in H; discriminate H|]. tauto.
    + split; [intros [= H]; vm_compute in H; discriminate H|].
      split; [intros [= H]; vm_compute in H; discriminate H|].
      split; [intros [= H]; vm_compute in H; discriminate H | intros H; tauto].
Qed.

(** * The buffer object and what is uploaded to it *)

(** X4: [renderer_init] allocates the buffer object for the whole of
    [vertex_buf], 8192 vertices of 32 bytes; and in every state the program
    reaches, [renderer_sync] writes the batch at offset 0 of it, 32 bytes
    for each vertex of the batch and never more than was allocated. *)
Theorem renderer_sync_within_allocation (env : Env) (s0 s : State) :
  reachable s ->
  GL (GlBufferData_ARRAY_BUFFER_DYNAMIC_DRAW 262144 (vertex_buf (global_renderer s0)))
    ∈ since s0 (final (renderer_init env s0))
  /\ renderer_sync s =
       Ret tt (set_trace (trace s ++
                 [GL (GlBufferSubData_ARRAY_BUFFER 0
                        (32 * Z.of_nat (length (batch (global_renderer s))))
                        (batch (global_renderer s)))]) s)
  /\ 0 <= 32 * Z.of_nat (length (batch (global_renderer s))) <= 262144.
Proof.
  intros Hreach. pose proof (reachable_batch_inv s Hreach) as Hok. split; [|split].
  - unfold renderer_init, since. run_state. cbn [trace set_trace].
    rewrite <- !app_assoc, drop_app_length. cbn [app]. solve_elem.
  - rewrite renderer_sync_run, (length_batch _ Hok). reflexivity.
  - rewrite (length_batch _ Hok). destruct Hok as [_ Hsz]. unfold VERTEX_BUF_CAP in Hsz. lia.
Qed.

Lemma renderer_sync_within_allocation_witness :
  let env := example_env example_files true true [] 0%float in
  let s := final (run_op (Op_main_startup env) State_init) in
  renderer_sync s =
    Ret tt (set_trace (trace s ++
              [GL (GlBufferSubData_ARRAY_BUFFER 0
                     (32 * Z.of_nat (length (batch (global_renderer s))))
                     (batch (global_renderer s)))]) s).
Proof.
  intros env s.
  apply (renderer_sync_within_allocation env State_init s).
  apply rtc_once. by exists (Op_main_startup env).
Defined.

(** * How the program ends *)

Lemma ends_in_bind {A B} (allowed : Ending -> Prop) (m : M A) (k : A -> M B) :
  ends_in allowed m -> (forall a, ends_in allowed (k a)) -> ends_in allowed (m ≫= k).
Proof.
  intros Hm Hk s. specialize (Hm s). unfold mbind, M_bind, bind.
  destruct (m s) as [a s'|c s'|s']; cbn [ending] in *; [apply Hk | exact Hm..].
Qed.

Create HintDb ends discriminated.

Section Ends.
Context (allowed : Ending -> Prop).
Hypothesis allowed_Returns : allowed Returns.

Lemma ends_in_ret {A} (a : A) : ends_in allowed (mret a : M A).
  Proof. intros s. exact allowed_Returns. Qed.

Lemma ends_in_gets {A} (g : State -> A) : ends_in allowed (gets g).
  Proof. intros s. exact allowed_Returns. Qed.

Lemma ends_in_modify (g : State -> State) : ends_in allowed (modify g).
  Proof. intros s. exact allowed_Returns. Qed.

Ltac ends_step :=
    lazymatch goal with
    | |- forall _, _ => intros
    | |- ends_in _ (mbind _ _) => apply ends_in_bind
    | |- ends_in _ (mret _) => apply ends_in_ret
    | |- ends_in _ (gets _) => apply ends_in_gets
    | |- ends_in _ (modify _) => apply ends_in_modify
    | |- ends_in _ (modify_renderer _) => apply ends_in_modify
    | |- ends_in _ (emit _) => apply ends_in_modify
    | |- ends_in _ (gl _) => apply ends_in_modify
    | |- ends_in _ (print _) => apply ends_in_modify
    | |- ends_in _ (match ?x with _ => _ end) => destruct x
    | |- ends_in _ _ => solve [auto with ends]
    end.

Lemma ends_in_load : ends_in allowed (load Addr_renderer_program).
  Proof. unfold load. repeat ends_step. Qed.

Lemma ends_in_store v : ends_in allowed (store Addr_renderer_program v).
  Proof. unfold store. repeat ends_step. Qed.
Hint Resolve ends_in_load ends_in_store : ends.

Lemma ends_in_compile_shader_source env src ty :
    ends_in allowed (compile_shader_source env src ty).
  Proof. unfold compile_shader_source. repeat ends_step. Qed.
Hint Resolve ends_in_compile_shader_source : ends.

Lemma ends_in_compile_shader_file env path ty sh :
    ends_in allowed (compile_shader_file env path ty sh).
  Proof. unfold compile_shader_file. repeat ends_step. Qed.
Hint Resolve ends_in_compile_shader_file : ends.

Lemma ends_in_link_program env v f :
    ends_in allowed (link_program env v f Addr_renderer_program).
  Proof. unfold link_program. repeat ends_step. Qed.
Hint Resolve ends_in_link_program : ends.

Lemma ends_in_load_shader_program env vp fp :
    ends_in allowed (load_shader_program env vp fp Addr_renderer_program).
  Proof. unfold load_shader_program. repeat ends_step. Qed.
Hint Resolve ends_in_load_shader_program : ends.

Lemma ends_in_resolve_uniform env u : ends_in allowed (resolve_uniform env u).
  Proof. unfold resolve_uniform. repeat ends_step. Qed.
Hint Resolve ends_in_resolve_uniform : ends.

Lemma ends_in_renderer_reload_shaders env : ends_in allowed (renderer_reload_shaders env).
  Proof. unfold renderer_reload_shaders. repeat ends_step. Qed.

Lemma ends_in_renderer_reload_textures env : ends_in allowed (renderer_reload_textures env).
  Proof. unfold renderer_reload_textures. repeat ends_step. Qed.

Lemma ends_in_renderer_sync : ends_in allowed renderer_sync.
  Proof. unfold renderer_sync. repeat ends_step. Qed.

Lemma ends_in_renderer_init env : ends_in allowed (renderer_init env).
  Proof. unfold renderer_init. repeat ends_step. Qed.

Lemma ends_in_screenshot env : ends_in allowed (screenshot env).
  Proof. unfold screenshot. repeat ends_step. Qed.

Lemma ends_in_window_size_callback w h : ends_in allowed (window_size_callback w h).
  Proof. unfold window_size_callback. repeat ends_step. Qed.

Hint Resolve ends_in_renderer_reload_shaders ends_in_renderer_reload_textures
    ends_in_renderer_sync ends_in_renderer_init ends_in_screenshot
    ends_in_window_size_callback : ends.

  (** What comes after the checks of [main], up to the loop. *)
Lemma ends_in_main_setup env (k : M double) :
    allowed Aborts -> ends_in allowed k ->
    ends_in allowed
      ((if env_has_glDebugMessageCallback env then
          gl GlEnable_DEBUG_OUTPUT;; gl GlDebugMessageCallback
        else mret tt);;
       gl GlEnable_BLEND;;
       gl GlBlendFunc_SRC_ALPHA_ONE_MINUS_SRC_ALPHA;;
       renderer_init env;;
       on_renderer (fun r =>
         renderer_push_quad r (v2f (f32_of_Z (-1)) (f32_of_Z (-1))) (v2f (f32_of_Z 1) (f32_of_Z 1))
           (v4f f32_zero f32_zero f32_zero f32_zero));;
       renderer_sync;;
       renderer_reload_textures env;;
       renderer_reload_shaders env;;
       k).
  Proof.
    intros Habort Hk.
    assert (forall f, ends_in allowed (on_renderer f)) as Hon.
    { intros f s. unfold on_renderer. destruct (f (global_renderer s)); assumption. }
    repeat first [apply Hon | exact Hk | ends_step].
  Qed.

Section Exits.
Hypothesis allowed_Exits_1 : allowed (Exits 1).

Lemma ends_in_exit {A} : ends_in allowed (exit 1 : M A).
    Proof. intros s. exact allowed_Exits_1. Qed.

Lemma ends_in_reload_render_conf env path : ends_in allowed (reload_render_conf env path).
    Proof.
      intros s. destruct (env_file env (Some (cstr path))) as [file|] eqn:E.
      - destruct (reload_render_conf_readable env path s file E) as (s' & -> & _).
        exact allowed_Returns.
      - rewrite (reload_render_conf_unreadable env path s E). exact allowed_Exits_1.
    Qed.
Hint Resolve ends_in_reload_render_conf : ends.

Ltac ends_step' :=
      lazymatch goal with
      | |- ends_in _ (exit 1) => apply ends_in_exit
      | |- _ => ends_step
      end.

Lemma ends_in_key_callback env key action : ends_in allowed (key_callback env key action).
    Proof. unfold key_callback. repeat ends_step'. Qed.
Hint Resolve ends_in_key_callback : ends.

Lemma ends_in_dispatch env inputs : ends_in allowed (dispatch env inputs).
    Proof. induction inputs as [|[] inputs IH]; cbn [dispatch]; repeat ends_step'. Qed.
Hint Resolve ends_in_dispatch : ends.

Lemma ends_in_frame env prev : ends_in allowed (frame env prev).
    Proof. unfold frame. repeat ends_step'. Qed.
Hint Resolve ends_in_frame : ends.

Lemma ends_in_main_loop frames : forall prev, ends_in allowed (main_loop frames prev).
    Proof. induction frames as [|env frames IH]; intros prev; cbn [main_loop]; repeat ends_step'. Qed.
End Exits.
End Ends.

Lemma returns_or_exits_1_Returns : returns_or_exits_1 Returns.
Proof. exact I. Qed.

Lemma returns_or_exits_1_Exits : returns_or_exits_1 (Exits 1).
Proof. reflexivity. Qed.

Lemma returns_or_aborts_Returns : returns_or_aborts Returns.
Proof. exact I. Qed.

Lemma returns_or_aborts_Aborts : returns_or_aborts Aborts.
Proof. exact I. Qed.

(** ** Triples *)

Lemma triple_bind {A B} (P : State -> Prop) (m : M A) (Q : A -> State -> Prop)
    (k : A -> M B) (R : B -> State -> Prop) :
  triple P m Q -> (forall a, triple (Q a) (k a) R) -> triple P (m ≫= k) R.
Proof.
  intros Hm Hk s Hs. specialize (Hm s Hs). unfold mbind, M_bind, bind.
  destruct (m s) as [a s'|c s'|s']; [by apply Hk | exact Hm..].
Qed.

Lemma triple_ret {A} (P : State -> Prop) (a : A) : triple P (mret a : M A) (fun _ => P).
Proof. intros s Hs. exact Hs. Qed.

Lemma triple_ends {A} (P : State -> Prop) (m : M A) :
  ends_in returns_or_exits_1 m -> triple P m (fun _ _ => True).
Proof. intros Hm s _. specialize (Hm s). by destruct (m s). Qed.

Lemma triple_view {A} (R : list Vertex * nat -> Prop) (m : M A) :
  keeps batch_view m -> ends_in returns_or_exits_1 m ->
  triple (at_view R) m (fun _ => at_view R).
Proof.
  intros Hk He s Hs. specialize (Hk s). specialize (He s). unfold at_view in *.
  destruct (m s) as [a s'|c s'|s']; cbn [final ending returns_or_exits_1] in *;
    [by rewrite Hk | exact He..].
Qed.

Lemma triple_push_quad (n : nat) (p1 p2 : V2f) (c : V4f) :
  (n + 6 <= VERTEX_BUF_CAP)%nat ->
  triple (at_view (fun v => length v.1 = VERTEX_BUF_CAP /\ v.2 = n))
         (on_renderer (fun r => renderer_push_quad r p1 p2 c))
         (fun _ => at_view (fun v => v.2 = (n + 6)%nat)).
Proof.
  intros Hcap s [Hlen Hsz]. unfold at_view, batch_view in *. cbn [fst snd] in *.
  unfold on_renderer. rewrite renderer_push_quad_push_all.
  destruct (push_all_batch (quad_vertices p1 p2 c) (global_renderer s)) as (r' & -> & _ & Hsz' & _).
  - split; [exact Hlen | lia].
  - cbn [quad_vertices length]. lia.
  - cbn [global_renderer set_global_renderer fst snd]. rewrite Hsz', Hsz. reflexivity.
Qed.

#[local] Hint Resolve keeps_batch_renderer_sync keeps_batch_renderer_init keeps_batch_renderer_reload_textures keeps_batch_renderer_reload_shaders keeps_batch_reload_render_conf keeps_batch_key_callback keeps_batch_window_size_callback keeps_batch_dispatch : keeps_batch.

Ltac ends_tac :=
  lazymatch goal with
  | |- ends_in _ (reload_render_conf _ _) => apply ends_in_reload_render_conf
  | |- ends_in _ (renderer_init _) => apply ends_in_renderer_init
  | |- ends_in _ renderer_sync => apply ends_in_renderer_sync
  | |- ends_in _ (renderer_reload_textures _) => apply ends_in_renderer_reload_textures
  | |- ends_in _ (renderer_reload_shaders _) => apply ends_in_renderer_reload_shaders
  | |- ends_in _ (on_renderer _) => fail
  | |- _ =>
      repeat lazymatch goal with
        | |- forall _, _ => intros
        | |- ends_in _ (mbind _ _) => apply ends_in_bind
        | |- ends_in _ (match ?x with _ => _ end) => destruct x
        | |- ends_in _ (exit 1) => apply ends_in_exit
        | |- ends_in _ (mret _) => apply ends_in_ret
        | |- ends_in _ (modify _) => apply ends_in_modify
        | |- ends_in _ (emit _) => apply ends_in_modify
        | |- ends_in _ (gl _) => apply ends_in_modify
        | |- ends_in _ (print _) => apply ends_in_modify
        end
  end;
  first [exact returns_or_exits_1_Returns | exact returns_or_exits_1_Exits].

(** [main] up to its loop: from a batch of [n] vertices with room for six
    more it returns with [n + 6], if it returns. *)
Lemma triple_main_startup (env : Env) (n : nat) :
  (n + 6 <= VERTEX_BUF_CAP)%nat ->
  triple (at_view (fun v => length v.1 = VERTEX_BUF_CAP /\ v.2 = n))
         (main_startup env)
         (fun _ => at_view (fun v => v.2 = (n + 6)%nat)).
Proof.
  intros Hcap. unfold main_startup.
  repeat (eapply triple_bind;
          [ apply triple_view;
            [ first [solve [auto with keeps_batch] | solve [keeps_batch_tac]] | solve [ends_tac] ]
          | intros ? ]).
  eapply triple_bind; [apply triple_push_quad; exact Hcap | intros ?].
  repeat (eapply triple_bind;
          [ apply triple_view;
            [ first [solve [auto with keeps_batch] | solve [keeps_batch_tac]] | solve [ends_tac] ]
          | intros ? ]).
  apply triple_ret.
Qed.

Lemma at_view_State_init :
  at_view (fun v => length v.1 = VERTEX_BUF_CAP /\ v.2 = 0%nat) State_init.
Proof. split; [apply length_replicate | reflexivity]. Qed.

(** X5: a run of [main] ends in one of two ways: [main] returns 0, when
    the window is closed, or the process leaves with [exit(1)]; the
    assertion of [renderer_push_vertex] and the write into the [render_conf]
    buffer never fail in it, whatever the files, the GL and the input are. *)
Theorem main_returns_0_or_exits_1 (env : Env) (frames : list Env) :
  match main env frames State_init with
  | Ret status _ => status = 0
  | Exited status _ => status = 1
  | Aborted _ => False
  end.
Proof.
  assert (triple (at_view (fun v => length v.1 = VERTEX_BUF_CAP /\ v.2 = 0%nat))
                 (main env frames) (fun status _ => status = 0)) as Hmain.
  { unfold main.
    eapply triple_bind; [apply (triple_main_startup env 0); unfold VERTEX_BUF_CAP; lia|].
    intros prev. eapply triple_bind.
    - apply triple_ends, ends_in_main_loop;
        [exact returns_or_exits_1_Returns | exact returns_or_exits_1_Exits].
    - intros [] s _. reflexivity. }
  exact (Hmain State_init at_view_State_init).
Qed.

(** * The draw calls of a run *)

Lemma keeps_trace_on_renderer {X} (f : list Event -> X) (g : Renderer -> option Renderer) :
  keeps (fun s => f (trace s)) (on_renderer g).
Proof. intros s. unfold on_renderer. by destruct (g (global_renderer s)). Qed.

Lemma keeps_draws_renderer_sync : keeps (fun s => draw_calls (trace s)) renderer_sync.
Proof. apply keeps_renderer_sync; first [exact draw_calls_dep | exact draw_calls_emit]. Qed.

Lemma keeps_draws_renderer_init env : keeps (fun s => draw_calls (trace s)) (renderer_init env).
Proof. apply keeps_renderer_init; first [exact draw_calls_dep | exact draw_calls_emit]. Qed.

Lemma keeps_draws_renderer_reload_textures env :
  keeps (fun s => draw_calls (trace s)) (renderer_reload_textures env).
Proof. apply keeps_renderer_reload_textures; first [exact draw_calls_dep | exact draw_calls_emit]. Qed.

Lemma keeps_draws_renderer_reload_shaders env :
  keeps (fun s => draw_calls (trace s)) (renderer_reload_shaders env).
Proof. apply keeps_renderer_reload_shaders; first [exact draw_calls_dep | exact draw_calls_emit]. Qed.

Lemma keeps_draws_reload_render_conf env path :
  keeps (fun s => draw_calls (trace s)) (reload_render_conf env path).
Proof. apply keeps_reload_render_conf; first [exact draw_calls_dep | exact draw_calls_emit]. Qed.

Lemma keeps_draws_main_startup env : keeps (fun s => draw_calls (trace s)) (main_startup env).
Proof.
  unfold main_startup.
  repeat lazymatch goal with
    | |- keeps _ (reload_render_conf _ _) => apply keeps_draws_reload_render_conf
    | |- keeps _ (renderer_init _) => apply keeps_draws_renderer_init
    | |- keeps _ renderer_sync => apply keeps_draws_renderer_sync
    | |- keeps _ (renderer_reload_textures _) => apply keeps_draws_renderer_reload_textures
    | |- keeps _ (renderer_reload_shaders _) => apply keeps_draws_renderer_reload_shaders
    | |- keeps _ (on_renderer _) => apply (keeps_trace_on_renderer draw_calls)
    | |- _ => keeps_step ltac:(intros ?; apply draw_calls_emit; reflexivity)
                         ltac:(apply keeps_modify; intros ?; reflexivity)
    end.
Qed.

Lemma final_bind {A B} (m : M A) (k : A -> M B) (s : State) :
  final ((m ≫= k) s) = match m s with
                       | Ret a s' => final (k a s')
                       | Exited _ s' => s'
                       | Aborted s' => s'
                       end.
Proof. unfold mbind, M_bind, bind. by destruct (m s). Qed.

Lemma draws_quad_frame (env : Env) (prev : double) (n : nat) (s : State) :
  draws_quad n s -> draws_quad (S n) (final (frame env prev s)).
Proof.
  intros (Hsz & Hall & Hlen). unfold draws_quad.
  pose proof (keeps_batch_frame env prev s) as Hview. unfold batch_view in Hview.
  injection Hview as _ Hsz'. rewrite Hsz', frame_draw_calls, Hsz.
  split; [reflexivity|].
  destruct (program_failed (global_renderer s)).
  - rewrite app_nil_r. split; [exact Hall | lia].
  - split; [apply Forall_app; split; [exact Hall | by constructor]|].
    rewrite length_app. cbn [length]. lia.
Qed.

Lemma draws_quad_main_loop (frames : list Env) : forall (prev : double) (n : nat) (s : State),
  draws_quad n s -> draws_quad (n + length frames) (final (main_loop frames prev s)).
Proof.
  induction frames as [|env frames IH]; intros prev n s Hs; cbn [main_loop length].
  - rewrite Nat.add_0_r. exact Hs.
  - rewrite final_bind. pose proof (draws_quad_frame env prev n s Hs) as Hf.
    destruct (frame env prev s) as [cur s'|c s'|s']; cbn [final] in Hf.
    + replace (n + S (length frames))%nat with (S n + length frames)%nat by lia.
      by apply IH.
    + destruct Hf as (? & ? & ?). split; [done|]. split; [done | lia].
    + destruct Hf as (? & ? & ?). split; [done|]. split; [done | lia].
Qed.

(** X6: whatever the files, the GL and the input are, every draw call of
    a run of [main] is [glDrawArraysInstanced(GL_TRIANGLES, 0, 6, 1)], the
    two triangles of the full-screen quad pushed at startup, and there is
    at most one draw call for each frame. *)
Theorem main_draws_the_quad (env : Env) (frames : list Env) :
  Forall (fun e => e = draw_quad) (draw_calls (trace (final (main env frames State_init))))
  /\ (length (draw_calls (trace (final (main env frames State_init)))) <= length frames)%nat.
Proof.
  unfold main. rewrite final_bind.
  pose proof (keeps_draws_main_startup env State_init) as Hdraws.
  pose proof (triple_main_startup env 0 ltac:(unfold VERTEX_BUF_CAP; lia) State_init
                at_view_State_init) as Hview.
  destruct (main_startup env State_init) as [prev s0|c s0|s0]; cbn [final] in Hdraws.
  - assert (draws_quad 0 s0) as Hs0.
    { split; [exact Hview|]. rewrite Hdraws. split; [constructor | reflexivity]. }
    rewrite final_bind.
    pose proof (draws_quad_main_loop frames prev 0 s0 Hs0) as (_ & Hall & Hlen).
    destruct (main_loop frames prev s0) as [[] s1|c s1|s1]; cbn [final] in *; done.
  - rewrite Hdraws. split; [constructor | cbn; lia].
  - rewrite Hdraws. split; [constructor | cbn; lia].
Qed.

(** * Startup failures *)

Lemma bind_Exited_inv {A B} (m : M A) (k : A -> M B) (s s' : State) (c : Z) :
  (m ≫= k) s = Exited c s' ->
  m s = Exited c s' \/ exists a s1, m s = Ret a s1 /\ k a s1 = Exited c s'.
Proof.
  unfold mbind, M_bind, bind. destruct (m s) as [a s1|c1 s1|s1]; [|intros [= -> ->]; by left|intros H; discriminate H].
  intros H. right. exists a, s1. done.
Qed.

Lemma gl_calls_Printf (ms : list Message) : gl_calls (Printf <$> ms) = [].
Proof. induction ms as [|m ms IH]; [reflexivity | exact IH]. Qed.

Lemma gl_calls_app (l1 l2 : list Event) : gl_calls (l1 ++ l2) = gl_calls l1 ++ gl_calls l2.
Proof. apply omap_app. Qed.

Lemma since_app (s s' : State) (evs : list Event) :
  trace s' = trace s ++ evs -> since s s' = evs.
Proof. intros H. unfold since. rewrite H. apply drop_app_length. Qed.

(** X7: [main] leaves with [exit(1)] before its loop exactly when
    "render.conf" cannot be read, GLFW cannot be initialised, the window
    cannot be created, or [glDrawArraysInstanced] is missing.  It has made
    no GL call by then, and has called [glfwTerminate] only if the window
    could not be created. *)
Theorem main_startup_exits_before_any_gl_call (env : Env) (s : State) :
  ((exists c s', main_startup env s = Exited c s')
   <-> (env_file env (Some (cstr "render.conf")) = None
        \/ env_glfwInit env = false \/ env_glfwCreateWindow env = false
        \/ env_has_glDrawArraysInstanced env = false))
  /\ (forall c s', main_startup env s = Exited c s' ->
        c = 1
        /\ gl_calls (since s s') = []
        /\ (GlfwTerminate ∈ since s s' -> env_glfwCreateWindow env = false)).
Proof.
  assert (forall c s', main_startup env s = Exited c s' ->
            (env_file env (Some (cstr "render.conf")) = None
             \/ env_glfwInit env = false \/ env_glfwCreateWindow env = false
             \/ env_has_glDrawArraysInstanced env = false)
            /\ c = 1 /\ gl_calls (since s s') = []
            /\ (GlfwTerminate ∈ since s s' -> env_glfwCreateWindow env = false)) as Hexit.
  { intros c s' H. unfold main_startup in H.
    apply bind_Exited_inv in H as [H|(? & s1 & Hconf & H)].
    { destruct (env_file env (Some (cstr "render.conf"))) as [file|] eqn:E.
      - destruct (reload_render_conf_readable env "render.conf" s file E) as (? & Hr & _).
        rewrite Hr in H. discriminate H.
      - rewrite (reload_render_conf_unreadable env "render.conf" s E) in H.
        injection H as <- <-. split; [by left|]. split; [reflexivity|].
        rewrite (since_app s _ [Printf (Err_could_not_load_conf "render.conf")]) by reflexivity.
        split; [reflexivity|]. intros Hin. apply list_elem_of_singleton in Hin. discriminate Hin. }
    assert (exists ms, trace s1 = trace s ++ (Printf <$> ms)) as [ms Htr1].
    { destruct (env_file env (Some (cstr "render.conf"))) as [file|] eqn:E.
      - destruct (reload_render_conf_readable env "render.conf" s file E)
          as (s1' & Hr & _ & _ & _ & _ & Htr & _).
        rewrite Hr in Hconf. injection Hconf as _ <-. by eexists.
      - rewrite (reload_render_conf_unreadable env "render.conf" s E) in Hconf.
        discriminate Hconf. }
    assert (forall tl : list Message,
              gl_calls ((Printf <$> ms) ++ (Printf <$> tl)) = []) as Hgl.
    { intros tl. by rewrite gl_calls_app, !gl_calls_Printf. }
    apply bind_Exited_inv in H as [H|(? & s2 & Hinit & H)].
    { destruct (env_glfwInit env) eqn:E; cbn [negb] in H; [discriminate H|].
      injection H as <- <-. split; [right; by left|]. split; [reflexivity|].
      erewrite since_app
        by (cbn [trace set_trace]; rewrite Htr1, <- app_assoc; reflexivity).
      split; [exact (Hgl [Err_could_not_initialize_GLFW])|].
      intros Hin. apply elem_of_app in Hin as [Hin|Hin].
      - apply list_elem_of_fmap in Hin as (? & [=] & _).
      - apply list_elem_of_singleton in Hin. discriminate Hin. }
    assert (s2 = s1) as ->.
    { destruct (env_glfwInit env); cbn [negb] in Hinit; [|discriminate Hinit].
      by injection Hinit. }
    apply bind_Exited_inv in H as [H|(? & s3 & Hwin & H)].
    { destruct (env_glfwCreateWindow env) eqn:E; cbn [negb] in H; [discriminate H|].
      injection H as <- <-. split; [right; right; by left|]. split; [reflexivity|].
      erewrite since_app
        by (cbn [trace set_trace]; rewrite Htr1, <- !app_assoc; reflexivity).
      split; [|done]. rewrite gl_calls_app, gl_calls_Printf. reflexivity. }
    assert (s3 = s1 /\ env_glfwCreateWindow env = true) as [-> Hwindow].
    { destruct (env_glfwCreateWindow env); cbn [negb] in Hwin; [|discriminate Hwin].
      by injection Hwin. }
    apply bind_Exited_inv in H as [H|(? & s4 & Hprint & H)]; [discriminate H|].
    injection Hprint as _ <-.
    apply bind_Exited_inv in H as [H|(? & s5 & Hdraw & H)].
    { destruct (env_has_glDrawArraysInstanced env) eqn:E; cbn [negb] in H; [discriminate H|].
      injection H as <- <-. split; [right; right; by right|]. split; [reflexivity|].
      erewrite since_app
        by (cbn [trace set_trace]; rewrite Htr1, <- !app_assoc; reflexivity).
      split; [exact (Hgl [Out_OpenGL_version _ _; Err_draw_instanced_required])|].
      intros Hin. apply elem_of_app in Hin as [Hin|Hin].
      - apply list_elem_of_fmap in Hin as (? & [=] & _).
      - repeat (apply elem_of_cons in Hin as [Hin|Hin]; [discriminate Hin|]).
        by apply elem_of_nil in Hin. }
    exfalso.
    pose proof (ends_in_main_setup returns_or_aborts returns_or_aborts_Returns env
                  (modify (set_time (env_glfwGetTime env));; mret 0%float)
                  returns_or_aborts_Aborts) as Hsetup.
    specialize (Hsetup ltac:(intros ?; exact I)).
    assert (returns_or_aborts (ending (@Exited double c s'))) as Hbad
      by (rewrite <- H; apply Hsetup).
    exact Hbad. }
  split.
  - split.
    + intros (c & s' & H). by destruct (Hexit c s' H).
    + intros Hwhy. unfold main_startup. cbv beta delta [mbind M_bind bind].
      destruct (env_file env (Some (cstr "render.conf"))) as [file|] eqn:E.
      * destruct (reload_render_conf_readable env "render.conf" s file E) as (s1 & -> & _).
        destruct (env_glfwInit env); cbn [negb]; [|by eexists _, _].
        destruct (env_glfwCreateWindow env); cbn [negb]; [|by eexists _, _].
        destruct (env_has_glDrawArraysInstanced env); cbn [negb]; [|by eexists _, _].
        destruct Hwhy as [?|[?|[?|?]]]; discriminate.
      * rewrite (reload_render_conf_unreadable env "render.conf" s E). by eexists _, _.
  - intros c s' H. by destruct (Hexit c s' H) as (_ & ? & ? & ?).
Qed.

(** * More on the shaders *)

Lemma shader_ops_app (l1 l2 : list Event) : shader_ops (l1 ++ l2) = shader_ops l1 ++ shader_ops l2.
Proof. apply omap_app. Qed.

Lemma compile_shader_source_ops (env : Env) (src : cstring) (ty : GLenum) (s : State) :
  exists ok sh s' evs,
    runs (compile_shader_source env src ty) s (ok, sh) s' evs
    /\ marks evs = [Compiled ok]
    /\ shader_ops evs = [Created sh].
Proof.
  unfold compile_shader_source, runs. run_state.
  case_if; run_state; do 4 eexists; (split; [split; [reflexivity|]|]);
    [ cbn [trace set_trace]; rewrite <- ?app_assoc; cbn [app]; reflexivity | split; reflexivity
    | cbn [trace set_trace]; rewrite <- ?app_assoc; cbn [app]; reflexivity | split; reflexivity ].
Qed.

Lemma compile_shader_file_ops (env : Env) (path : option cstring) (ty : GLenum) (sh0 : GLuint)
    (s : State) :
  exists ok sh s' evs,
    runs (compile_shader_file env path ty sh0) s (ok, sh) s' evs
    /\ (marks evs = [Read_failed] /\ ok = false /\ shader_ops evs = []
        \/ marks evs = [Compiled ok] /\ shader_ops evs = [Created sh]).
Proof.
  unfold compile_shader_file, slurp_file_into_malloced_cstr.
  destruct (env_file env path) as [content|] eqn:Hfile; cbn [mbind option_bind].
  - destruct (compile_shader_source_ops env (as_cstring (content ++ [NUL])) ty s)
      as (ok & sh & s1 & evs & [Hrun Htr] & Hmarks & Hops).
    unfold runs. cbv beta delta [mbind M_bind bind]. rewrite Hrun.
    destruct ok; run_state.
    + exists true, sh, s1, evs. split; [split; [reflexivity | exact Htr]|]. by right.
    + exists false, sh. eexists. exists (evs ++ [Printf (Err_failed_to_compile_file path)]).
      split; [split; [reflexivity|]|].
      * cbn [trace set_trace]. rewrite Htr, <- app_assoc. reflexivity.
      * right. rewrite marks_app, shader_ops_app, Hmarks, Hops. done.
  - unfold runs. run_state. do 4 eexists.
    split; [split; [reflexivity|]|]; cbn [trace set_trace]; [reflexivity|]. by left.
Qed.

Lemma link_program_ops (env : Env) (vert_shader frag_shader : GLuint) (s : State) :
  exists linked s' evs,
    runs (link_program env vert_shader frag_shader Addr_renderer_program) s true s' evs
    /\ marks evs = [Linked linked]
    /\ shader_ops evs = [Deleted vert_shader; Deleted frag_shader].
Proof.
  unfold link_program, runs. run_state.
  case_if; run_state; do 3 eexists; (split; [split; [reflexivity|]|]);
    [ cbn [trace set_trace]; rewrite <- ?app_assoc; cbn [app]; reflexivity | split; reflexivity
    | cbn [trace set_trace]; rewrite <- ?app_assoc; cbn [app]; reflexivity | split; reflexivity ].
Qed.

(** X8: the two shader objects are deleted by [link_program] only, so
    they are deleted when both files have been read and compiled, whatever
    the linker says then, and not otherwise: when a file cannot be read or
    a shader does not compile, [load_shader_program] returns [false] and
    every shader object created so far, the one that failed to compile
    among them, is left undeleted. *)
Theorem load_shader_program_leaves_shaders_on_failure
    (env : Env) (vp fp : option cstring) (s : State) :
  exists ok s' evs,
    runs (load_shader_program env vp fp Addr_renderer_program) s ok s' evs
    /\ (ok = true
        /\ (exists linked, marks evs = [Compiled true; Compiled true; Linked linked])
        /\ (exists v f, shader_ops evs = [Created v; Created f; Deleted v; Deleted f])
        \/ ok = false
           /\ (marks evs = [Read_failed] /\ shader_ops evs = []
               \/ marks evs = [Compiled false] /\ (exists v, shader_ops evs = [Created v])
               \/ marks evs = [Compiled true; Read_failed]
                  /\ (exists v, shader_ops evs = [Created v])
               \/ marks evs = [Compiled true; Compiled false]
                  /\ (exists v f, shader_ops evs = [Created v; Created f]))).
Proof.
  unfold load_shader_program.
  destruct (compile_shader_file_ops env vp GL_VERTEX_SHADER 0 s)
    as (ok1 & sh1 & s1 & e1 & [Hrun1 Htr1] & Hc1).
  unfold runs at 1. cbv beta delta [mbind M_bind bind]. rewrite Hrun1. cbv beta iota.
  destruct ok1; cbn [negb]; cycle 1.
  { exists false, s1, e1. split; [split; [reflexivity | exact Htr1]|]. right.
    split; [reflexivity|]. destruct Hc1 as [(Hm & _ & Ho)|(Hm & Ho)]; [by left|].
    right; left. split; [exact Hm | by eexists]. }
  destruct Hc1 as [(_ & [=] & _)|(Hm1 & Ho1)].
  destruct (compile_shader_file_ops env fp GL_FRAGMENT_SHADER 0 s1)
    as (ok2 & sh2 & s2 & e2 & [Hrun2 Htr2] & Hc2).
  rewrite Hrun2. cbv beta iota.
  assert (trace s2 = trace s ++ e1 ++ e2) as Htr12
    by (rewrite Htr2, Htr1, <- app_assoc; reflexivity).
  destruct ok2; cbn [negb]; cycle 1.
  { exists false, s2, (e1 ++ e2). split; [split; [reflexivity | exact Htr12]|]. right.
    split; [reflexivity|]. rewrite marks_app, shader_ops_app, Hm1, Ho1.
    destruct Hc2 as [(-> & _ & ->)|(-> & ->)].
    - right; right; left. split; [reflexivity | by eexists].
    - right; right; right. split; [reflexivity | by eexists _, _]. }
  destruct Hc2 as [(_ & [=] & _)|(Hm2 & Ho2)].
  destruct (link_program_ops env sh1 sh2 s2) as (linked & s3 & e3 & [Hrun3 Htr3] & Hm3 & Ho3).
  rewrite Hrun3. cbv beta iota. cbn [negb].
  exists true, s3, (e1 ++ e2 ++ e3). split; [split; [reflexivity|]|].
  { rewrite Htr3, Htr12, <- !app_assoc. reflexivity. }
  left. split; [reflexivity|]. rewrite !marks_app, !shader_ops_app, Hm1, Hm2, Hm3, Ho1, Ho2, Ho3.
  split; [by eexists | by eexists _, _].
Qed.

(** ** The renderer after a reload *)

Lemma program_failed_only_trace (s s' : State) :
  only_trace s s' -> global_renderer s' = global_renderer s.
Proof. unfold only_trace. intros ->. reflexivity. Qed.

(** The renderer and the first events of a reload that fails. *)
Lemma renderer_reload_shaders_state (env : Env) (s : State) :
  exists s' evs,
    runs (renderer_reload_shaders env) s tt s' evs
    /\ (program_failed (global_renderer s') = true
        /\ s' = set_trace (trace s')
                  (set_global_renderer (set_program_failed true (global_renderer s)) s)
        /\ head evs = Some (GL (GlDeleteProgram (program (global_renderer s))))
        \/ program_failed (global_renderer s') = false
           /\ exists p res tm ms pre,
                s' = set_trace (trace s')
                       (set_global_renderer
                          (set_program_failed false
                             (set_uniforms
                                (<[2%nat := ms]> (<[1%nat := tm]> (<[0%nat := res]>
                                   (uniforms (global_renderer s)))))
                                (set_program p (set_program_failed true (global_renderer s)))))
                          s)
                /\ evs = pre ++ [GL (GlUseProgram p);
                                 GL (GlGetUniformLocation p "resolution" res);
                                 GL (GlGetUniformLocation p "time" tm);
                                 GL (GlGetUniformLocation p "mouse" ms);
                                 GL (GlClearColor (f32_of_Z 0) (f32_of_Z 0) (f32_of_Z 0)
                                       (f32_of_Z 0));
                                 Printf Out_reloaded_shaders]).
Proof.
  unfold renderer_reload_shaders, resolve_uniform, runs. run_state.
  match goal with
  | |- context [load_shader_program env ?vp ?fp ?ptr ?st] =>
      destruct (load_shader_program_runs env vp fp st) as (ok & s1 & e1 & [Hrun Htr] & Hcases);
      rewrite Hrun; set (s0 := st) in *
  end.
  assert (trace s0 = trace s ++ [GL (GlDeleteProgram (program (global_renderer s)));
                                 GL (GlClearColor (f32_of_Z 1) (f32_of_Z 0) (f32_of_Z 0) (f32_of_Z 1))])
    as Htr0 by (unfold s0; cbn [trace set_trace]; rewrite <- app_assoc; reflexivity).
  destruct Hcases as [(-> & Honly & Hfl)|(-> & [p Hs1] & [linked Hm])]; cbn [negb].
  - exists s1. eexists. split; [split; [reflexivity|]|].
    { rewrite Htr, Htr0, <- app_assoc. reflexivity. }
    left. rewrite Honly. split; [reflexivity|]. split; [|reflexivity].
    unfold s0. destruct s. reflexivity.
  - run_state.
    repeat match goal with
           | |- context [env_gl_uniform_location env ?tr ?q ?n] =>
               set (env_gl_uniform_location env tr q n)
           end.
    eexists. eexists. split; [split; [reflexivity|]|].
    { cbn [trace set_trace]. rewrite Htr, Htr0, <- !app_assoc. reflexivity. }
    right. rewrite Hs1. split; [reflexivity|].
    cbn [global_renderer set_global_renderer set_trace program set_program uniforms set_uniforms
         trace].
    eexists p, _, _, _, ([_; _] ++ e1). split.
    2: { apply app_assoc. }
    unfold s0. reflexivity.
Qed.

(** X9: a reload that ends [Failed] changes nothing in the renderer but
    the flag: [program] still names the program object that the reload
    has deleted with its first GL call, and the uniform locations are
    those of that program. *)
Theorem renderer_reload_shaders_failure_keeps_deleted_program (env : Env) (s : State) :
  let s' := final (renderer_reload_shaders env s) in
  program_failed (global_renderer s') = true ->
  s' = set_trace (trace s')
         (set_global_renderer (set_program_failed true (global_renderer s)) s)
  /\ program (global_renderer s') = program (global_renderer s)
  /\ uniforms (global_renderer s') = uniforms (global_renderer s)
  /\ head (since s s') = Some (GL (GlDeleteProgram (program (global_renderer s')))).
Proof.
  intros s'. subst s'.
  destruct (renderer_reload_shaders_state env s) as (s' & evs & Hruns & Hcases).
  destruct (runs_since _ _ _ _ _ Hruns) as [-> ->].
  intros Hpf. destruct Hcases as [(_ & Hs' & Hhead)|(Hpf' & _)]; [|congruence].
  split; [exact Hs'|]. rewrite Hs' at 1 2 3. cbn [global_renderer set_trace set_global_renderer
    program uniforms set_program_failed]. done.
Qed.

Lemma renderer_reload_shaders_failure_keeps_deleted_program_witness :
  let env := example_env [("render.conf", example_conf)] true true [] 0%float in
  let s := set_global_renderer (set_program 7 Renderer_zero) State_init in
  let s' := final (renderer_reload_shaders env s) in
  program (global_renderer s') = 7
  /\ head (since s s') = Some (GL (GlDeleteProgram 7)).
Proof.
  intros env s s'.
  destruct (renderer_reload_shaders_failure_keeps_deleted_program env s) as (_ & Hp & _ & Hd).
  - vm_compute. reflexivity.
  - fold s' in Hp, Hd. rewrite Hd, Hp. done.
Defined.

Lemma insert_three (l : list GLint) (a b c : GLint) :
  length l = COUNT_UNIFORMS ->
  <[2%nat := c]> (<[1%nat := b]> (<[0%nat := a]> l)) = [a; b; c].
Proof. destruct l as [|? [|? [|? [|? ?]]]]; intros [=]. reflexivity. Qed.

(** X10: after a reload that ends [Loaded], the renderer holds the
    program that was made current and the three locations that
    [glGetUniformLocation] answered for "resolution", "time" and "mouse",
    and a frame then sends the size of the window to the first, the clock
    as a [float] to the second, and the cursor with its [y] counted from the
    bottom of the window to the third, before it draws the batch. *)
Theorem reloaded_uniforms_are_set_by_the_frame (env env' : Env) (prev : double) (s : State) :
  let s' := final (renderer_reload_shaders env s) in
  length (uniforms (global_renderer s)) = COUNT_UNIFORMS ->
  program_failed (global_renderer s') = false ->
  env_input env' = [] ->
  exists p res tm ms pre,
    program (global_renderer s') = p
    /\ uniforms (global_renderer s') = [res; tm; ms]
    /\ since s s' = pre ++ [GL (GlUseProgram p);
                            GL (GlGetUniformLocation p "resolution" res);
                            GL (GlGetUniformLocation p "time" tm);
                            GL (GlGetUniformLocation p "mouse" ms);
                            GL (GlClearColor (f32_of_Z 0) (f32_of_Z 0) (f32_of_Z 0) (f32_of_Z 0));
                            Printf Out_reloaded_shaders]
    /\ since s' (final (frame env' prev s')) =
         [GL GlClear_COLOR_BUFFER_BIT;
          GL (GlUniform2f res (f32_of_Z (env_window_size env').1)
                (f32_of_Z (env_window_size env').2));
          GL (GlUniform1f tm (f32_of_double (time s)));
          GL (GlUniform2f ms (f32_of_double (env_cursor_pos env').1)
                (f32_of_double (double_of_int (env_window_size env').2
                                - (env_cursor_pos env').2)%float));
          GL (GlDrawArraysInstanced_TRIANGLES 0
                (Z.of_nat (vertex_buf_sz (global_renderer s))) 1);
          GlfwSwapBuffers; GlfwPollEvents].
Proof.
  intros s'. subst s'.
  destruct (renderer_reload_shaders_state env s) as (s' & evs & Hruns & Hcases).
  destruct (runs_since _ _ _ _ _ Hruns) as [-> ->].
  intros Hlen Hpf Hinput. destruct Hcases as [(Hpf' & _)|(_ & p & res & tm & ms & pre & Hs' & ->)];
    [congruence|].
  rewrite (insert_three _ _ _ _ Hlen) in Hs'.
  exists p, res, tm, ms, pre.
  split; [rewrite Hs'; reflexivity|]. split; [rewrite Hs'; reflexivity|]. split; [reflexivity|].
  apply since_app. unfold frame. rewrite Hinput. run_state. rewrite Hpf. cbn [negb].
  destruct (env_window_size env') as [width height], (env_cursor_pos env') as [xpos ypos].
  run_state. cbn [dispatch]. run_state.
  assert (time s' = time s) as Ht by (rewrite Hs'; reflexivity).
  assert (vertex_buf_sz (global_renderer s') = vertex_buf_sz (global_renderer s)) as Hsz
    by (rewrite Hs'; reflexivity).
  assert (uniform_slot (global_renderer s') RESOLUTION_UNIFORM = res
          /\ uniform_slot (global_renderer s') TIME_UNIFORM = tm
          /\ uniform_slot (global_renderer s') MOUSE_UNIFORM = ms) as (-> & -> & ->)
    by (rewrite Hs'; done).
  rewrite Ht, Hsz.
  destruct (pause s'); run_state; cbn [trace set_trace time set_time]; rewrite <- !app_assoc;
    reflexivity.
Qed.

Lemma reloaded_uniforms_are_set_by_the_frame_witness :
  let env := example_env example_files true true [] 2%float in
  let s := final (reload_render_conf env "render.conf" State_init) in
  let s' := final (renderer_reload_shaders env s) in
  exists p pre,
    since s s' = pre ++ [GL (GlUseProgram p);
                         GL (GlGetUniformLocation p "resolution" 0);
                         GL (GlGetUniformLocation p "time" 1);
                         GL (GlGetUniformLocation p "mouse" 2);
                         GL (GlClearColor (f32_of_Z 0) (f32_of_Z 0) (f32_of_Z 0) (f32_of_Z 0));
                         Printf Out_reloaded_shaders]
    /\ since s' (final (frame env 0%float s')) =
         [GL GlClear_COLOR_BUFFER_BIT;
          GL (GlUniform2f 0 (f32_of_Z 1600) (f32_of_Z 900));
          GL (GlUniform1f 1 (f32_of_double 0%float));
          GL (GlUniform2f 2 (f32_of_double 100%float) (f32_of_double 850%float));
          GL (GlDrawArraysInstanced_TRIANGLES 0 0 1);
          GlfwSwapBuffers; GlfwPollEvents].
Proof.
  intros env s s'.
  destruct (reloaded_uniforms_are_set_by_the_frame env env 0%float s)
    as (p & res & tm & ms & pre & Hp & Hu & Hev & Hframe); [reflexivity..|].
  fold s' in Hp, Hu, Hev, Hframe.
  assert (uniforms (global_renderer s') = [0; 1; 2]) as Hu' by (vm_compute; reflexivity).
  rewrite Hu in Hu'. injection Hu' as -> -> ->.
  exists p, pre. split; [exact Hev|]. rewrite Hframe. reflexivity.
Defined.

(** * Keys *)

(** The keys [key_callback] reacts to. *)
Lemma key_callback_other_key (env : Env) (key : Z) (s : State) :
  key <> GLFW_KEY_F5 -> key <> GLFW_KEY_F6 -> key <> GLFW_KEY_SPACE -> key <> GLFW_KEY_Q ->
  key <> GLFW_KEY_LEFT -> key <> GLFW_KEY_RIGHT ->
  key_callback env key GLFW_PRESS s = Ret tt s.
Proof.
  intros. unfold key_callback. rewrite decide_True by reflexivity.
  rewrite !decide_False by assumption. run_state. by destruct (pause s).
Qed.

(** X11: [key_callback] acts on presses only: a release or a repeat of
    any key, the arrow keys held down among them, changes nothing and
    calls nothing; nor does a press of a key other than F5, F6, space, Q
    and the two arrow keys. *)
Theorem key_callback_ignores_releases_and_repeats (env : Env) (key action : Z) (s : State) :
  action <> GLFW_PRESS
  \/ (key <> GLFW_KEY_F5 /\ key <> GLFW_KEY_F6 /\ key <> GLFW_KEY_SPACE /\ key <> GLFW_KEY_Q
      /\ key <> GLFW_KEY_LEFT /\ key <> GLFW_KEY_RIGHT) ->
  key_callback env key action s = Ret tt s.
Proof.
  intros [Hrelease|(? & ? & ? & ? & ? & ?)].
  - by apply key_callback_not_press.
  - destruct (decide (action = GLFW_PRESS)) as [->|Hne].
    + by apply key_callback_other_key.
    + by apply key_callback_not_press.
Qed.

Lemma key_callback_ignores_releases_and_repeats_witness :
  let s := set_pause true State_init in
  (* GLFW_REPEAT of the right arrow, while paused *)
  key_callback (example_env example_files true true [] 0%float) GLFW_KEY_RIGHT 2 s = Ret tt s.
Proof.
  intros s. apply key_callback_ignores_releases_and_repeats. left. discriminate.
Defined.

(** X12: a press of Q ends the process with [exit(1)] at once: the
    state is as it was when the key arrived, the inputs after it in the
    same poll are not handled, the clock is not advanced, and no later
    frame is run. *)
Theorem q_key_exits_at_once (env : Env) (prev : double) (s : State) (rest : list Input) :
  env_input env = Key GLFW_KEY_Q GLFW_PRESS :: rest ->
  key_callback env GLFW_KEY_Q GLFW_PRESS s = Exited 1 s
  /\ exists s',
       frame env prev s = Exited 1 s'
       /\ only_trace s s'
       /\ last (trace s') = Some GlfwPollEvents
       /\ forall more, main_loop (env :: more) prev s = Exited 1 s'.
Proof.
  intros Hinput. split; [reflexivity|].
  assert (exists s', frame env prev s = Exited 1 s' /\ only_trace s s'
                     /\ last (trace s') = Some GlfwPollEvents) as (s' & Hframe & Honly & Hlast).
  { unfold frame. rewrite Hinput. cbn [dispatch]. unfold key_callback. decide_keys. run_state.
    destruct (program_failed (global_renderer s)); cbn [negb];
      destruct (env_window_size env) as [width height], (env_cursor_pos env) as [xpos ypos];
      run_state; eexists; (split; [reflexivity|]); unfold only_trace;
      cbn [trace set_trace]; (split; [by destruct s | apply last_snoc]). }
  exists s'. do 3 (split; [done|]). intros more. cbn [main_loop].
  cbv beta delta [mbind M_bind bind]. by rewrite Hframe.
Qed.

Lemma q_key_exits_at_once_witness :
  let env := example_env example_files true true
               [Key GLFW_KEY_Q GLFW_PRESS; Key GLFW_KEY_SPACE GLFW_PRESS] 1%float in
  exists s', main_loop [env; env] 0%float State_init = Exited 1 s' /\ pause s' = false.
Proof.
  intros env.
  destruct (q_key_exits_at_once env 0%float State_init [Key GLFW_KEY_SPACE GLFW_PRESS] eq_refl)
    as (_ & s' & _ & Honly & _ & Hloop).
  exists s'. split; [apply Hloop|]. rewrite Honly. reflexivity.
Defined.

(** X13: a press of F6 saves a screenshot and changes nothing in the
    state of the program: it reads the pixels of the whole window, hands
    them to [stbi_write_png] with the size of the window, and goes on even
    if the file cannot be written; if the memory for the pixels cannot be
    had, it reads and writes nothing. *)
Theorem screenshot_key_reads_then_writes (env : Env) (s : State) :
  exists evs,
    key_callback env GLFW_KEY_F6 GLFW_PRESS s = Ret tt (set_trace (trace s ++ evs) s)
    /\ evs =
         Printf Out_saving_screenshot ::
         (if env_malloc_ok env then
            [GL (GlReadPixels_RGBA 0 0 (env_window_size env).1 (env_window_size env).2);
             Stbi_write_png (env_window_size env).1 (env_window_size env).2
               (env_stbi_write_png env)]
            ++ (if env_stbi_write_png env then [] else [Printf Err_could_not_save_screenshot])
          else [Printf Err_screenshot_no_memory]).
Proof.
  unfold key_callback, screenshot. decide_keys.
  destruct (env_window_size env) as [width height]. run_state.
  destruct (env_malloc_ok env), (env_stbi_write_png env); cbn [negb]; run_state;
    destruct (pause s) eqn:Hp; run_state; decide_keys; run_state;
    eexists; (split; [|reflexivity]); cbn [trace set_trace app fst snd];
    rewrite <- ?app_assoc; destruct s; cbn in Hp |- *; try subst; reflexivity.
Qed.

(** * Pausing and resuming *)





(** The clock of a later frame, for the record of two frames in a row. *)
Lemma later_frames_add_elapsed_time_witness :
  let env := fun now => example_env example_files true true [] now in
  exists s1 s2,
    frame (env 3%float) 1%float (set_time 5%float State_init) = Ret 3%float s1
    /\ main_loop [env 3%float; env 4.5%float] 1%float (set_time 5%float State_init) = Ret tt s2
    /\ time s2 = (time s1 + 1.5)%float.
Proof.
  intros env.
  destruct (later_frames_add_elapsed_time (env 3%float) (env 4.5%float) 1%float
              (set_time 5%float State_init)) as (s1 & s2 & H1 & H2 & Ht);
    [reflexivity | constructor | constructor |].
  exists s1, s2. split; [exact H1|]. split; [exact H2|]. rewrite Ht. reflexivity.
Defined.

(** A reload that stops at a file or a shader, for the record of a
    vertex shader that does not compile. *)
Lemma renderer_reload_shaders_compile_failure_witness :
  let env := example_env [("render.conf", example_conf);
                          ("shaders/a.vert", cstr "syntax error");
                          ("shaders/a.frag", cstr "void main() {}")] true true [] 0%float in
  let s := final (reload_render_conf env "render.conf" State_init) in
  let s' := final (renderer_reload_shaders env s) in
  program_failed (global_renderer s') = true
  /\ clear_color (trace s') = Some red
  /\ draw_calls (trace (final (frame env 0%float s'))) = [].
Proof.
  intros env s s'.
  destruct (renderer_reload_shaders_compile_failure env s) as (_ & Hpf & Hcc & _ & Hdraw).
  - right. vm_compute. solve_elem.
  - split; [exact Hpf|]. split; [exact Hcc|]. rewrite Hdraw. vm_compute. reflexivity.
Defined.

(** * More on the files *)

(** What [strlen] sees of a file that has been read: its bytes before
    the first NUL of its own, all of them if it has none. *)
Lemma as_cstring_before (content : list ascii) :
  as_cstring (content ++ [NUL]) = before NUL content.
Proof.
  unfold as_cstring, cstr_at. rewrite drop_0.
  induction content as [|c l IH]; [reflexivity|]. cbn [app strlen before].
  destruct (decide (c = NUL)); [reflexivity|]. cbn [take]. f_equal. exact IH.
Qed.

Lemma compile_shader_file_source (env : Env) (path : option cstring) (ty : GLenum)
    (sh0 : GLuint) (s : State) (content : list ascii) :
  env_file env path = Some content ->
  exists ok sh s',
    compile_shader_file env path ty sh0 s = Ret (ok, sh) s'
    /\ GL (GlShaderSource sh (before NUL content)) ∈ since s s'
    /\ GL (GlGetShaderiv_COMPILE_STATUS sh ok) ∈ since s s'.
Proof.
  intros Hfile. unfold compile_shader_file, slurp_file_into_malloced_cstr.
  rewrite Hfile. cbn [mbind option_bind]. rewrite as_cstring_before.
  unfold compile_shader_source. run_state.
  case_if; run_state; do 3 eexists; (split; [reflexivity|]); unfold since;
    cbn [trace set_trace]; rewrite <- !app_assoc, drop_app_length; cbn [app];
    split; solve_elem.
Qed.

(** X15: a file is read whole but used as a C string: the source handed
    to [glShaderSource], and the text of "render.conf" that is scanned for
    entries, are the bytes of the file before its first NUL byte, and all
    of its bytes if there is none. *)
Theorem files_are_used_up_to_their_first_NUL (env : Env) (s : State) (content : list ascii) :
  (forall path ty sh0,
     env_file env path = Some content ->
     exists ok sh s',
       compile_shader_file env path ty sh0 s = Ret (ok, sh) s'
       /\ GL (GlShaderSource sh (before NUL content)) ∈ since s s')
  /\ (forall path,
        env_file env (Some (cstr path)) = Some content ->
        exists s',
          reload_render_conf env path s = Ret tt s'
          /\ paths_of s' = conf_paths (conf_entries (before NUL content)))
  /\ (NUL ∉ content -> before NUL content = content)
  /\ (forall l1 l2, content = l1 ++ NUL :: l2 -> NUL ∉ l1 -> before NUL content = l1).
Proof.
  split; [|split; [|split]].
  - intros path ty sh0 Hfile.
    destruct (compile_shader_file_source env path ty sh0 s content Hfile)
      as (ok & sh & s' & Hrun & Hsrc & _).
    by exists ok, sh, s'.
  - intros path Hfile.
    destruct (reload_render_conf_readable env path s content Hfile)
      as (s' & Hrun & _ & _ & _ & _ & _ & Hpaths).
    exists s'. by rewrite <- as_cstring_before.
  - intros Hnot. by apply before_notin.
  - intros l1 l2 -> Hnot. induction l1 as [|c l1 IH]; cbn [app before].
    + by rewrite decide_True.
    + apply not_elem_of_cons in Hnot as [Hc Hnot]. rewrite decide_False by done.
      f_equal. by apply IH.
Qed.

(** ** Entries of the same key, and lines without [=] *)

Lemma cstr_frag_vert : cstr "frag" <> cstr "vert".
Proof. intros H. vm_compute in H. discriminate H. Qed.

Lemma cstr_texture_vert : cstr "texture" <> cstr "vert".
Proof. intros H. vm_compute in H. discriminate H. Qed.

Lemma cstr_texture_frag : cstr "texture" <> cstr "frag".
Proof. intros H. vm_compute in H. discriminate H. Qed.

Lemma conf_paths_last_vert (es es' : list ConfLine) (col : nat) (value : list ascii) (ps : Paths) :
  ~ has_key (cstr "vert") es' ->
  the_vert (foldl conf_apply ps (es ++ Entry col (cstr "vert") value :: es')) = Some value.
Proof.
  intros Hno. rewrite foldl_app. cbn [foldl]. rewrite conf_paths_no_vert by exact Hno.
  cbn [conf_apply]. by rewrite decide_True.
Qed.

Lemma conf_paths_last_frag (es es' : list ConfLine) (col : nat) (value : list ascii) (ps : Paths) :
  ~ has_key (cstr "frag") es' ->
  the_frag (foldl conf_apply ps (es ++ Entry col (cstr "frag") value :: es')) = Some value.
Proof.
  intros Hno. rewrite foldl_app. cbn [foldl]. rewrite conf_paths_no_frag by exact Hno.
  cbn [conf_apply]. rewrite decide_False by exact cstr_frag_vert. by rewrite decide_True.
Qed.

Lemma conf_paths_last_texture (es es' : list ConfLine) (col : nat) (value : list ascii)
    (ps : Paths) :
  ~ has_key (cstr "texture") es' ->
  the_texture (foldl conf_apply ps (es ++ Entry col (cstr "texture") value :: es')) = Some value.
Proof.
  intros Hno. rewrite foldl_app. cbn [foldl]. rewrite conf_paths_no_texture by exact Hno.
  cbn [conf_apply]. rewrite decide_False by exact cstr_texture_vert.
  rewrite decide_False by exact cstr_texture_frag. by rewrite decide_True.
Qed.

(** X16: when "render.conf" has several entries of the same key, the
    last of them gives the path: an entry of [vert], [frag] or [texture]
    that no entry of the same key follows is the one the pointer shows
    after the reload. *)
Theorem reload_render_conf_last_entry_wins (env : Env) (path : string) (s : State)
    (file : list ascii) :
  env_file env (Some (cstr path)) = Some file ->
  exists s',
    reload_render_conf env path s = Ret tt s'
    /\ forall es es' col value,
         (conf_entries (as_cstring (file ++ [NUL])) = es ++ Entry col (cstr "vert") value :: es' ->
          ~ has_key (cstr "vert") es' -> deref s' (vert_path s') = Some value)
         /\ (conf_entries (as_cstring (file ++ [NUL])) = es ++ Entry col (cstr "frag") value :: es' ->
             ~ has_key (cstr "frag") es' -> deref s' (frag_path s') = Some value)
         /\ (conf_entries (as_cstring (file ++ [NUL]))
             = es ++ Entry col (cstr "texture") value :: es' ->
             ~ has_key (cstr "texture") es' -> deref s' (texture_path s') = Some value).
Proof.
  intros Hfile.
  destruct (reload_render_conf_readable env path s file Hfile)
    as (s' & Hrun & _ & _ & _ & _ & _ & Hpaths).
  exists s'. split; [exact Hrun|]. intros es es' col value.
  unfold conf_paths in Hpaths. split; [|split]; intros Hes Hno.
  - change (the_vert (paths_of s') = Some value). rewrite Hpaths, Hes.
    by apply conf_paths_last_vert.
  - change (the_frag (paths_of s') = Some value). rewrite Hpaths, Hes.
    by apply conf_paths_last_frag.
  - change (the_texture (paths_of s') = Some value). rewrite Hpaths, Hes.
    by apply conf_paths_last_texture.
Qed.

Lemma reload_render_conf_last_entry_wins_witness :
  let env := example_env [("render.conf", lines_of ["vert = a.vert"; "vert = b.vert"])]
               false true [] 0%float in
  let s' := final (reload_render_conf env "render.conf" State_init) in
  deref s' (vert_path s') = Some (cstr "b.vert").
Proof.
  intros env s'.
  destruct (reload_render_conf_last_entry_wins env "render.conf" State_init
              (lines_of ["vert = a.vert"; "vert = b.vert"]) eq_refl) as (s1 & Hrun & Hlast).
  unfold s'. rewrite Hrun. cbn [final].
  apply (Hlast [Entry 0 (cstr "vert") (cstr "a.vert")] [] 0%nat (cstr "b.vert")).
  - vm_compute. reflexivity.
  - intros (col & value & Hin). by apply elem_of_nil in Hin.
Defined.

Lemma trim_left_idemp (l : list ascii) : trim_left (trim_left l) = trim_left l.
Proof.
  destruct (trim_left l) as [|c l'] eqn:E; [reflexivity|].
  apply trim_left_nonspace. by apply (trim_left_head l c l').
Qed.

Lemma conf_lines_single (l : list ascii) : l <> [] -> newline ∉ l -> conf_lines l = [l].
Proof.
  intros Hne Hnot. rewrite conf_lines_step by exact Hne.
  destruct (before_notin newline l Hnot) as [-> ->]. reflexivity.
Qed.

(** X17: a line without [=] is an entry all the same: the whole line,
    trimmed, is its key and its value is the empty string.  So a
    "render.conf" that is the one word [vert], with blanks around it or
    not, sets the vertex path to the empty string and the other two paths
    to null. *)
Theorem reload_render_conf_line_without_equals (env : Env) (path : string) (s : State)
    (file : list ascii) :
  env_file env (Some (cstr path)) = Some file ->
  NUL ∉ file -> newline ∉ file -> "="%char ∉ file ->
  trim file = cstr "vert" ->
  exists s',
    reload_render_conf env path s = Ret tt s'
    /\ paths_of s' = mkPaths (Some []) None None
    /\ since s s' = [Printf (Out_vertex_path [])].
Proof.
  intros Hfile Hnul Hnl Heq Hkey.
  destruct (reload_render_conf_readable env path s file Hfile)
    as (s' & Hrun & _ & _ & _ & _ & Htrace & Hpaths).
  exists s'. split; [exact Hrun|].
  rewrite as_cstring_before in Hpaths, Htrace.
  destruct (before_notin NUL file Hnul) as [Hb _]. rewrite Hb in Hpaths, Htrace. clear Hb.
  assert (file <> []) as Hne by (intros ->; vm_compute in Hkey; discriminate Hkey).
  assert (conf_entries file
          = [Entry (length file - length (trim_left file)) (cstr "vert") []]) as Hentries.
  { unfold conf_entries. rewrite (conf_lines_single file Hne Hnl). cbn [fmap list_fmap].
    f_equal. unfold conf_line.
    destruct (trim_left file) as [|c l'] eqn:Hl.
    { unfold trim in Hkey. rewrite Hl in Hkey. vm_compute in Hkey. discriminate Hkey. }
    destruct (trim_left_suffix file) as (sp & Hsp & _).
    assert ("="%char ∉ trim_left file) as Heq'.
    { intros Hin. apply Heq. rewrite Hsp. apply elem_of_app. by right. }
    rewrite Hl in Heq'. destruct (before_notin _ _ Heq') as [-> ->].
    assert (trim (c :: l') = cstr "vert") as Hkey'.
    { unfold trim in *. rewrite <- Hl, trim_left_idemp. exact Hkey. }
    rewrite Hkey'.
    destruct (decide (c = "#"%char)) as [->|_]; [|reflexivity].
    exfalso. unfold trim in Hkey'. rewrite trim_left_nonspace in Hkey' by reflexivity.
    destruct (trim_right_prefix ("#"%char :: l')) as (sp' & Hp). rewrite Hkey' in Hp.
    vm_compute in Hp. discriminate Hp. }
  rewrite Hentries in Hpaths, Htrace. split; [exact Hpaths|].
  apply since_app. rewrite Htrace. reflexivity.
Qed.

Lemma reload_render_conf_line_without_equals_witness :
  let env := example_env [("render.conf", cstr "  vert ")] false true [] 0%float in
  let s' := final (reload_render_conf env "render.conf" State_init) in
  paths_of s' = mkPaths (Some []) None None.
Proof.
  intros env s'.
  destruct (reload_render_conf_line_without_equals env "render.conf" State_init
              (cstr "  vert ") eq_refl) as (s1 & Hrun & Hpaths & _).
  - vm_compute. intros Hin.
    repeat (apply elem_of_cons in Hin as [Hin|Hin]; [discriminate Hin|]).
    by apply elem_of_nil in Hin.
  - vm_compute. intros Hin.
    repeat (apply elem_of_cons in Hin as [Hin|Hin]; [discriminate Hin|]).
    by apply elem_of_nil in Hin.
  - vm_compute. intros Hin.
    repeat (apply elem_of_cons in Hin as [Hin|Hin]; [discriminate Hin|]).
    by apply elem_of_nil in Hin.
  - vm_compute. reflexivity.
  - unfold s'. rewrite Hrun. exact Hpaths.
Defined.

(** * The reload key *)





(** * What goes with the state of the renderer *)

(** Observations that depend on the trace, the batch and the flag only,
    and on the trace only through its draw calls, its changes of the clear
    colour and its uploads: the functions below keep them. *)
Section Calm.
Context {X : Type} (f : State -> X).
Hypothesis f_dep : forall s s',
    trace s' = trace s -> batch_view s' = batch_view s ->
    program_failed (global_renderer s') = program_failed (global_renderer s) -> f s' = f s.
Hypothesis f_emit : forall s e, loud e = false -> f (set_trace (trace s ++ [e]) s) = f s.

Lemma calm_emit e : loud e = false -> keeps f (emit e).
  Proof. intros He s. by apply f_emit. Qed.

Lemma calm_modify (g : State -> State) :
    (forall s, trace (g s) = trace s) -> (forall s, batch_view (g s) = batch_view s) ->
    (forall s, program_failed (global_renderer (g s)) = program_failed (global_renderer s)) ->
    keeps f (modify g).
  Proof. intros Ht Hb Hp s. apply f_dep; [apply Ht | apply Hb | apply Hp]. Qed.

Ltac calm :=
    repeat keeps_step ltac:(apply calm_emit; reflexivity)
                      ltac:(apply calm_modify; intros ?; reflexivity).

Lemma calm_load p : keeps f (load p).
  Proof. unfold load. calm. Qed.

Lemma calm_store p v : keeps f (store p v).
  Proof. unfold store. calm. Qed.
Hint Resolve calm_load calm_store : keeps.

Lemma calm_compile_shader_source env src ty : keeps f (compile_shader_source env src ty).
  Proof. unfold compile_shader_source. calm. Qed.
Hint Resolve calm_compile_shader_source : keeps.

Lemma calm_compile_shader_file env path ty sh : keeps f (compile_shader_file env path ty sh).
  Proof. unfold compile_shader_file. calm. Qed.
Hint Resolve calm_compile_shader_file : keeps.

Lemma calm_link_program env v fr p : keeps f (link_program env v fr p).
  Proof. unfold link_program. calm. Qed.
Hint Resolve calm_link_program : keeps.

Lemma calm_load_shader_program env vp fp p : keeps f (load_shader_program env vp fp p).
  Proof. unfold load_shader_program. calm. Qed.

Lemma calm_resolve_uniform env u : keeps f (resolve_uniform env u).
  Proof. unfold resolve_uniform. calm. Qed.

Lemma calm_renderer_reload_textures env : keeps f (renderer_reload_textures env).
  Proof. unfold renderer_reload_textures. calm. Qed.

Lemma calm_renderer_init env : keeps f (renderer_init env).
  Proof. unfold renderer_init. calm. Qed.

Lemma calm_poke_render_conf i c : keeps f (poke_render_conf i c).
  Proof. unfold poke_render_conf. calm. Qed.

Lemma calm_the_render_conf : keeps f the_render_conf.
  Proof. unfold the_render_conf. calm. Qed.
Hint Resolve calm_poke_render_conf calm_the_render_conf : keeps.

Lemma calm_reload_render_conf_line path row content :
    keeps f (reload_render_conf_line path row content).
  Proof. unfold reload_render_conf_line. calm. Qed.
Hint Resolve calm_reload_render_conf_line : keeps.

Lemma calm_reload_render_conf_loop fuel : forall path row content,
    keeps f (reload_render_conf_loop fuel path row content).
  Proof. induction fuel as [|fuel IH]; intros; cbn [reload_render_conf_loop]; calm. Qed.
Hint Resolve calm_reload_render_conf_loop : keeps.

Lemma calm_reload_render_conf env path : keeps f (reload_render_conf env path).
  Proof. unfold reload_render_conf. calm. Qed.

Lemma calm_screenshot env : keeps f (screenshot env).
  Proof. unfold screenshot. calm. Qed.

Lemma calm_window_size_callback w h : keeps f (window_size_callback w h).
  Proof. unfold window_size_callback. calm. Qed.
End Calm.

Lemma keeps_on_renderer {X} (f : State -> X) (g : Renderer -> option Renderer) :
  (forall s r, g (global_renderer s) = Some r -> f (set_global_renderer r s) = f s) ->
  keeps f (on_renderer g).
Proof.
  intros Hg s. unfold on_renderer.
  destruct (g (global_renderer s)) as [r|] eqn:E; cbn [final]; [by apply Hg | reflexivity].
Qed.

(** ** The clear colour *)

Lemma clear_color_snoc (tr : list Event) (e : Event) :
  is_clear_color e = false -> clear_color (tr ++ [e]) = clear_color tr.
Proof.
  intros He. unfold clear_color, marks. rewrite !omap_app.
  assert (omap (fun m => match m with Cleared c => Some c | _ => None end) (omap mark [e]) = [])
    as -> by (destruct e as [[]|[]| | | | | |]; try discriminate He; reflexivity).
  by rewrite app_nil_r.
Qed.

Lemma flag_view_dep (s s' : State) :
  trace s' = trace s -> batch_view s' = batch_view s ->
  program_failed (global_renderer s') = program_failed (global_renderer s) ->
  flag_view s' = flag_view s.
Proof. intros Ht _ Hp. unfold flag_view. by rewrite Ht, Hp. Qed.

Lemma flag_view_snoc (s : State) (e : Event) :
  is_clear_color e = false -> flag_view (set_trace (trace s ++ [e]) s) = flag_view s.
Proof. intros He. unfold flag_view. cbn [trace set_trace]. by rewrite clear_color_snoc. Qed.

Lemma flag_view_emit (s : State) (e : Event) :
  loud e = false -> flag_view (set_trace (trace s ++ [e]) s) = flag_view s.
Proof.
  intros He. apply flag_view_snoc. unfold loud in He.
  by destruct (is_draw_event e), (is_clear_color e).
Qed.

Create HintDb keeps_flag discriminated.

Lemma keeps_flag_reload_render_conf env path : keeps flag_view (reload_render_conf env path).
Proof. apply calm_reload_render_conf; first [exact flag_view_dep | exact flag_view_emit]. Qed.

Lemma keeps_flag_renderer_init env : keeps flag_view (renderer_init env).
Proof. apply calm_renderer_init; first [exact flag_view_dep | exact flag_view_emit]. Qed.

Lemma keeps_flag_renderer_reload_textures env : keeps flag_view (renderer_reload_textures env).
Proof. apply calm_renderer_reload_textures; first [exact flag_view_dep | exact flag_view_emit]. Qed.

Lemma keeps_flag_screenshot env : keeps flag_view (screenshot env).
Proof. apply calm_screenshot; first [exact flag_view_dep | exact flag_view_emit]. Qed.

Lemma keeps_flag_window_size_callback w h : keeps flag_view (window_size_callback w h).
Proof. apply calm_window_size_callback; first [exact flag_view_dep | exact flag_view_emit]. Qed.

#[local] Hint Resolve keeps_flag_reload_render_conf keeps_flag_renderer_init keeps_flag_renderer_reload_textures keeps_flag_screenshot keeps_flag_window_size_callback : keeps_flag.

Ltac flag_keeps :=
  repeat first
    [ solve [auto with keeps_flag]
    | keeps_step ltac:(intros ?; apply flag_view_snoc; reflexivity)
                 ltac:(apply keeps_modify; intros ?; reflexivity) ].

Lemma keeps_flag_renderer_sync : keeps flag_view renderer_sync.
Proof. unfold renderer_sync. flag_keeps. Qed.

Lemma push_all_program_failed (vs : list Vertex) : forall r r' : Renderer,
  push_all r vs = Some r' -> program_failed r' = program_failed r.
Proof.
  induction vs as [|v vs IH]; intros r r'; cbn [push_all]; [by intros [= <-]|].
  unfold renderer_push_vertex at 1.
  destruct (decide (vertex_buf_sz r < VERTEX_BUF_CAP)%nat); [|discriminate].
  cbn [mbind option_bind]. intros H. by rewrite (IH _ _ H).
Qed.

Lemma clear_color_ok_view (s s' : State) :
  flag_view s' = flag_view s -> clear_color_ok s -> clear_color_ok s'.
Proof. unfold flag_view, clear_color_ok. intros [= -> ->]. done. Qed.

Lemma preserves_flag_keeps {A} (m : M A) : keeps flag_view m -> preserves clear_color_ok m.
Proof. apply keeps_preserves. exact clear_color_ok_view. Qed.

Lemma preserves_flag_push (vs : list Vertex) (g : Renderer -> option Renderer) :
  (forall r, g r = push_all r vs) -> preserves clear_color_ok (on_renderer g).
Proof.
  intros Hg. apply preserves_flag_keeps, keeps_on_renderer. intros s r Hr.
  unfold flag_view. cbn [global_renderer set_global_renderer trace].
  rewrite Hg in Hr. by rewrite (push_all_program_failed _ _ _ Hr).
Qed.

Lemma preserves_flag_renderer_reload_shaders env :
  preserves clear_color_ok (renderer_reload_shaders env).
Proof.
  intros s _.
  destruct (renderer_reload_shaders_runs env s) as (s' & evs & Hruns & _ & Hcases).
  destruct (runs_since _ _ _ _ _ Hruns) as [-> _]. destruct Hruns as [_ Htr].
  unfold clear_color_ok. rewrite Htr.
  destruct Hcases as [(-> & fl & Hfl & Hm)|(-> & linked & Hm)].
  - rewrite (clear_color_app_Cleared_then _ _ [Destroyed _] fl red Hm); [reflexivity|].
    each_failure Hfl; reflexivity.
  - unfold load_success in Hm. cbn [app] in Hm.
    by rewrite (clear_color_app_Cleared _ _ [_; _; _; _; _; _; _; _; _] _ Hm).
Qed.

Ltac flag_pres extra :=
  repeat lazymatch goal with
    | |- forall _, _ => intros
    | |- preserves _ (mbind _ _) => apply preserves_bind
    | |- preserves _ (match ?x with _ => _ end) => destruct x
    | |- preserves _ (renderer_reload_shaders _) => apply preserves_flag_renderer_reload_shaders
    | |- preserves _ _ => first [extra | apply preserves_flag_keeps; solve [flag_keeps]]
    end.

Lemma preserves_flag_key_callback env key action :
  preserves clear_color_ok (key_callback env key action).
Proof. unfold key_callback. flag_pres ltac:(fail). Qed.

Lemma preserves_flag_dispatch env inputs : preserves clear_color_ok (dispatch env inputs).
Proof.
  induction inputs as [|[] inputs IH]; cbn [dispatch];
    flag_pres ltac:(first [exact IH | apply preserves_flag_key_callback]).
Qed.

Lemma preserves_flag_frame env prev : preserves clear_color_ok (frame env prev).
Proof.
  unfold frame.
  flag_pres ltac:(idtac; lazymatch goal with
                  | |- preserves _ (dispatch _ _) => apply preserves_flag_dispatch
                  end).
Qed.

Lemma preserves_flag_main_startup env : preserves clear_color_ok (main_startup env).
Proof.
  unfold main_startup.
  flag_pres ltac:(idtac; lazymatch goal with
                  | |- preserves _ (on_renderer _) =>
                      eapply preserves_flag_push; intros ?; apply renderer_push_quad_push_all
                  | |- preserves _ renderer_sync =>
                      apply preserves_flag_keeps, keeps_flag_renderer_sync
                  end).
Qed.

Lemma preserves_flag_run_op (o : Op) : preserves clear_color_ok (run_op o).
Proof.
  destruct o; cbn [run_op].
  - apply (preserves_flag_push [mkVertex p t c]). intros r. cbn [push_all pos uv color].
    by destruct (renderer_push_vertex r p t c).
  - eapply preserves_flag_push. intros ?. apply renderer_push_quad_push_all.
  - apply preserves_flag_keeps, keeps_flag_renderer_sync.
  - apply preserves_flag_keeps, keeps_flag_renderer_init.
  - apply preserves_flag_keeps, keeps_flag_renderer_reload_textures.
  - apply preserves_flag_renderer_reload_shaders.
  - apply preserves_flag_keeps, keeps_flag_reload_render_conf.
  - apply preserves_flag_key_callback.
  - apply preserves_flag_keeps, keeps_flag_window_size_callback.
  - apply preserves_bind; [apply preserves_flag_frame | intros a s Hs; exact Hs].
  - apply preserves_bind; [apply preserves_flag_main_startup | intros a s Hs; exact Hs].
Qed.

Lemma reachable_clear_color_ok (s : State) : reachable s -> clear_color_ok s.
Proof.
  unfold reachable. revert s. apply rtc_ind_r; [reflexivity|].
  intros s1 s2 _ [o ->] IH. by apply preserves_flag_run_op.
Qed.

(** X19: in every state the program reaches, the clear colour GL has
    been given goes with the flag of the renderer: it is red exactly while
    the program has failed, and transparent black, or not set yet, exactly
    while it has not. *)
Theorem red_clear_color_while_failed (s : State) :
  reachable s ->
  (program_failed (global_renderer s) = true <-> clear_color (trace s) = Some red)
  /\ (program_failed (global_renderer s) = false
      <-> clear_color (trace s) = Some transparent_black \/ clear_color (trace s) = None).
Proof.
  intros Hs. pose proof (reachable_clear_color_ok s Hs) as Hok. unfold clear_color_ok in Hok.
  assert (red <> transparent_black) as Hne by (intros H; vm_compute in H; discriminate H).
  destruct (clear_color (trace s)) as [c|], (program_failed (global_renderer s));
    try discriminate Hok; subst.
  - split; [split; intros _; reflexivity|]. split; [discriminate|].
    intros [H|H]; [|discriminate H]. exfalso. apply Hne. congruence.
  - split; [split; [discriminate | intros H; exfalso; apply Hne; congruence]|].
    split; [by left | intros _; reflexivity].
  - split; [split; discriminate|]. split; [by right | intros _; reflexivity].
Qed.

Lemma red_clear_color_while_failed_witness :
  let env := example_env [("render.conf", example_conf)] true true [] 0%float in
  let s := final (run_op (Op_main_startup env) State_init) in
  program_failed (global_renderer s) = true /\ clear_color (trace s) = Some red.
Proof.
  intros env s.
  assert (program_failed (global_renderer s) = true) as Hpf by (vm_compute; reflexivity).
  split; [exact Hpf|].
  apply (red_clear_color_while_failed s); [|exact Hpf].
  apply rtc_once. by exists (Op_main_startup env).
Defined.

(** ** The uploads *)

Lemma uploads_snoc (tr : list Event) (e : Event) :
  uploads (tr ++ [e]) = uploads tr ++ (if is_upload e then [e] else []).
Proof.
  unfold uploads. rewrite filter_app. f_equal.
  destruct (is_upload e) eqn:E.
  - rewrite filter_cons_True by exact E. reflexivity.
  - rewrite filter_cons_False by (rewrite E; discriminate). reflexivity.
Qed.

Lemma upload_view_dep (s s' : State) :
  trace s' = trace s -> batch_view s' = batch_view s ->
  program_failed (global_renderer s') = program_failed (global_renderer s) ->
  upload_view s' = upload_view s.
Proof. intros Ht Hb _. unfold upload_view. by rewrite Ht, Hb. Qed.

Lemma upload_view_snoc (s : State) (e : Event) :
  is_upload e = false -> upload_view (set_trace (trace s ++ [e]) s) = upload_view s.
Proof.
  intros He. unfold upload_view. cbn [trace set_trace]. rewrite uploads_snoc, He.
  by rewrite app_nil_r.
Qed.

Lemma upload_view_emit (s : State) (e : Event) :
  loud e = false -> upload_view (set_trace (trace s ++ [e]) s) = upload_view s.
Proof.
  intros He. apply upload_view_snoc. unfold loud in He.
  by destruct (is_draw_event e), (is_clear_color e), (is_upload e).
Qed.

Create HintDb keeps_upload discriminated.

Lemma keeps_upload_reload_render_conf env path : keeps upload_view (reload_render_conf env path).
Proof. apply calm_reload_render_conf; first [exact upload_view_dep | exact upload_view_emit]. Qed.

Lemma keeps_upload_renderer_init env : keeps upload_view (renderer_init env).
Proof. apply calm_renderer_init; first [exact upload_view_dep | exact upload_view_emit]. Qed.

Lemma keeps_upload_renderer_reload_textures env :
  keeps upload_view (renderer_reload_textures env).
Proof. apply calm_renderer_reload_textures; first [exact upload_view_dep | exact upload_view_emit]. Qed.

Lemma keeps_upload_screenshot env : keeps upload_view (screenshot env).
Proof. apply calm_screenshot; first [exact upload_view_dep | exact upload_view_emit]. Qed.

Lemma keeps_upload_window_size_callback w h : keeps upload_view (window_size_callback w h).
Proof. apply calm_window_size_callback; first [exact upload_view_dep | exact upload_view_emit]. Qed.

Lemma keeps_upload_load_shader_program env vp fp p :
  keeps upload_view (load_shader_program env vp fp p).
Proof. apply calm_load_shader_program; first [exact upload_view_dep | exact upload_view_emit]. Qed.

Lemma keeps_upload_resolve_uniform env u : keeps upload_view (resolve_uniform env u).
Proof. apply calm_resolve_uniform; first [exact upload_view_dep | exact upload_view_emit]. Qed.

#[local] Hint Resolve keeps_upload_reload_render_conf keeps_upload_renderer_init keeps_upload_renderer_reload_textures keeps_upload_screenshot keeps_upload_window_size_callback keeps_upload_load_shader_program keeps_upload_resolve_uniform : keeps_upload.

Ltac upload_keeps :=
  repeat first
    [ solve [auto with keeps_upload]
    | keeps_step ltac:(intros ?; apply upload_view_snoc; reflexivity)
                 ltac:(apply keeps_modify; intros ?; reflexivity) ].

Lemma keeps_upload_renderer_reload_shaders env :
  keeps upload_view (renderer_reload_shaders env).
Proof. unfold renderer_reload_shaders. upload_keeps. Qed.
#[local] Hint Resolve keeps_upload_renderer_reload_shaders : keeps_upload.

Lemma keeps_upload_key_callback env key action : keeps upload_view (key_callback env key action).
Proof. unfold key_callback. upload_keeps. Qed.
#[local] Hint Resolve keeps_upload_key_callback : keeps_upload.

Lemma keeps_upload_dispatch env inputs : keeps upload_view (dispatch env inputs).
Proof. induction inputs as [|[] inputs IH]; cbn [dispatch]; upload_keeps. Qed.
#[local] Hint Resolve keeps_upload_dispatch : keeps_upload.

Lemma keeps_upload_frame env prev : keeps upload_view (frame env prev).
Proof. unfold frame. upload_keeps. Qed.

Lemma keeps_upload_main_loop frames : forall prev, keeps upload_view (main_loop frames prev).
Proof.
  induction frames as [|env frames IH]; intros prev; cbn [main_loop].
  - apply keeps_ret.
  - apply keeps_bind; [apply keeps_upload_frame | exact IH].
Qed.

Lemma triple_uploads {A} (R : list Event * (list Vertex * nat) -> Prop) (m : M A) :
  keeps upload_view m -> ends_in returns_or_exits_1 m ->
  triple (at_uploads R) m (fun _ => at_uploads R).
Proof.
  intros Hk He s Hs. specialize (Hk s). specialize (He s). unfold at_uploads in *.
  destruct (m s) as [a s'|c s'|s']; cbn [final ending returns_or_exits_1] in *;
    [by rewrite Hk | exact He..].
Qed.

Lemma triple_uploads_push_quad :
  triple (at_uploads (fun v => v.1 = [] /\ length v.2.1 = VERTEX_BUF_CAP /\ v.2.2 = 0%nat))
         (on_renderer (fun r =>
            renderer_push_quad r (v2f (f32_of_Z (-1)) (f32_of_Z (-1)))
              (v2f (f32_of_Z 1) (f32_of_Z 1)) (v4f f32_zero f32_zero f32_zero f32_zero)))
         (fun _ => at_uploads (fun v => v.1 = [] /\ take v.2.2 v.2.1 = main_quad /\ v.2.2 = 6%nat)).
Proof.
  intros s (Hup & Hlen & Hsz). unfold at_uploads, upload_view, batch_view in *. cbn [fst snd] in *.
  unfold on_renderer. rewrite renderer_push_quad_push_all. fold main_quad.
  destruct (push_all_batch main_quad (global_renderer s)) as (r' & -> & Hb & Hsz' & _).
  - split; [exact Hlen | lia].
  - rewrite Hsz. unfold VERTEX_BUF_CAP. cbn [main_quad quad_vertices length]. lia.
  - cbn [global_renderer set_global_renderer trace fst snd].
    split; [exact Hup|]. split; [|rewrite Hsz', Hsz; reflexivity].
    unfold batch in Hb. rewrite Hb, Hsz. reflexivity.
Qed.

Lemma triple_uploads_renderer_sync :
  triple (at_uploads (fun v => v.1 = [] /\ take v.2.2 v.2.1 = main_quad /\ v.2.2 = 6%nat))
         renderer_sync
         (fun _ => at_uploads (fun v => v.1 = [main_upload] /\ take v.2.2 v.2.1 = main_quad)).
Proof.
  intros s (Hup & Hb & Hsz). unfold at_uploads, upload_view, batch_view in *. cbn [fst snd] in *.
  rewrite renderer_sync_run. cbn [trace set_trace global_renderer fst snd].
  split; [|exact Hb]. rewrite uploads_snoc, Hup. cbn [is_upload app].
  unfold main_upload, batch. by rewrite Hb, Hsz.
Qed.

#[local] Hint Resolve keeps_upload_renderer_init : keeps_upload.

Lemma triple_uploads_main_startup (env : Env) :
  triple (at_uploads (fun v => v.1 = [] /\ length v.2.1 = VERTEX_BUF_CAP /\ v.2.2 = 0%nat))
         (main_startup env)
         (fun _ => at_uploads (fun v => v.1 = [main_upload] /\ take v.2.2 v.2.1 = main_quad)).
Proof.
  unfold main_startup.
  repeat (eapply triple_bind;
          [ apply triple_uploads; [ solve [upload_keeps] | solve [ends_tac] ] | intros ? ]).
  eapply triple_bind; [apply triple_uploads_push_quad | intros ?].
  eapply triple_bind; [apply triple_uploads_renderer_sync | intros ?].
  repeat (eapply triple_bind;
          [ apply triple_uploads; [ solve [upload_keeps] | solve [ends_tac] ] | intros ? ]).
  apply triple_ret.
Qed.

(** X20: [main] uploads the batch once, before its loop: the six
    vertices of the quad from (-1, -1) to (1, 1), 192 bytes.  Nothing in
    the loop, the reload key included, pushes a vertex or uploads again, so
    the batch stays this quad for as long as the program runs. *)
Theorem main_uploads_the_quad_once (env : Env) (frames : list Env) (prev : double)
    (s0 : State) :
  main_startup env State_init = Ret prev s0 ->
  uploads (trace s0) = [main_upload]
  /\ batch (global_renderer s0) = main_quad
  /\ uploads (trace (final (main_loop frames prev s0))) = [main_upload]
  /\ batch (global_renderer (final (main_loop frames prev s0))) = main_quad.
Proof.
  intros Hstart.
  pose proof (triple_uploads_main_startup env State_init) as Htriple.
  rewrite Hstart in Htriple.
  destruct Htriple as [Hup Hb]; [split; [reflexivity|]; split; [apply length_replicate | reflexivity]|].
  unfold upload_view, batch_view in Hup, Hb. cbn [fst snd] in Hup, Hb.
  pose proof (keeps_upload_main_loop frames prev s0) as Hloop.
  unfold upload_view, batch_view in Hloop. injection Hloop as Hup' Hbuf' Hsz'.
  unfold batch. rewrite Hup', Hbuf', Hsz'. done.
Qed.

Lemma main_uploads_the_quad_once_witness :
  let env := fun input => example_env example_files true true input 1%float in
  uploads (trace (final (main (env []) [env [Key GLFW_KEY_F5 GLFW_PRESS]; env []] State_init)))
  = [main_upload].
Proof.
  intros env.
  assert (match main_startup (env []) State_init with Ret _ _ => True | _ => False end) as Hret
    by (vm_compute; exact I).
  unfold main. rewrite final_bind.
  destruct (main_startup (env []) State_init) as [prev s0| |] eqn:Hstart; [|destruct Hret..].
  rewrite final_bind.
  pose proof (main_uploads_the_quad_once (env [])
                [env [Key GLFW_KEY_F5 GLFW_PRESS]; env []] prev s0 Hstart) as (_ & _ & Hup & _).
  destruct (main_loop _ prev s0) as [[] s1|c s1|s1]; exact Hup.
Defined.

(** ** The frame *)

(** X21: what a frame draws is settled when it begins: one draw call
    of the whole batch if the program is loaded then, none if it has
    failed, whatever the keys pressed during the frame do, a reload among
    them; and the frame leaves the batch as it is. *)
Theorem frame_draws_as_loaded_at_its_start (env : Env) (prev : double) (s : State) :
  draw_calls (trace (final (frame env prev s))) =
    draw_calls (trace s) ++
      (if program_failed (global_renderer s) then []
       else [GL (GlDrawArraysInstanced_TRIANGLES 0
                   (Z.of_nat (vertex_buf_sz (global_renderer s))) 1)])
  /\ batch (global_renderer (final (frame env prev s))) = batch (global_renderer s)
  /\ vertex_buf_sz (global_renderer (final (frame env prev s)))
     = vertex_buf_sz (global_renderer s).
Proof.
  split; [apply frame_draw_calls|].
  pose proof (keeps_batch_frame env prev s) as Hview. unfold batch_view in Hview.
  injection Hview as Hbuf Hsz. unfold batch. by rewrite Hbuf, Hsz.
Qed.

(** * Resizing *)

(** X24: a poll without key presses changes nothing in the program:
    each framebuffer resize among its inputs leads to one
    [glViewport(0, 0, width, height)], in the order of arrival, and the key
    releases and repeats between them lead to nothing. *)
Theorem resizes_set_the_viewport (env : Env) (inputs : list Input) (s : State) :
  Forall not_press inputs ->
  dispatch env inputs s = Ret tt (set_trace (trace s ++ viewports inputs) s).
Proof.
  revert s. induction inputs as [|i inputs IH]; intros s Hall; cbn [dispatch viewports omap].
  - rewrite app_nil_r. by destruct s.
  - apply Forall_cons in Hall as [Hi Hall]. destruct i as [key action|w h]; cbn [not_press] in Hi.
    + cbv beta delta [mbind M_bind bind]. rewrite key_callback_not_press by exact Hi.
      by apply IH.
    + unfold window_size_callback. run_state. rewrite IH by exact Hall.
      cbn [trace set_trace]. rewrite <- app_assoc. reflexivity.
Qed.

Lemma resizes_set_the_viewport_witness :
  dispatch (example_env example_files true true [] 0%float)
    [FramebufferSize 800 600; Key GLFW_KEY_F5 0; FramebufferSize 1024 768] State_init
  = Ret tt (set_trace [GL (GlViewport 0 0 800 600); GL (GlViewport 0 0 1024 768)] State_init).
Proof.
  rewrite resizes_set_the_viewport; [reflexivity|].
  repeat constructor; discriminate.
Defined.

(** * What a path can hold *)

Lemma conf_lines_no_newline (text : list ascii) :
  Forall (fun l => newline ∉ l) (conf_lines text).
Proof.
  induction text as [|c text IH]; cbn [conf_lines]; [constructor|].
  destruct (decide (c = newline)) as [->|Hne].
  - constructor; [by intros ?%elem_of_nil | exact IH].
  - destruct (conf_lines text) as [|ln lns].
    + constructor; [|constructor].
      intros [?|?%elem_of_nil]%elem_of_cons; [congruence | done].
    + apply Forall_cons in IH as [Hln Hlns]. constructor; [|exact Hlns].
      intros [?|?]%elem_of_cons; [congruence | done].
Qed.

Lemma conf_lines_sublist (text : list ascii) :
  Forall (fun l => forall c, c ∈ l -> c ∈ text) (conf_lines text).
Proof.
  induction text as [|c text IH]; cbn [conf_lines]; [constructor|].
  assert (Forall (fun l => forall c0, c0 ∈ l -> c0 ∈ c :: text) (conf_lines text)) as IH'.
  { eapply Forall_impl; [exact IH|]. intros l Hl c0 Hc0. apply elem_of_cons. right. by apply Hl. }
  destruct (decide (c = newline)) as [->|Hne].
  - constructor; [by intros c0 ?%elem_of_nil | exact IH'].
  - destruct (conf_lines text) as [|ln lns].
    + constructor; [|constructor].
      intros c0 [->|?%elem_of_nil]%elem_of_cons; [apply list_elem_of_here | done].
    + apply Forall_cons in IH' as [Hln Hlns]. constructor; [|exact Hlns].
      intros c0 [->|Hin]%elem_of_cons; [apply list_elem_of_here | by apply Hln].
Qed.

Lemma trim_left_sublist (l : list ascii) (c : ascii) : c ∈ trim_left l -> c ∈ l.
Proof.
  intros Hin. destruct (trim_left_suffix l) as (sp & Hl & _). rewrite Hl.
  apply elem_of_app. by right.
Qed.

Lemma conf_line_value_sublist (l : list ascii) (col : nat) (key value : list ascii) (c : ascii) :
  conf_line trim_left l = Entry col key value -> c ∈ value -> c ∈ l.
Proof.
  intros Hentry Hin. apply conf_line_entry in Hentry as (_ & _ & ->).
  by apply trim_left_sublist, (after_sublist "="%char), trim_left_sublist in Hin.
Qed.

Lemma conf_apply_path_strings (P : cstring -> Prop) (ps : Paths) (l : ConfLine) :
  Forall P (path_strings ps) ->
  (forall col key value, l = Entry col key value -> P value) ->
  Forall P (path_strings (conf_apply ps l)).
Proof.
  intros Hps Hl. destruct l as [|col key value]; [exact Hps|].
  specialize (Hl col key value eq_refl). cbn [conf_apply]. revert Hps.
  unfold path_strings. repeat case_decide; cbn [the_vert the_frag the_texture]; [| | |done];
    destruct (the_vert ps), (the_frag ps), (the_texture ps); cbn;
    intros Hall;
    repeat match goal with
           | Hx : Forall _ (_ :: _) |- _ => apply Forall_cons in Hx as [? Hx]
           end;
    repeat constructor; assumption.
Qed.

Lemma conf_paths_path_strings (P : cstring -> Prop) (ls : list ConfLine) : forall ps : Paths,
  Forall P (path_strings ps) ->
  Forall (fun l => forall col key value, l = Entry col key value -> P value) ls ->
  Forall P (path_strings (foldl conf_apply ps ls)).
Proof.
  induction ls as [|l ls IH]; intros ps Hps Hls; [exact Hps|].
  apply Forall_cons in Hls as [Hl Hls]. cbn [foldl].
  apply IH; [by apply conf_apply_path_strings | exact Hls].
Qed.

(** X25: after a reload, a path that is not null is a piece of one line
    of the file: every character of it is a character of the file, and
    none is a newline or a NUL. *)
Theorem reload_render_conf_paths_are_pieces_of_lines (env : Env) (path : string) (s : State)
    (file : list ascii) :
  env_file env (Some (cstr path)) = Some file ->
  exists s',
    reload_render_conf env path s = Ret tt s'
    /\ Forall (fun p : cstring =>
                 (newline ∉ p) /\ (NUL ∉ p) /\ forall c, c ∈ p -> c ∈ file)
         (path_strings (paths_of s')).
Proof.
  intros Hfile.
  destruct (reload_render_conf_readable env path s file Hfile)
    as (s' & Hrun & _ & _ & _ & _ & _ & Hpaths).
  exists s'. split; [exact Hrun|]. rewrite Hpaths, as_cstring_before.
  unfold conf_paths, conf_entries. apply conf_paths_path_strings; [constructor|].
  apply Forall_fmap.
  pose proof (conf_lines_no_newline (before NUL file)) as Hnl.
  pose proof (conf_lines_sublist (before NUL file)) as Hsub.
  rewrite Forall_forall in Hnl, Hsub. apply Forall_forall. intros l Hl col key value Hentry.
  assert (forall c, c ∈ value -> c ∈ before NUL file) as Hin.
  { intros c Hc. apply (Hsub l Hl). by apply (conf_line_value_sublist l col key value). }
  split; [|split].
  - intros Hc. apply (Hnl l Hl). by apply (conf_line_value_sublist l col key value).
  - intros Hc. apply Hin in Hc. rewrite <- as_cstring_before in Hc.
    unfold as_cstring, cstr_at in Hc. rewrite drop_0 in Hc. by apply strlen_take_NUL in Hc.
  - intros c Hc. by apply (before_sublist NUL), Hin.
Qed.

Lemma reload_render_conf_paths_are_pieces_of_lines_witness :
  let s' := final (reload_render_conf
                     (example_env [("render.conf", example_conf)] false true [] 0%float)
                     "render.conf" State_init) in
  Forall (fun p : cstring => newline ∉ p) (path_strings (paths_of s')).
Proof.
  intros s'.
  destruct (reload_render_conf_paths_are_pieces_of_lines
              (example_env [("render.conf", example_conf)] false true [] 0%float)
              "render.conf" State_init example_conf eq_refl) as (s1 & Hrun & Hall).
  unfold s'. rewrite Hrun. cbn [final].
  eapply Forall_impl; [exact Hall|]. by intros p (? & _).
Defined.
